(** * erddaplogs: a shallow embedding of [erddaplogs/logparse.py]

    The module keeps web-server access logs in polars data frames, enriches
    them with facts looked up per client IP, derives analytic columns from
    the request URL, filters the table and exports an anonymised copy.

    The embedding follows the Python source function by function.  Data
    frames are rows of named cells, Python exceptions are values of [exn]
    carried by the [result] monad, and methods of the [ErddapLogParser]
    class are state transformers over a record with the attributes of the
    instance.

    What lies outside the module enters as a parameter: the order in which
    polars returns rows where it promises none ([Engine]), the IP lookup
    service and the cache files ([service], [World]), the classification of
    user agents ([is_bot]) and the frames the log readers parse from disk
    ([parsed]).  Console output is not part of the state. *)

From Stdlib Require Import ZArith QArith Ascii String List Permutation Sorted Lia.
From stdpp Require Import base option list strings gmap.

Local Open Scope string_scope.
Local Open Scope list_scope.

(** ** Exceptions and the error monad *)

Inductive exn : Type :=
  | ValueError
  | KeyError (k : nat)
  | AttributeError (attr : string)
  | ZeroDivisionError
  | TypeError
  | ColumnNotFoundError (c : string)
  | SchemaError
  | ShapeError
  | ComputeError
  | NoRowsReturnedError
  | TooManyRowsReturnedError
  | RequestException.

Inductive result (A : Type) : Type :=
  | Return (a : A)
  | Raise (e : exn).
Arguments Return {A} a.
Arguments Raise {A} e.

#[export] Instance result_ret : MRet result := fun A a => Return a.
#[export] Instance result_bind : MBind result := fun A B f m =>
  match m with
  | Return a => f a
  | Raise e => Raise e
  end.
#[export] Instance result_fmap : FMap result := fun A B f m =>
  match m with
  | Return a => Return (f a)
  | Raise e => Raise e
  end.

(** ** Python string operations used by the module *)

Module PyStr.

(** [s.replace(c, empty)]: every occurrence of the character is dropped. *)
Fixpoint remove_char (c : ascii) (s : string) : string :=
  match s with
  | EmptyString => EmptyString
  | String a s' =>
      if Ascii.eqb a c then remove_char c s' else String a (remove_char c s')
  end.

(** [s.split(sep)] for a one-character separator: the pieces between the
    separators, in order; there is always at least one piece. *)
Fixpoint split (sep : ascii) (s : string) : list string :=
  match s with
  | EmptyString => [EmptyString]
  | String a s' =>
      if Ascii.eqb a sep then EmptyString :: split sep s'
      else match split sep s' with
           | p :: ps => String a p :: ps
           | [] => [String a EmptyString]
           end
  end.

(** [sub in s] *)
Fixpoint contains (sub s : string) : bool :=
  String.prefix sub s ||
  match s with
  | EmptyString => false
  | String _ s' => contains sub s'
  end.

(** the characters of [s] are all different from [c] *)
Fixpoint free_of (c : ascii) (s : string) : bool :=
  match s with
  | EmptyString => true
  | String a s' => negb (Ascii.eqb a c) && free_of c s'
  end.

End PyStr.

(** ** pandas string columns

    The module passes string columns through pandas (version 2) to split
    them.  A cell of an object column is a Python string, [None], or the
    float NaN that the [.str] methods give for a missing input.

    [Series.str.split(sep, expand=True)] yields a frame with integer column
    labels [0 .. w-1], where [w] is the largest number of pieces of any row;
    rows with fewer pieces hold [None] in the remaining columns, and the row
    of a missing input holds NaN throughout.  Selecting a label that is not
    below [w] raises [KeyError]. *)

Module Pandas.

Inductive cell : Type :=
  | Str (s : string)
  | PyNone
  | NaN.

(** one row of an expanded split, before padding *)
Inductive pieces : Type :=
  | Pieces (ps : list string)
  | Missing.

Definition frame := list pieces.

(** [Series.str.replace(" ", "")] *)
Definition str_remove_spaces (c : cell) : cell :=
  match c with
  | Str s => Str (PyStr.remove_char " " s)
  | _ => NaN
  end.

(** [Series.str.split(sep, expand=True)], one row and the whole column *)
Definition split_cell (sep : ascii) (c : cell) : pieces :=
  match c with
  | Str s => Pieces (PyStr.split sep s)
  | _ => Missing
  end.

Definition str_split_expand (sep : ascii) (col : list cell) : frame :=
  map (split_cell sep) col.

Definition pieces_len (p : pieces) : nat :=
  match p with
  | Pieces ps => length ps
  | Missing => 1
  end.

Definition width (f : frame) : nat :=
  foldr (fun p w => Nat.max (pieces_len p) w) 0%nat f.

Definition pieces_get (k : nat) (p : pieces) : cell :=
  match p with
  | Pieces ps => match ps !! k with Some s => Str s | None => PyNone end
  | Missing => NaN
  end.

(** [frame[k]] *)
Definition getitem (f : frame) (k : nat) : result (list cell) :=
  if (k <? width f)%nat then Return (map (pieces_get k) f)
  else Raise (KeyError k).

(** [Series.astype(str)] on an object column: [str(x)] of every cell,
    missing ones included. *)
Definition astype_str (c : cell) : string :=
  match c with
  | Str s => s
  | PyNone => "None"
  | NaN => "nan"
  end.

(** [a + b] on object columns: a missing operand gives NaN *)
Definition add (a b : cell) : cell :=
  match a, b with
  | Str x, Str y => Str (x +:+ y)
  | _, _ => NaN
  end.

End Pandas.

(** ** polars data frames

    A cell holds a [datum] or is null; a row maps column names to the data
    of its non-null cells, so that two rows are equal exactly when they agree
    on every column, nulls included.  A frame is the list of its column
    names together with its rows, in order. *)

#[export] Instance Q_eq_dec : EqDecision Q.
Proof. solve_decision. Defined.

Inductive datum : Type :=
  | DStr (s : string)
  | DInt (z : Z)
  | DFloat (q : Q)
  | DDatetime (t : Z).

#[export] Instance datum_eq_dec : EqDecision datum.
Proof. solve_decision. Defined.

Abbreviation value := (option datum).
Abbreviation row := (gmap string datum).

Record DataFrame : Type := mkDataFrame {
  columns : list string;
  rows : list row
}.

#[export] Instance DataFrame_eq_dec : EqDecision DataFrame.
Proof. solve_decision. Defined.

Module Polars.

(** [pl.DataFrame()] *)
Definition empty_frame : DataFrame := mkDataFrame [] [].

(** [len(df)], [df.shape[0]] *)
Definition height (df : DataFrame) : nat := length (rows df).

(** [df.is_empty()] *)
Definition is_empty (df : DataFrame) : bool := (height df =? 0)%nat.

(** [c in df.columns] *)
Definition has_column (c : string) (df : DataFrame) : bool :=
  bool_decide (c ∈ columns df).

Definition cell (c : string) (r : row) : value := r !! c.

Definition set_cell (c : string) (v : value) (r : row) : row :=
  partial_alter (fun _ => v) c r.

(** [df[c]], [df.get_column(c)] *)
Definition get_column (c : string) (df : DataFrame) : result (list value) :=
  if has_column c df then Return (map (cell c) (rows df))
  else Raise (ColumnNotFoundError c).

(** the text cells of a String column; a column of another type is refused *)
Fixpoint as_strings (vs : list value) : result (list (option string)) :=
  match vs with
  | [] => Return []
  | v :: vs' =>
      match v with
      | None => cons None <$> as_strings vs'
      | Some (DStr s) => cons (Some s) <$> as_strings vs'
      | Some _ => Raise SchemaError
      end
  end.

(** [df.with_columns(c = values)]: the column is replaced where it
    stands, or added after the last one. *)
Definition with_column (c : string) (vs : list value) (df : DataFrame)
  : result DataFrame :=
  if (length vs =? height df)%nat then
    Return (mkDataFrame
              (if has_column c df then columns df else columns df ++ [c])
              (zip_with (set_cell c) vs (rows df)))
  else Raise ShapeError.

(** [df.with_columns(pl.col(c).fill_null(d))] *)
Definition fill_null (c : string) (d : datum) (df : DataFrame) : result DataFrame :=
  vs ← get_column c df;
  with_column c (map (fun v => Some (default d v)) vs) df.

(** [df.filter(mask)]: the rows whose mask is true are kept, in order; a
    null mask drops the row. *)
Fixpoint keep_rows (mask : list (option bool)) (rs : list row) : list row :=
  match mask, rs with
  | m :: mask', r :: rs' =>
      if default false m then r :: keep_rows mask' rs' else keep_rows mask' rs'
  | _, _ => []
  end.

Definition df_filter (mask : list (option bool)) (df : DataFrame) : DataFrame :=
  mkDataFrame (columns df) (keep_rows mask (rows df)).

(** [~mask] *)
Definition mask_not (mask : list (option bool)) : list (option bool) :=
  map (fmap negb) mask.

(** [df.gather_every(n)]: rows 0, n, 2n, ...; [n] must be positive. *)
Fixpoint every_nth (n k : nat) (rs : list row) : list row :=
  match rs with
  | [] => []
  | r :: rs' =>
      match k with
      | O => r :: every_nth n (pred n) rs'
      | S k' => every_nth n k' rs'
      end
  end.

Definition gather_every (n : Z) (df : DataFrame) : result DataFrame :=
  if (0 <? n)%Z then
    Return (mkDataFrame (columns df) (every_nth (Z.to_nat n) 0 (rows df)))
  else Raise ComputeError.

(** [pl.concat([a, b], how="vertical")]: a frame without columns is
    replaced by the other one; otherwise the column names must agree. *)
Definition concat_vertical (a b : DataFrame) : result DataFrame :=
  match columns a with
  | [] => Return b
  | _ =>
      if decide (columns a = columns b)
      then Return (mkDataFrame (columns a) (rows a ++ rows b))
      else Raise ShapeError
  end.

(** [pl.concat((a, b), how="diagonal")]: the union of the columns, the
    rows of [a] followed by those of [b], absent cells null. *)
Definition concat_diagonal (a b : DataFrame) : DataFrame :=
  mkDataFrame
    (columns a ++ List.filter (fun c => negb (has_column c a)) (columns b))
    (rows a ++ rows b).

(** the order polars sorts a column by: nulls first, then by value; data
    of different types never meet in one column, they are ranked by type
    to keep the order total. *)
Definition datum_rank (d : datum) : Z :=
  match d with
  | DStr _ => 0
  | DInt _ => 1
  | DFloat _ => 2
  | DDatetime _ => 3
  end.

Definition datum_leb (a b : datum) : bool :=
  match a, b with
  | DStr x, DStr y => String.leb x y
  | DInt x, DInt y => (x <=? y)%Z
  | DFloat x, DFloat y => Qle_bool x y
  | DDatetime x, DDatetime y => (x <=? y)%Z
  | _, _ => (datum_rank a <=? datum_rank b)%Z
  end.

Definition value_leb (a b : value) : bool :=
  match a, b with
  | None, _ => true
  | Some _, None => false
  | Some x, Some y => datum_leb x y
  end.

Definition row_le (c : string) (a b : row) : Prop :=
  value_leb (cell c a) (cell c b) = true.

End Polars.

(** ** What polars leaves open

    [DataFrame.sort] without [maintain_order] may return rows with equal
    keys in any order, and [DataFrame.unique] / [Series.unique] without
    [maintain_order] return the distinct rows (values) in an order that
    polars does not promise.  An [Engine] is one admissible behaviour of these
    operations; the functions below take the engine as a parameter and the
    theorems hold for every engine. *)

Record Engine : Type := mkEngine {
  sort_rows : string -> list row -> list row;
  sort_rows_perm : forall c l, Permutation (sort_rows c l) l;
  sort_rows_sorted : forall c l, Sorted (Polars.row_le c) (sort_rows c l);
  unique_rows : list row -> list row;
  unique_rows_NoDup : forall l, NoDup (unique_rows l);
  unique_rows_elem : forall l r, r ∈ unique_rows l <-> r ∈ l;
  unique_values : list value -> list value;
  unique_values_NoDup : forall l, NoDup (unique_values l);
  unique_values_elem : forall l v, v ∈ unique_values l <-> v ∈ l
}.

(** ** Frame operations that go through the engine, and joins *)

Module Frame.

(** [df.sort(c)] *)
Definition sort (E : Engine) (c : string) (df : DataFrame) : result DataFrame :=
  if Polars.has_column c df
  then Return (mkDataFrame (columns df) (sort_rows E c (rows df)))
  else Raise (ColumnNotFoundError c).

(** [df.unique()] *)
Definition unique (E : Engine) (df : DataFrame) : DataFrame :=
  mkDataFrame (columns df) (unique_rows E (rows df)).

(** the name a column of the right frame gets in a join *)
Definition joined_name (left : DataFrame) (c : string) : string :=
  if Polars.has_column c left then c +:+ "_right" else c.

Definition merge_row (left : DataFrame) (others : list string) (lr rr : row) : row :=
  foldr (fun c acc => Polars.set_cell (joined_name left c) (Polars.cell c rr) acc)
        lr others.

(** [left.join(right, left_on=l, right_on=r, how="left")]: every row of the
    left frame, once per right row with the same non-null key, or once with
    nulls in the right columns when there is none. *)
Definition join_left (left right : DataFrame) (left_on right_on : string)
  : result DataFrame :=
  if negb (Polars.has_column left_on left) then Raise (ColumnNotFoundError left_on)
  else if negb (Polars.has_column right_on right) then Raise (ColumnNotFoundError right_on)
  else
    let others := List.filter (fun c => negb (String.eqb c right_on)) (columns right) in
    Return (mkDataFrame
      (columns left ++ map (joined_name left) others)
      (flat_map (fun lr =>
         match Polars.cell left_on lr with
         | None => [lr]
         | Some k =>
             match List.filter
                     (fun rr => bool_decide (Polars.cell right_on rr = Some k))
                     (rows right) with
             | [] => [lr]
             | ms => map (merge_row left others lr) ms
             end
         end) (rows left))).

End Frame.

(** ** Regular expressions

    The patterns of the module use literal characters, the dot, the lazy
    [.*?] and the inline flag [(?i)].  Matching tries the alternatives in the
    order a backtracking matcher does and reports the length of the first
    match found at a position. *)

Module Regex.

Inductive atom : Type :=
  | Lit (c : ascii)
  | AnyChar
  | LazyAny.

Record regex : Type := mkRegex {
  ignore_case : bool;
  atoms : list atom
}.

Fixpoint parse_atoms (s : string) : list atom :=
  match s with
  | EmptyString => []
  | String "." (String "*" (String "?" s')) => LazyAny :: parse_atoms s'
  | String "." s' => AnyChar :: parse_atoms s'
  | String c s' => Lit c :: parse_atoms s'
  end.

Definition drop_flag (p : string) : string :=
  String.substring 4 (String.length p - 4) p.

Definition compile (p : string) : regex :=
  if String.prefix "(?i)" p
  then mkRegex true (parse_atoms (drop_flag p))
  else mkRegex false (parse_atoms p).

Definition is_newline (a : ascii) : bool := Ascii.eqb a "010".

Definition lower (a : ascii) : ascii :=
  let n := nat_of_ascii a in
  if ((65 <=? n) && (n <=? 90))%nat then ascii_of_nat (n + 32) else a.

Definition char_eqb (ci : bool) (a c : ascii) : bool :=
  if ci then Ascii.eqb (lower a) (lower c) else Ascii.eqb a c.

(** the length of the match of the atoms at the start of [s] *)
Fixpoint match_len (ci : bool) (p : list atom) (s : string) : option nat :=
  match p with
  | [] => Some 0%nat
  | Lit c :: p' =>
      match s with
      | String a s' => if char_eqb ci a c then S <$> match_len ci p' s' else None
      | EmptyString => None
      end
  | AnyChar :: p' =>
      match s with
      | String a s' => if is_newline a then None else S <$> match_len ci p' s'
      | EmptyString => None
      end
  | LazyAny :: p' =>
      (fix lazy (s : string) : option nat :=
         match match_len ci p' s with
         | Some n => Some n
         | None =>
             match s with
             | String a s' => if is_newline a then None else S <$> lazy s'
             | EmptyString => None
             end
         end) s
  end.

Definition match_at (re : regex) (s : string) : option nat :=
  match_len (ignore_case re) (atoms re) s.

(** [re.search(pattern, s) is not None], polars' [str.contains(pattern)] *)
Fixpoint search (re : regex) (s : string) : bool :=
  match match_at re s with
  | Some _ => true
  | None =>
      match s with
      | String _ s' => search re s'
      | EmptyString => false
      end
  end.

(** [re.sub(pattern, empty, s)]: the matches are cut out from left to right;
    [skip] counts the characters of the current match still to drop.  An
    empty match removes nothing. *)
Fixpoint sub_empty_from (re : regex) (skip : nat) (s : string) : string :=
  match s with
  | EmptyString => EmptyString
  | String c s' =>
      match skip with
      | S k => sub_empty_from re k s'
      | O =>
          match match_at re s with
          | Some (S n) => sub_empty_from re n s'
          | _ => String c (sub_empty_from re 0 s')
          end
      end
  end.

Definition sub_empty (re : regex) (s : string) : string := sub_empty_from re 0 s.

End Regex.

(** ** Crossing between polars and pandas/numpy *)

Module Bridge.

(** [series.to_pandas()] followed by the [.str] accessor: a column of
    strings and nulls becomes an object column; pandas refuses [.str] on any
    other column. *)
Fixpoint to_pandas (vs : list value) : result (list Pandas.cell) :=
  match vs with
  | [] => Return []
  | None :: vs' => cons Pandas.PyNone <$> to_pandas vs'
  | Some (DStr s) :: vs' => cons (Pandas.Str s) <$> to_pandas vs'
  | Some _ :: _ => Raise (AttributeError "str")
  end.

(** [series.astype(str).values] handed to [with_columns]: Python strings
    throughout, so a String column without nulls. *)
Definition str_values (cs : list Pandas.cell) : list value :=
  map (fun c => Some (DStr (Pandas.astype_str c))) cs.

(** [series.values] handed to [with_columns]: strings stay, anything that
    is not a string is read as null. *)
Definition object_values (cs : list Pandas.cell) : list value :=
  map (fun c => match c with Pandas.Str s => Some (DStr s) | _ => None end) cs.

End Bridge.

(** ** [_parse_columns] *)

(** [col == keyword] on an object column *)
Definition cell_is (keyword : string) (c : Pandas.cell) : bool :=
  match c with
  | Pandas.Str s => String.eqb s keyword
  | _ => false
  end.

(** [url_parts["protocol"] = None] and the four [.loc] assignments, for
    one row whose third piece is [c] *)
Definition protocol (c : Pandas.cell) : Pandas.cell :=
  let p := Pandas.PyNone in
  let p := if cell_is "tabledap" c then Pandas.Str "tabledap" else p in
  let p := if cell_is "griddap" c then Pandas.Str "griddap" else p in
  let p := if cell_is "files" c then Pandas.Str "files" else p in
  let p := if cell_is "info" c then Pandas.Str "info" else p in
  p.

(** [pl.when(pl.col(a).is_null()).then(None).otherwise(pl.col(b))] *)
Definition when_null_then_null (a b : list value) : list value :=
  zip_with (fun x y => match x with None => None | Some _ => y end) a b.

Definition _parse_columns (E : Engine) (df : DataFrame) : result DataFrame :=
  df ← Polars.fill_null "country" (DStr "unknown") df;
  url ← Polars.get_column "url" df ≫= Bridge.to_pandas;
  let df_parts :=
    Pandas.str_split_expand "?" (map Pandas.str_remove_spaces url) in
  parts0 ← Pandas.getitem df_parts 0;
  base ← Pandas.getitem (Pandas.str_split_expand "." parts0) 0;
  df ← Polars.with_column "base_url" (Bridge.str_values base) df;
  base_url ← Polars.get_column "base_url" df ≫= Bridge.to_pandas;
  let url_parts := Pandas.str_split_expand "/" base_url in
  third ← Pandas.getitem url_parts 2;
  let protocol_col := map protocol third in
  dataset_id_col ← Pandas.getitem url_parts 3;
  df ← Polars.with_column "erddap_request_type" (Bridge.str_values protocol_col) df;
  df ← Polars.with_column "dataset_id" (Bridge.str_values dataset_id_col) df;
  request_type ← Polars.get_column "erddap_request_type" df;
  dataset_id ← Polars.get_column "dataset_id" df;
  df ← Polars.with_column "dataset_id" (when_null_then_null request_type dataset_id) df;
  parts1 ← Pandas.getitem df_parts 1;
  df ← Polars.with_column "request_kwargs" (Bridge.str_values parts1) df;
  parts0' ← Pandas.getitem df_parts 0;
  suffix ← Pandas.getitem (Pandas.str_split_expand "." parts0') 1;
  df ← Polars.with_column "file_type" (Bridge.str_values suffix) df;
  ua ← Polars.get_column "user-agent" df ≫= Bridge.to_pandas;
  ua0 ← Pandas.getitem (Pandas.str_split_expand " " ua) 0;
  ua_base ← Pandas.getitem (Pandas.str_split_expand "/" ua0) 0;
  df ← Polars.with_column "user_agent_base" (Bridge.object_values ua_base) df;
  ip ← Polars.get_column "ip" df ≫= Bridge.to_pandas;
  let ip_grid := Pandas.str_split_expand "." ip in
  ip0 ← Pandas.getitem ip_grid 0;
  ip1 ← Pandas.getitem ip_grid 1;
  let dot := map (fun _ => Pandas.Str ".") ip0 in
  let ip_group := zip_with Pandas.add (zip_with Pandas.add ip0 dot) ip1 in
  ip2 ← Pandas.getitem ip_grid 2;
  let ip_subnet := zip_with Pandas.add (zip_with Pandas.add ip_group dot) ip2 in
  df ← Polars.with_column "ip_group" (Bridge.object_values ip_group) df;
  df ← Polars.with_column "ip_subnet" (Bridge.object_values ip_subnet) df;
  Frame.sort E "datetime" df.

(** *** The row-wise reading of [_parse_columns]

    Every derived column is computed cell by cell from the same row, so
    that, when no column lookup fails, the function maps [derive_row] over
    the rows and sorts the result. *)

Definition cell_of_value (v : value) : Pandas.cell :=
  match v with
  | Some (DStr s) => Pandas.Str s
  | _ => Pandas.PyNone
  end.

Definition text (c : Pandas.cell) : value := Some (DStr (Pandas.astype_str c)).

Definition object_value (c : Pandas.cell) : value :=
  match c with Pandas.Str s => Some (DStr s) | _ => None end.

Definition derive_row (r0 : row) : row :=
  let r1 := Polars.set_cell "country"
              (Some (default (DStr "unknown") (Polars.cell "country" r0))) r0 in
  let parts :=
    Pandas.split_cell "?"
      (Pandas.str_remove_spaces (cell_of_value (Polars.cell "url" r1))) in
  let dotted := Pandas.split_cell "." (Pandas.pieces_get 0 parts) in
  let r2 := Polars.set_cell "base_url" (text (Pandas.pieces_get 0 dotted)) r1 in
  let url_parts :=
    Pandas.split_cell "/" (cell_of_value (Polars.cell "base_url" r2)) in
  let r3 := Polars.set_cell "erddap_request_type"
              (text (protocol (Pandas.pieces_get 2 url_parts))) r2 in
  let r4 := Polars.set_cell "dataset_id" (text (Pandas.pieces_get 3 url_parts)) r3 in
  let r5 := Polars.set_cell "dataset_id"
              (match Polars.cell "erddap_request_type" r4 with
               | None => None
               | Some _ => Polars.cell "dataset_id" r4
               end) r4 in
  let r6 := Polars.set_cell "request_kwargs" (text (Pandas.pieces_get 1 parts)) r5 in
  let r7 := Polars.set_cell "file_type" (text (Pandas.pieces_get 1 dotted)) r6 in
  let ua0 :=
    Pandas.pieces_get 0
      (Pandas.split_cell " " (cell_of_value (Polars.cell "user-agent" r7))) in
  let r8 := Polars.set_cell "user_agent_base"
              (object_value (Pandas.pieces_get 0 (Pandas.split_cell "/" ua0))) r7 in
  let ip_grid := Pandas.split_cell "." (cell_of_value (Polars.cell "ip" r8)) in
  let ip_group :=
    Pandas.add (Pandas.add (Pandas.pieces_get 0 ip_grid) (Pandas.Str "."))
               (Pandas.pieces_get 1 ip_grid) in
  let ip_subnet :=
    Pandas.add (Pandas.add ip_group (Pandas.Str ".")) (Pandas.pieces_get 2 ip_grid) in
  let r9 := Polars.set_cell "ip_group" (object_value ip_group) r8 in
  Polars.set_cell "ip_subnet" (object_value ip_subnet) r9.

(** ** The [ErddapLogParser] instance

    The attributes of an instance.  [unfiltered_df], [location] and
    [anonymized] are not set by [__init__]; reading one before the method
    that sets it has run raises [AttributeError]. *)

Record ErddapLogParser : Type := mkParser {
  df : DataFrame;
  ip : DataFrame;
  df_xml : DataFrame;
  verbose : bool;
  original_total_requests : nat;
  filter_name : option string;
  unfiltered_df : option DataFrame;
  location : option DataFrame;
  anonymized : option DataFrame
}.

(** [ErddapLogParser()] *)
Definition init : ErddapLogParser :=
  mkParser Polars.empty_frame Polars.empty_frame Polars.empty_frame false 0 None
           None None None.

Definition with_df (d : DataFrame) (s : ErddapLogParser) : ErddapLogParser :=
  mkParser d (ip s) (df_xml s) (verbose s) (original_total_requests s)
           (filter_name s) (unfiltered_df s) (location s) (anonymized s).

Definition with_ip (d : DataFrame) (s : ErddapLogParser) : ErddapLogParser :=
  mkParser (df s) d (df_xml s) (verbose s) (original_total_requests s)
           (filter_name s) (unfiltered_df s) (location s) (anonymized s).

Definition with_filter_name (n : string) (s : ErddapLogParser) : ErddapLogParser :=
  mkParser (df s) (ip s) (df_xml s) (verbose s) (original_total_requests s)
           (Some n) (unfiltered_df s) (location s) (anonymized s).

Definition with_checkpoint (n : nat) (d : DataFrame) (s : ErddapLogParser)
  : ErddapLogParser :=
  mkParser (df s) (ip s) (df_xml s) (verbose s) n
           (filter_name s) (Some d) (location s) (anonymized s).

Definition with_anonymized (d : DataFrame) (s : ErddapLogParser) : ErddapLogParser :=
  mkParser (df s) (ip s) (df_xml s) (verbose s) (original_total_requests s)
           (filter_name s) (unfiltered_df s) (location s) (Some d).

(** A method runs on the instance and leaves it in a new state, whether it
    returns or raises: what it assigned before raising stays assigned. *)
Definition method (A : Type) : Type :=
  ErddapLogParser -> result A * ErddapLogParser.

Definition m_ret {A} (a : A) : method A := fun s => (Return a, s).

Definition m_bind {A B} (m : method A) (f : A -> method B) : method B :=
  fun s =>
    match m s with
    | (Return a, s') => f a s'
    | (Raise e, s') => (Raise e, s')
    end.

#[export] Instance method_ret : MRet method := fun A a => m_ret a.
#[export] Instance method_bind : MBind method := fun A B f m => m_bind m f.

(** reading an attribute, assigning one, raising, and calling a function
    that may raise *)
Definition attr {A} (f : ErddapLogParser -> A) : method A :=
  fun s => (Return (f s), s).

Definition assign (f : ErddapLogParser -> ErddapLogParser) : method unit :=
  fun s => (Return tt, f s).

Definition raise {A} (e : exn) : method A := fun s => (Raise e, s).

Definition call {A} (r : result A) : method A := fun s => (r, s).

Definition pass : method unit := m_ret tt.

(** [for x in xs: body(x)] *)
Fixpoint for_each {A} (xs : list A) (body : A -> method unit) : method unit :=
  match xs with
  | [] => pass
  | x :: xs' => body x ;; for_each xs' body
  end.

(** *** Checkpoints *)

(** [_update_original_total_requests]: [copy(self.df)] is a new handle on
    the same immutable frame, and no method changes a frame in place. *)
Definition _update_original_total_requests : method unit :=
  d ← attr df;
  assign (with_checkpoint (Polars.height d) d).

(** [subset_df(rows)]: [int(a / b)] truncates the quotient. *)
Definition subset_df (nrows : Z) : method unit :=
  d ← attr df;
  (if (nrows =? 0)%Z then raise ZeroDivisionError else pass);;
  let stride := Z.quot (Z.of_nat (Polars.height d)) nrows in
  d' ← call (Polars.gather_every stride d);
  assign (with_df d');;
  _update_original_total_requests.

(** [load_apache_logs] and [load_nginx_logs]; [parsed] is what
    [_load_apache_logs] ([_load_nginx_logs]) yields for the directory: the
    frame of the parsed lines, or [ValueError] when no file matches. *)
Definition load_logs (E : Engine) (parsed : result DataFrame) : method unit :=
  batch ← call parsed;
  d ← attr df;
  df_combi ← call (Polars.concat_vertical d batch);
  df_combi ← call (Frame.sort E "datetime" df_combi);
  assign (with_df (Frame.unique E df_combi));;
  _update_original_total_requests.

Definition load_apache_logs (E : Engine) (parsed : result DataFrame) : method unit :=
  load_logs E parsed.

Definition load_nginx_logs (E : Engine) (parsed : result DataFrame) : method unit :=
  load_logs E parsed.

(** [undo_filter] *)
Definition undo_filter : method unit :=
  u ← attr unfiltered_df;
  match u with
  | None => raise (AttributeError "unfiltered_df")
  | Some d => assign (with_df d);; _update_original_total_requests
  end.

(** [parse_columns] *)
Definition parse_columns (E : Engine) : method unit :=
  d ← attr df;
  d ← call (_parse_columns E d);
  assign (with_df d);;
  x ← attr df_xml;
  if Polars.is_empty x then pass
  else
    d ← attr df;
    j ← call (Frame.join_left d x "dataset_id" "dataset_id" ≫= Frame.sort E "datetime");
    assign (with_df j).

(** ** [collections.Counter]

    [Counter(xs)] keeps its keys in first-seen order; [most_common()] sorts
    the items by count, largest first, and the sort is stable. *)

Module Counter.
Section Counter.
Context {A : Type} `{EqDecision A}.

Fixpoint bump (x : A) (c : list (A * nat)) : list (A * nat) :=
  match c with
  | [] => [(x, 1%nat)]
  | (y, n) :: c' => if decide (x = y) then (y, S n) :: c' else (y, n) :: bump x c'
  end.

(** [Counter(xs)]: the elements are counted from left to right *)
Definition count (xs : list A) : list (A * nat) :=
  foldl (fun c x => bump x c) [] xs.

Fixpoint insert_desc (p : A * nat) (l : list (A * nat)) : list (A * nat) :=
  match l with
  | [] => [p]
  | q :: l' => if (snd q <=? snd p)%nat then p :: l else q :: insert_desc p l'
  end.

(** [sorted(items, key=itemgetter(1), reverse=True)] *)
Definition sort_desc (l : list (A * nat)) : list (A * nat) :=
  foldr insert_desc [] l.

(** [Counter(xs).most_common()] *)
Definition most_common (xs : list A) : list (A * nat) := sort_desc (count xs).

End Counter.
End Counter.

(** ** The filters *)

(** [pl.col(c).str.contains(pattern)] *)
Definition str_contains (pattern c : string) (d : DataFrame)
  : result (list (option bool)) :=
  vs ← Polars.get_column c d ≫= Polars.as_strings;
  Return (map (option_map (Regex.search (Regex.compile pattern))) vs).

(** [~pl.col(c).str.contains(pattern)] *)
Definition str_lacks (pattern c : string) (d : DataFrame)
  : result (list (option bool)) :=
  Polars.mask_not <$> str_contains pattern c d.

(** [self.df = self.df.filter(mask)] *)
Definition filter_df (mask : DataFrame -> result (list (option bool))) : method unit :=
  d ← attr df;
  m ← call (mask d);
  assign (with_df (Polars.df_filter m d)).

(** the decorator [_print_filter_stats]: the wrapped method is called
    without arguments, so that it runs on its defaults; with [verbose] the
    report divides by [original_total_requests]. *)
Definition _print_filter_stats (call_wrap : method unit) : method unit :=
  d ← attr df;
  let len_before := Polars.height d in
  call_wrap;;
  v ← attr verbose;
  if (v : bool) then
    o ← attr original_total_requests;
    if (o =? 0)%nat then raise ZeroDivisionError else pass
  else pass.

Definition filter_non_erddap : method unit :=
  _print_filter_stats (
    assign (with_filter_name "non erddap");;
    filter_df (str_contains "erddap" "url")).

Definition default_organisations : list string := ["Google"; "Crawlers"; "SEMrush"].

Definition filter_organisations_body (organisations : list string) : method unit :=
  d ← attr df;
  (if Polars.has_column "org" d then pass else raise ValueError);;
  d ← call (Polars.fill_null "org" (DStr "unknown") d);
  assign (with_df d);;
  d ← attr df;
  d ← call (Polars.fill_null "isp" (DStr "unknown") d);
  assign (with_df d);;
  for_each organisations (fun block_org =>
    filter_df (str_lacks ("(?i)" +:+ block_org) "org");;
    filter_df (str_lacks ("(?i)" +:+ block_org) "isp"));;
  assign (with_filter_name "organisations").

Definition filter_organisations : method unit :=
  _print_filter_stats (filter_organisations_body default_organisations).

(** [is_bot] stands for [user_agents.parse(ua).is_bot]. *)
Definition filter_user_agents (is_bot : string -> bool) : method unit :=
  _print_filter_stats (
    filter_df (fun d =>
      vs ← Polars.get_column "user-agent" d ≫= Polars.as_strings;
      Return (Polars.mask_not (map (option_map is_bot) vs)));;
    assign (with_filter_name "user agents")).

Definition default_locales : list string := ["zh-CN"; "zh-TW"; "ZH"].

Definition filter_locales_body (locales : list string) : method unit :=
  for_each locales (fun locale => filter_df (str_lacks locale "url"));;
  assign (with_filter_name "locales").

Definition filter_locales : method unit :=
  _print_filter_stats (filter_locales_body default_locales).

Definition default_spam_strings : list string :=
  [".env"; "env."; ".php"; ".git"; "robots.txt"; "phpinfo"; "/config"; "aws"; ".xml"].

(** [bad_pages]: every page of [page_counts] is appended once per phrase
    it holds; [phrase in page] raises on a page that is not a string. *)
Definition page_hits (spam_strings : list string) (page : value)
  : result (list string) :=
  match spam_strings, page with
  | [], _ => Return []
  | _, Some (DStr p) =>
      Return (flat_map (fun phrase =>
                if PyStr.contains phrase p then [p] else []) spam_strings)
  | _, _ => Raise TypeError
  end.

Fixpoint bad_pages (spam_strings : list string) (pages : list (value * nat))
  : result (list string) :=
  match pages with
  | [] => Return []
  | (page, _) :: pages' =>
      hits ← page_hits spam_strings page;
      rest ← bad_pages spam_strings pages';
      Return (hits ++ rest)
  end.

(** [~pl.col(c).is_in(values)] *)
Definition not_is_in (values : list string) (c : string) (d : DataFrame)
  : result (list (option bool)) :=
  vs ← Polars.get_column c d ≫= Polars.as_strings;
  Return (Polars.mask_not (map (option_map (fun s => bool_decide (s ∈ values))) vs)).

Definition filter_spam_body (spam_strings : list string) : method unit :=
  d ← attr df;
  urls ← call (Polars.get_column "url" d);
  let page_counts := Counter.most_common urls in
  bad ← call (bad_pages spam_strings page_counts);
  filter_df (not_is_in bad "url");;
  assign (with_filter_name "spam").

Definition filter_spam : method unit :=
  _print_filter_stats (filter_spam_body default_spam_strings).

Definition filter_files : method unit :=
  _print_filter_stats (
    filter_df (str_lacks "/files" "url");;
    assign (with_filter_name "files")).

Definition default_strings : list string :=
  ["/version"; "favicon.ico"; ".js"; ".css"; "/erddap/images"].

Definition filter_common_strings_body (strings : list string) : method unit :=
  for_each strings (fun s => filter_df (str_lacks s "url"));;
  assign (with_filter_name "common strings").

Definition filter_common_strings : method unit :=
  _print_filter_stats (filter_common_strings_body default_strings).

(** the seven filters by name, and a sequence of filter calls in which a
    call that raises does not stop the caller from going on *)
Inductive filter_call : Type :=
  | NonErddap
  | Organisations
  | UserAgents
  | Locales
  | Spam
  | Files
  | CommonStrings.

Definition run_filter (is_bot : string -> bool) (f : filter_call) : method unit :=
  match f with
  | NonErddap => filter_non_erddap
  | Organisations => filter_organisations
  | UserAgents => filter_user_agents is_bot
  | Locales => filter_locales
  | Spam => filter_spam
  | Files => filter_files
  | CommonStrings => filter_common_strings
  end.

Definition run_filters (is_bot : string -> bool) (fs : list filter_call)
  (s : ErddapLogParser) : ErddapLogParser :=
  foldl (fun s f => snd (run_filter is_bot f s)) s fs.

(** the calls that set a checkpoint *)
Inductive checkpoint_call : Type :=
  | LoadApache (parsed : result DataFrame)
  | LoadNginx (parsed : result DataFrame)
  | Subset (nrows : Z).

Definition run_checkpoint (E : Engine) (c : checkpoint_call) : method unit :=
  match c with
  | LoadApache parsed => load_apache_logs E parsed
  | LoadNginx parsed => load_nginx_logs E parsed
  | Subset nrows => subset_df nrows
  end.

(** ** The outside world of [_get_ip_info]

    The csv files that exist, by path, each as the frame [pl.read_csv]
    gives for it; and the lookups sent to the IP service so far, in order.
    The service is a function of the number of lookups it has received and
    of the address asked for. *)

Record World : Type := mkWorld {
  csv_files : gmap string DataFrame;
  lookups : list value
}.

Inductive response : Type :=
  | ConnectionFailed
  | Http (status_code : Z) (json : option (list (string * datum))).

Definition service : Type := nat -> value -> response.

(** the frame [_get_ip_info] starts from when there is no cache file: one
    row of empty texts and zeros *)
Definition ip_columns : list string :=
  ["status"; "country"; "countryCode"; "region"; "regionName"; "city"; "zip";
   "lat"; "lon"; "timezone"; "isp"; "org"; "as"; "query"].

Definition blank_ip_row : row :=
  list_to_map
    (map (fun c => (c, if String.eqb c "lat" || String.eqb c "lon"
                       then DFloat 0 else DStr EmptyString)) ip_columns).

Definition blank_ip_frame : DataFrame := mkDataFrame ip_columns [blank_ip_row].

(** [pl.DataFrame(resp)] for a JSON object of scalars: one row *)
Definition frame_of_dict (resp : list (string * datum)) : DataFrame :=
  mkDataFrame (remove_dups (map fst resp)) [list_to_map resp].

(** the type of a column, read off its data *)
Definition kind (d : datum) : nat :=
  match d with
  | DStr _ => 0
  | DInt _ => 1
  | DFloat _ => 2
  | DDatetime _ => 3
  end.

Definition column_kinds (c : string) (d : DataFrame) : list nat :=
  omap (fun r => kind <$> Polars.cell c r) (rows d).

Definition same_types (a b : DataFrame) : bool :=
  forallb (fun c =>
    negb (Polars.has_column c b) ||
    forallb (fun k => forallb (Nat.eqb k) (column_kinds c b)) (column_kinds c a))
    (columns a).

(** [pl.concat((a, b), how="diagonal")], which refuses a column that has
    one type in [a] and another in [b] *)
Definition concat_diagonal (a b : DataFrame) : result DataFrame :=
  if same_types a b then Return (Polars.concat_diagonal a b)
  else Raise SchemaError.

Definition sent (ip : value) (w : World) : World :=
  mkWorld (csv_files w) (lookups w ++ [ip]).

(** the loop of [_get_ip_info] under [if download_new] *)
Fixpoint fetch_new (reply : service) (num_new_ips : Z)
  (ip_counts : list (value * nat)) (fetched_ips : Z) (df_ip : DataFrame)
  (w : World) : result DataFrame * World :=
  match ip_counts with
  | [] => (Return df_ip, w)
  | (ip, count) :: rest =>
      match Polars.get_column "query" df_ip with
      | Raise e => (Raise e, w)
      | Return known =>
          if bool_decide (ip ∈ known)
          then fetch_new reply num_new_ips rest fetched_ips df_ip w
          else if (num_new_ips <=? fetched_ips)%Z then (Return df_ip, w)
          else
            match reply (length (lookups w)) ip with
            | ConnectionFailed => (Raise RequestException, sent ip w)
            | Http status_code json =>
                let fetched_ips := (fetched_ips + 1)%Z in
                if (status_code =? 429)%Z then (Return df_ip, sent ip w)
                else
                  match json with
                  | None => (Raise ValueError, sent ip w)
                  | Some resp =>
                      match concat_diagonal df_ip (frame_of_dict resp) with
                      | Return d =>
                          fetch_new reply num_new_ips rest fetched_ips d (sent ip w)
                      | Raise SchemaError | Raise ShapeError =>
                          fetch_new reply num_new_ips rest fetched_ips df_ip (sent ip w)
                      | Raise e => (Raise e, sent ip w)
                      end
                  end
            end
      end
  end.

Definition _get_ip_info (reply : service) (d : DataFrame) (ip_info_csv : string)
  (download_new : bool) (num_new_ips : Z) (w : World) : result DataFrame * World :=
  match Polars.get_column "ip" d with
  | Raise e => (Raise e, w)
  | Return ips =>
      let ip_counts := Counter.most_common ips in
      let df_ip := default blank_ip_frame (csv_files w !! ip_info_csv) in
      let '(r, w) :=
        if download_new then fetch_new reply num_new_ips ip_counts 0 df_ip w
        else (Return df_ip, w) in
      match r with
      | Raise e => (Raise e, w)
      | Return df_ip =>
          (Return df_ip,
           mkWorld (<[ip_info_csv := df_ip]> (csv_files w)) (lookups w))
      end
  end.

(** [ErddapLogParser.get_ip_info] *)
Definition get_ip_info (E : Engine) (reply : service) (ip_info_csv : string)
  (download_new : bool) (num_ips : Z) (s : ErddapLogParser) (w : World)
  : result unit * ErddapLogParser * World :=
  if Polars.has_column "country" (df s) then (Return tt, s, w)
  else
    match _get_ip_info reply (df s) ip_info_csv download_new num_ips w with
    | (Raise e, w) => (Raise e, s, w)
    | (Return df_ip, w) =>
        let s := with_ip df_ip s in
        match Frame.join_left (df s) df_ip "ip" "query" ≫= Frame.sort E "datetime" with
        | Raise e => (Raise e, s, w)
        | Return d => (Return tt, with_df d s, w)
        end
    end.

(** ** Anonymisation *)

(** [df.with_row_index()] *)
Definition with_row_index (d : DataFrame) : DataFrame :=
  mkDataFrame ("index" :: columns d)
    (imap (fun i r => <["index" := DInt (Z.of_nat i)]> r) (rows d)).

(** [pl.DataFrame({c: values})] *)
Definition series_frame (c : string) (vs : list value) : DataFrame :=
  mkDataFrame [c] (map (fun v => Polars.set_cell c v ∅) vs).

(** [df.row(by_predicate=p, named=True)] *)
Definition row_by_predicate (p : row -> bool) (d : DataFrame) : result row :=
  match List.filter p (rows d) with
  | [] => Raise NoRowsReturnedError
  | [r] => Return r
  | _ => Raise TooManyRowsReturnedError
  end.

(** [pl.col(c).map_elements(f)]: nulls are passed over *)
Fixpoint map_elements (f : datum -> result value) (vs : list value)
  : result (list value) :=
  match vs with
  | [] => Return []
  | None :: vs' => cons None <$> map_elements f vs'
  | Some d :: vs' =>
      v ← f d;
      cons v <$> map_elements f vs'
  end.

Definition the_anonymized : method DataFrame :=
  a ← attr anonymized;
  match a with
  | Some d => m_ret d
  | None => raise (AttributeError "anonymized")
  end.

(** the lambda of [anonymize_ip] *)
Definition ip_index (unique_df : DataFrame) (ip : datum) : result value :=
  r ← row_by_predicate
         (fun r => bool_decide (Polars.cell "ip" r = Some ip)) unique_df;
  Return (Polars.cell "index" r).

Definition anonymize_ip (E : Engine) : method unit :=
  a ← the_anonymized;
  ips ← call (Polars.get_column "ip" a);
  let unique_df := with_row_index (series_frame "ip" (unique_values E ips)) in
  indices ← call (map_elements (ip_index unique_df) ips);
  a ← call (Polars.with_column "ip" indices a);
  assign (with_anonymized a).

(** the lambda of [anonymize_query] *)
Definition strip_email (url : string) : string :=
  Regex.sub_empty (Regex.compile "email=.*?&") url.

Definition anonymize_query : method unit :=
  a ← the_anonymized;
  urls ← call (Polars.get_column "url" a ≫= Polars.as_strings);
  a ← call (Polars.with_column "url"
              (map (fun u => DStr <$> (strip_email <$> u)) urls) a);
  assign (with_anonymized a).

(** *** Reading a run of [_get_ip_info] *)

(** the replies to the lookups [issued], the first of which is lookup
    number [n] of the world *)
Fixpoint responses (reply : service) (n : nat) (issued : list value)
  : list response :=
  match issued with
  | [] => []
  | ip :: rest => reply n ip :: responses reply (S n) rest
  end.

(** what one reply adds to the cache table: the row of a JSON answer that
    fits the table, nothing otherwise *)
Definition merged (df_ip : DataFrame) (r : response) : DataFrame :=
  match r with
  | Http status_code (Some resp) =>
      if (status_code =? 429)%Z then df_ip
      else match concat_diagonal df_ip (frame_of_dict resp) with
           | Return d => d
           | Raise _ => df_ip
           end
  | _ => df_ip
  end.

Definition rate_limited (r : response) : bool :=
  match r with
  | Http status_code _ => (status_code =? 429)%Z
  | ConnectionFailed => false
  end.

(** the number of requests of the table made from the address [v] *)
Definition frequency (d : DataFrame) (v : value) : nat :=
  length (List.filter (fun r => bool_decide (Polars.cell "ip" r = v)) (rows d)).

(** the cache table a call starts from *)
Definition cache_at_start (ip_info_csv : string) (w : World) : DataFrame :=
  default blank_ip_frame (csv_files w !! ip_info_csv).

(** the addresses the cache table holds *)
Definition cached (df_ip : DataFrame) : list value :=
  map (Polars.cell "query") (rows df_ip).

(** the addresses of the request table, one per request *)
Definition addresses (d : DataFrame) : list value :=
  map (Polars.cell "ip") (rows d).

(** the replies after which the loop sends nothing more: no connection,
    the rate limit, a body that is no JSON *)
Definition halts (r : response) : bool :=
  match r with
  | ConnectionFailed => true
  | Http status_code json => (status_code =? 429)%Z || negb (bool_decide (is_Some json))
  end.

(** the cache table as it stands when lookup number [i] of a run is sent:
    the cache at the start with what the replies to the earlier lookups of
    the run added *)
Definition cache_before (reply : service) (ip_info_csv : string) (w : World)
  (issued : list value) (i : nat) : DataFrame :=
  foldl merged (cache_at_start ip_info_csv w)
        (take i (responses reply (length (lookups w)) issued)).

(** ** [_load_apache_logs]

    [files] are the files the pattern matches, each as the entries
    [apachelogs] yields for its lines.  An entry gives the fields the loop
    reads; a field logged as a dash is [None]. *)

Record apache_entry : Type := mkApacheEntry {
  remote_host : string;
  request_time : Z;
  request_line : option string;
  header_user_agent : option string;
  final_status : option Z;
  entry_bytes_sent : option Z;
  header_referer : option string
}.

(** [entry.request_line.split(" ")[1]], with [IndexError] caught *)
Definition this_url (request_line : option string) : result string :=
  match request_line with
  | None => Raise (AttributeError "split")
  | Some line =>
      match PyStr.split " " line !! 1%nat with
      | Some u => Return u
      | None => Return EmptyString
      end
  end.

Definition apache_columns : list string :=
  ["ip"; "datetime"; "url"; "user-agent"; "status-code"; "bytes-sent"; "referer"].

Definition apache_row (e : apache_entry) (url : string) : row :=
  Polars.set_cell "referer" (DStr <$> header_referer e)
    (Polars.set_cell "bytes-sent" (DInt <$> entry_bytes_sent e)
       (Polars.set_cell "status-code" (DInt <$> final_status e)
          (Polars.set_cell "user-agent" (DStr <$> header_user_agent e)
             (<["url" := DStr url]>
                (<["datetime" := DDatetime (request_time e)]>
                   (<["ip" := DStr (remote_host e)]> ∅)))))).

(** the loop over the entries of all files *)
Fixpoint apache_rows (entries : list apache_entry) : result (list row) :=
  match entries with
  | [] => Return []
  | e :: rest =>
      url ← this_url (request_line e);
      rows ← apache_rows rest;
      Return (apache_row e url :: rows)
  end.

(** [_load_apache_logs]: without any entry the [datetime] column has no
    type, and polars refuses [.dt] on it. *)
Definition _load_apache_logs (files : list (list apache_entry)) : result DataFrame :=
  match files with
  | [] => Raise ValueError
  | _ =>
      rows ← apache_rows (concat files);
      match rows with
      | [] => Raise SchemaError
      | _ => Return (mkDataFrame apache_columns rows)
      end
  end.

(** ** [parse_datasets_xml]

    [children] are the elements under the root of the document, each as its
    attributes. *)

Definition xml_element := gmap string string.

Definition dataset_row (child : xml_element) (id : string) : row :=
  Polars.set_cell "dataset_type" (DStr <$> child !! "type")
    (<["dataset_id" := DStr id]> ∅).

Definition with_df_xml (d : DataFrame) (s : ErddapLogParser) : ErddapLogParser :=
  mkParser (df s) (ip s) d (verbose s) (original_total_requests s)
           (filter_name s) (unfiltered_df s) (location s) (anonymized s).

Definition parse_datasets_xml (children : list xml_element) : method unit :=
  assign (with_df_xml
    (mkDataFrame ["dataset_id"; "dataset_type"]
       (omap (fun child => dataset_row child <$> child !! "datasetID") children))).

(** ** Selecting, dropping and grouping columns *)

(** the cells of a row under the given columns *)
Definition project (cols : list string) (r : row) : row :=
  filter (fun kv => kv.1 ∈ cols) r.

(** [df.select(selector)] for a selector that picks columns by name *)
Definition select (pick : string -> bool) (d : DataFrame) : DataFrame :=
  let cols := List.filter pick (columns d) in
  mkDataFrame cols (map (project cols) (rows d)).

(** [df.drop(c)] *)
Definition drop_column (c : string) (d : DataFrame) : result DataFrame :=
  if Polars.has_column c d
  then Return (mkDataFrame (List.filter (fun x => negb (String.eqb x c)) (columns d))
                           (map (delete c) (rows d)))
  else Raise (ColumnNotFoundError c).

(** the number of rows of [l] equal to [k] *)
Definition group_size (l : list row) (k : row) : nat :=
  length (List.filter (fun r => bool_decide (r = k)) l).

Definition missing_column (keys : list string) (d : DataFrame) : option string :=
  head (List.filter (fun c => negb (Polars.has_column c d)) keys).

(** [df.group_by(keys).len()]: one row per distinct combination of the
    keys, nulls included, in an order polars does not promise *)
Definition group_by_len (E : Engine) (keys : list string) (d : DataFrame)
  : result DataFrame :=
  match missing_column keys d with
  | Some c => Raise (ColumnNotFoundError c)
  | None =>
      let keyed := map (project keys) (rows d) in
      Return (mkDataFrame (keys ++ ["len"])
        (map (fun k => <["len" := DInt (Z.of_nat (group_size keyed k))]> k)
             (unique_rows E keyed)))
  end.

(** ** The export *)

Definition with_location (d : DataFrame) (s : ErddapLogParser) : ErddapLogParser :=
  mkParser (df s) (ip s) (df_xml s) (verbose s) (original_total_requests s)
           (filter_name s) (unfiltered_df s) (Some d) (anonymized s).

Definition location_keys : list string := ["countryCode"; "regionName"; "city"].

(** [aggregate_location] *)
Definition aggregate_location (E : Engine) : method unit :=
  d ← attr df;
  l ← call (group_by_len E location_keys d);
  assign (with_location l).

(** what [user_agents.parse(ua)] gives: the families of the browser, the
    device and the operating system *)
Record families : Type := mkFamilies {
  browser_family : string;
  device_family : string;
  os_family : string
}.

(** [pl.col("user-agent").map_elements(f).alias(c)] added to the table *)
Definition add_family (f : string -> string) (c : string) (d : DataFrame)
  : result DataFrame :=
  uas ← Polars.get_column "user-agent" d ≫= Polars.as_strings;
  Polars.with_column c (map (fun u => DStr <$> (f <$> u)) uas) d.

(** [anonymize_user_agent] *)
Definition anonymize_user_agent (parse : string -> families) : method unit :=
  a ← the_anonymized;
  a ← call (add_family (fun ua => browser_family (parse ua)) "BrowserFamily" a);
  assign (with_anonymized a);;
  a ← the_anonymized;
  a ← call (add_family (fun ua => device_family (parse ua)) "DeviceFamily" a);
  assign (with_anonymized a);;
  a ← the_anonymized;
  a ← call (add_family (fun ua => os_family (parse ua)) "OS" a);
  assign (with_anonymized a);;
  a ← the_anonymized;
  a ← call (drop_column "user-agent" a);
  assign (with_anonymized a).

(** the names the pattern of [anonymize_requests] matches: an alternation
    of whole names *)
Definition shareable_columns : list string :=
  ["ip"; "datetime"; "status-code"; "bytes-sent"; "erddap_request_type";
   "dataset_type"; "dataset_id"; "file_type"; "url"; "user-agent"].

(** [anonymize_requests] *)
Definition anonymize_requests (E : Engine) (parse : string -> families)
  : method unit :=
  aggregate_location E;;
  d ← attr df;
  assign (with_anonymized
            (select (fun c => bool_decide (c ∈ shareable_columns)) d));;
  anonymize_user_agent parse;;
  anonymize_ip E;;
  anonymize_query.


(** ** The URL fields as the specification words them *)

Module Claimed.

(** the text before the first occurrence of [c] *)
Fixpoint before_first (c : ascii) (s : string) : string :=
  match s with
  | EmptyString => EmptyString
  | String a s' => if Ascii.eqb a c then EmptyString else String a (before_first c s')
  end.

(** the text after the last occurrence of [c], all of [s] when there is none *)
Fixpoint after_last (c : ascii) (s : string) : string :=
  match s with
  | EmptyString => EmptyString
  | String a s' =>
      if Ascii.eqb a c then after_last c s'
      else if PyStr.free_of c s' then s else after_last c s'
  end.

(** the URL without its spaces, up to the first question mark *)
Definition base_path (url : string) : string :=
  before_first "?" (PyStr.remove_char " " url).

(** the suffix after the last dot of the file-name component *)
Definition file_type (url : string) : string :=
  after_last "." (after_last "/" (base_path url)).

End Claimed.

(** ** The pseudonym of an address *)

(** the place of the first [x] in [l] *)
Fixpoint position {A} `{EqDecision A} (x : A) (l : list A) : nat :=
  match l with
  | [] => 0
  | y :: l' => if decide (x = y) then 0 else S (position x l')
  end.

(** what [anonymize_ip] puts in place of an address, given the distinct
    addresses in the order the engine returned them *)
Definition pseudonym (distinct : list value) (v : value) : value :=
  match v with
  | None => None
  | Some d => Some (DInt (Z.of_nat (position (Some d) distinct)))
  end.

(** ** Vocabulary of the properties *)

(** *** Filters and checkpoints *)

(** the attributes other than [df] and [filter_name] *)
Definition kept (s : ErddapLogParser) :=
  (ip s, df_xml s, verbose s, original_total_requests s, unfiltered_df s,
   location s, anonymized s).

Definition keeps {A} (m : method A) : Prop :=
  forall s, kept (snd (m s)) = kept s.

Definition checkpointed (s : ErddapLogParser) : Prop :=
  unfiltered_df s = Some (df s) /\
  original_total_requests s = Polars.height (df s).

Definition sets_checkpoint {A} (m : method A) : Prop :=
  forall s a s', m s = (Return a, s') -> checkpointed s'.

(** *** Enrichment runs *)

(** what the loop does, read off its result: the lookups it has sent, in
    the order of [ip_counts] and within the budget; the files it leaves
    alone; nothing sent after a rate-limit reply, which ends the loop with a
    table; and the table it returns *)
Definition loop_spec (reply : service) (budget : Z) (ips : list (value * nat))
  (fetched : Z) (df_ip : DataFrame) (w : World)
  (r : result DataFrame) (w' : World) : Prop :=
  exists issued,
    lookups w' = lookups w ++ issued /\
    csv_files w' = csv_files w /\
    sublist issued (map fst ips) /\
    (Z.of_nat (length issued) <= Z.max 0 (budget - fetched))%Z /\
    (forall i x, responses reply (length (lookups w)) issued !! i = Some x ->
                 rate_limited x = true ->
                 length issued = S i /\ exists d, r = Return d) /\
    (forall d, r = Return d ->
               d = foldl merged df_ip (responses reply (length (lookups w)) issued)).

(** *** Order of a table *)

(** the test for ascending order on a column *)
Fixpoint sortedb (c : string) (l : list row) : bool :=
  match l with
  | a :: (b :: _) as rest =>
      Polars.value_leb (Polars.cell c a) (Polars.cell c b) && sortedb c rest
  | _ => true
  end.

(** *** The table [anonymize_ip] looks addresses up in *)

Definition indexed (k : nat) (U : list value) : list row :=
  imap (fun i r => <["index" := DInt (Z.of_nat (k + i))]> r)
       (map (fun v => Polars.set_cell "ip" v ∅) U).

Definition has_ip (d : datum) (r : row) : bool :=
  bool_decide (Polars.cell "ip" r = Some d).

(** *** Email fragments *)


(** the number of characters up to and including the next ampersand *)
Fixpoint through_amp (s : string) : option nat :=
  match s with
  | EmptyString => None
  | String a s' => if Ascii.eqb a "&" then Some 1%nat else S <$> through_amp s'
  end.




(** ** Two engines

    The first keeps the order of its input wherever polars allows it to; the
    second returns the distinct rows in the opposite order.  Both meet the
    laws of [Engine]. *)

Module Reference.

(** a stable insertion sort on the key column *)
Fixpoint insert_row (c : string) (r : row) (l : list row) : list row :=
  match l with
  | [] => [r]
  | x :: l' =>
      if Polars.value_leb (Polars.cell c r) (Polars.cell c x)
      then r :: l
      else x :: insert_row c r l'
  end.

Definition isort (c : string) (l : list row) : list row :=
  foldr (insert_row c) [] l.

Lemma datum_leb_total (a b : datum) :
  Polars.datum_leb a b = false -> Polars.datum_leb b a = true.
Proof.
  destruct a, b; simpl; try (intros; lia).
  - intros H. destruct (String.leb_total s s0) as [E|E]; congruence.
  - intros H. apply Qle_bool_iff.
    destruct (Qlt_le_dec q0 q) as [L|L]; [by apply Qlt_le_weak|].
    assert (Qle_bool q q0 = true) by (by apply Qle_bool_iff).
    congruence.
Qed.

Lemma value_leb_total (a b : value) :
  Polars.value_leb a b = false -> Polars.value_leb b a = true.
Proof.
  destruct a as [x|], b as [y|]; simpl; try done.
  apply datum_leb_total.
Qed.

Lemma insert_row_perm c r l : Permutation (insert_row c r l) (r :: l).
Proof.
  induction l as [|x l IH]; simpl; [done|].
  destruct (Polars.value_leb _ _); [done|].
  rewrite IH. apply perm_swap.
Qed.

Lemma isort_perm c l : Permutation (isort c l) l.
Proof.
  induction l as [|x l IH]; simpl; [done|].
  rewrite insert_row_perm. by constructor.
Qed.

Lemma insert_row_hd c r l a :
  Polars.row_le c a r -> HdRel (Polars.row_le c) a l ->
  HdRel (Polars.row_le c) a (insert_row c r l).
Proof.
  intros Har Hl. destruct l as [|x l]; simpl; [by constructor|].
  destruct (Polars.value_leb _ _); constructor; [done|].
  by inversion Hl.
Qed.

Lemma insert_row_sorted c r l :
  Sorted (Polars.row_le c) l -> Sorted (Polars.row_le c) (insert_row c r l).
Proof.
  induction 1 as [|x l Hs IH Hhd]; simpl; [repeat constructor|].
  destruct (Polars.value_leb _ _) eqn:E.
  - constructor; [by constructor|]. by constructor.
  - constructor; [done|].
    apply insert_row_hd; [|done].
    by apply value_leb_total.
Qed.

Lemma isort_sorted c l : Sorted (Polars.row_le c) (isort c l).
Proof.
  induction l as [|x l IH]; simpl; [constructor|].
  by apply insert_row_sorted.
Qed.

(** the engine that keeps the first-seen order wherever it may *)
Definition engine : Engine :=
  mkEngine isort isort_perm isort_sorted
           remove_dups NoDup_remove_dups (fun l r => elem_of_remove_dups l r)
           remove_dups NoDup_remove_dups (fun l v => elem_of_remove_dups l v).

(** an engine whose [unique] hands the distinct rows back in the opposite
    order, as a hash-partitioned implementation may *)
Lemma reverse_dups_NoDup {A} `{EqDecision A} (l : list A) :
  NoDup (reverse (remove_dups l)).
Proof. rewrite reverse_Permutation. apply NoDup_remove_dups. Qed.

Lemma reverse_dups_elem {A} `{EqDecision A} (l : list A) (x : A) :
  x ∈ reverse (remove_dups l) <-> x ∈ l.
Proof. by rewrite elem_of_reverse, elem_of_remove_dups. Qed.

Definition scattering_engine : Engine :=
  mkEngine isort isort_perm isort_sorted
           (fun l => reverse (remove_dups l))
           reverse_dups_NoDup reverse_dups_elem
           (fun l => reverse (remove_dups l))
           reverse_dups_NoDup reverse_dups_elem.

End Reference.

(** ** Sample data *)

Module Demo.

Definition request (ip : string) (t : Z) (url : string) : row :=
  list_to_map
    [("ip", DStr ip); ("datetime", DDatetime t); ("url", DStr url);
     ("user-agent", DStr "Mozilla/5.0 (X11; Linux x86_64)");
     ("status-code", DInt 200); ("bytes-sent", DInt 512);
     ("referer", DStr "-")].

Definition log_columns : list string :=
  ["ip"; "datetime"; "url"; "user-agent"; "status-code"; "bytes-sent"; "referer"].

Definition apache_batch : DataFrame :=
  mkDataFrame log_columns
    [request "10.0.0.1" 5 "/erddap/tabledap/ds.csv?time";
     request "10.0.0.2" 3 "/erddap/index.html";
     request "10.0.0.1" 7 "/erddap/griddap/sst.nc"].

Definition nginx_batch : DataFrame :=
  mkDataFrame log_columns
    [request "10.0.0.1" 5 "/erddap/tabledap/ds.csv?time";
     request "10.0.0.9" 4 "/erddap/.env"].

Definition no_bots : string -> bool := fun _ => false.

Definition loaded : ErddapLogParser :=
  snd (load_apache_logs Reference.engine (Return apache_batch) init).

End Demo.


Module DemoUrls.

Definition enriched (url : string) : row :=
  <["country" := DStr "Norway"]> (Demo.request "10.0.0.1" 5 url).

(** a second request whose URL has a query string, a dot and four path
    pieces, so that every column [_parse_columns] selects exists *)
Definition companion : row :=
  <["country" := DStr "Norway"]>
    (Demo.request "10.0.0.2" 9 "/erddap/tabledap/ds.csv?time").

Definition table (url : string) : DataFrame :=
  mkDataFrame (Demo.log_columns ++ ["country"]) [enriched url; companion].

(** a search page: its third path segment is no protocol keyword *)
Definition search_page : string := "/erddap/search/index.html?page=1".

(** a file whose name holds two dots *)
Definition dated_file : string := "/erddap/files/ds/data.2020.nc".

(** a file under a directory whose name holds a dot *)
Definition versioned_dir : string := "/erddap/files/ds_v1.2/data.nc".

Definition parsed (E : Engine) (url : string) : DataFrame :=
  match _parse_columns E (table url) with
  | Return d => d
  | Raise _ => Polars.empty_frame
  end.

Definition first_row (d : DataFrame) : row := default ∅ (head (rows d)).

End DemoUrls.

Module DemoNet.

(** three addresses: one seen three times, one twice, one once *)
Definition requests : DataFrame :=
  mkDataFrame Demo.log_columns
    [Demo.request "10.0.0.2" 1 "/erddap/index.html";
     Demo.request "10.0.0.1" 2 "/erddap/tabledap/ds.csv?time";
     Demo.request "10.0.0.3" 3 "/erddap/info/ds/index.html";
     Demo.request "10.0.0.1" 4 "/erddap/griddap/sst.nc";
     Demo.request "10.0.0.2" 5 "/erddap/index.html";
     Demo.request "10.0.0.1" 6 "/erddap/tabledap/ds.csv?depth"].

Definition answer (ip : value) : list (string * datum) :=
  [("status", DStr "success"); ("country", DStr "Norway");
   ("countryCode", DStr "NO"); ("org", DStr "Uninett");
   ("isp", DStr "Uninett"); ("query", default (DStr EmptyString) ip)].

(** a service that answers every lookup *)
Definition generous : service := fun _ ip => Http 200 (Some (answer ip)).

(** a service that answers the first lookup and then signals the rate limit *)
Definition strict : service :=
  fun n ip => if (n =? 0)%nat then Http 200 (Some (answer ip)) else Http 429 None.

Definition offline : World := mkWorld ∅ [].

Definition enriched : ErddapLogParser :=
  with_df (mkDataFrame (Demo.log_columns ++ ["country"])
             [DemoUrls.enriched DemoUrls.search_page]) init.

End DemoNet.

(** the two sample batches merged, and an instance ready for export *)
Definition merged_tables (E : Engine) : ErddapLogParser :=
  snd (load_nginx_logs E (Return Demo.nginx_batch)
         (snd (load_apache_logs E (Return Demo.apache_batch) init))).

Definition exported : ErddapLogParser :=
  with_anonymized DemoNet.requests (with_df DemoNet.requests init).

(** * Properties *)

(** ** What a filter leaves alone *)

Lemma keeps_ret {A} (a : A) : keeps (m_ret a).
Proof. by intros s. Qed.

Lemma keeps_attr {A} (f : ErddapLogParser -> A) : keeps (attr f).
Proof. by intros s. Qed.

Lemma keeps_raise {A} (e : exn) : keeps (@raise A e).
Proof. by intros s. Qed.

Lemma keeps_call {A} (r : result A) : keeps (call r).
Proof. by intros s. Qed.

Lemma keeps_pass : keeps pass.
Proof. by intros s. Qed.

Lemma keeps_with_df d : keeps (assign (with_df d)).
Proof. by intros s. Qed.

Lemma keeps_with_filter_name n : keeps (assign (with_filter_name n)).
Proof. by intros s. Qed.

Lemma keeps_bind {A B} (m : method A) (f : A -> method B) :
  keeps m -> (forall a, keeps (f a)) -> keeps (m ≫= f).
Proof.
  intros Hm Hf s. unfold mbind, method_bind, m_bind.
  specialize (Hm s). destruct (m s) as [[a|e] s']; simpl in *; [|done].
  by rewrite Hf.
Qed.

Lemma keeps_if {A} (b : bool) (m1 m2 : method A) :
  keeps m1 -> keeps m2 -> keeps (if b then m1 else m2).
Proof. by destruct b. Qed.

Lemma keeps_for_each {A} (xs : list A) (body : A -> method unit) :
  (forall x, keeps (body x)) -> keeps (for_each xs body).
Proof.
  intros Hb. induction xs as [|x xs IH]; simpl.
  - apply keeps_pass.
  - apply keeps_bind; [apply Hb|]. by intros _.
Qed.

Create HintDb keeps.
#[export] Hint Resolve keeps_ret keeps_attr keeps_raise keeps_call keeps_pass
  keeps_with_df keeps_with_filter_name keeps_if keeps_for_each : keeps.

Ltac keeps_tac :=
  repeat first
    [ apply keeps_bind; [|intros ?]
    | apply keeps_for_each; intros ?
    | apply keeps_if
    | progress auto with keeps ].

Lemma keeps_filter_df mask : keeps (filter_df mask).
Proof. unfold filter_df. keeps_tac. Qed.

#[export] Hint Resolve keeps_filter_df : keeps.

Lemma keeps_print_filter_stats (call_wrap : method unit) :
  keeps call_wrap -> keeps (_print_filter_stats call_wrap).
Proof. intros H. unfold _print_filter_stats. keeps_tac. Qed.

Lemma keeps_run_filter is_bot f : keeps (run_filter is_bot f).
Proof.
  destruct f; simpl; apply keeps_print_filter_stats;
    unfold filter_organisations_body, filter_locales_body, filter_spam_body,
      filter_common_strings_body;
    keeps_tac.
Qed.

Lemma keeps_run_filters is_bot fs s : kept (run_filters is_bot fs s) = kept s.
Proof.
  revert s. induction fs as [|f fs IH]; intros s; simpl; [done|].
  unfold run_filters in *. simpl. rewrite IH. apply keeps_run_filter.
Qed.

(** C9: a filter call, whichever of the seven it is and whether it returns
    or raises, leaves the checkpoint snapshot [unfiltered_df], the count
    [original_total_requests], the IP table [ip] and the dataset registry
    [df_xml] as they were; only [df] and [filter_name] can change. *)
Theorem filter_keeps_checkpoint_and_tables
  (is_bot : string -> bool) (f : filter_call) (s : ErddapLogParser) :
  unfiltered_df (snd (run_filter is_bot f s)) = unfiltered_df s /\
  original_total_requests (snd (run_filter is_bot f s)) = original_total_requests s /\
  ip (snd (run_filter is_bot f s)) = ip s /\
  df_xml (snd (run_filter is_bot f s)) = df_xml s.
Proof.
  pose proof (keeps_run_filter is_bot f s) as H.
  unfold kept in H. by inversion H.
Qed.

(** ** Checkpoints and undo *)

Lemma sets_checkpoint_update : sets_checkpoint _update_original_total_requests.
Proof. intros s a s' H. inversion H. by split. Qed.

Lemma sets_checkpoint_bind {A B} (m : method A) (f : A -> method B) :
  (forall a, sets_checkpoint (f a)) -> sets_checkpoint (m ≫= f).
Proof.
  intros Hf s b s'. unfold mbind, method_bind, m_bind.
  destruct (m s) as [[a|e] s1]; [|discriminate]. apply Hf.
Qed.

Lemma sets_checkpoint_run E c : sets_checkpoint (run_checkpoint E c).
Proof.
  destruct c; simpl;
    unfold load_apache_logs, load_nginx_logs, load_logs, subset_df;
    repeat first [ apply sets_checkpoint_update
                 | apply sets_checkpoint_bind; intros ? ].
Qed.

Lemma undo_filter_checkpointed s d :
  unfiltered_df s = Some d ->
  undo_filter s = (Return tt, with_checkpoint (Polars.height d) d (with_df d s)).
Proof.
  intros H. unfold undo_filter, mbind, method_bind, m_bind, attr. simpl.
  by rewrite H.
Qed.

(** C3: after a load or a subset has returned, any sequence of filter calls
    followed by [undo_filter] gives back, row for row, the table of that
    checkpoint, whatever the filters were and however many: the revert goes
    to the checkpoint in one step. *)
Theorem undo_filter_restores_checkpoint
  (E : Engine) (is_bot : string -> bool) (c : checkpoint_call)
  (fs : list filter_call) (s0 s1 : ErddapLogParser) :
  run_checkpoint E c s0 = (Return tt, s1) ->
  fst (undo_filter (run_filters is_bot fs s1)) = Return tt /\
  df (snd (undo_filter (run_filters is_bot fs s1))) = df s1 /\
  unfiltered_df (snd (undo_filter (run_filters is_bot fs s1))) = Some (df s1) /\
  original_total_requests (snd (undo_filter (run_filters is_bot fs s1)))
    = Polars.height (df s1).
Proof.
  intros Hc. apply sets_checkpoint_run in Hc as [Hu _].
  pose proof (keeps_run_filters is_bot fs s1) as Hk.
  unfold kept in Hk.
  assert (unfiltered_df (run_filters is_bot fs s1) = Some (df s1)) as Hu'
    by (inversion Hk; congruence).
  by rewrite (undo_filter_checkpointed _ (df s1) Hu').
Qed.

Lemma undo_filter_restores_checkpoint_witness :
  run_checkpoint Reference.engine (LoadNginx (Return Demo.nginx_batch)) Demo.loaded
    = (Return tt,
       snd (run_checkpoint Reference.engine (LoadNginx (Return Demo.nginx_batch))
              Demo.loaded)) /\
  df (snd (undo_filter
             (run_filters Demo.no_bots [Spam; NonErddap; CommonStrings]
                (snd (run_checkpoint Reference.engine
                        (LoadNginx (Return Demo.nginx_batch)) Demo.loaded)))))
    = df (snd (run_checkpoint Reference.engine
                 (LoadNginx (Return Demo.nginx_batch)) Demo.loaded)).
Proof.
  split; [vm_compute; reflexivity|].
  apply (undo_filter_restores_checkpoint Reference.engine Demo.no_bots
           (LoadNginx (Return Demo.nginx_batch)) [Spam; NonErddap; CommonStrings]
           Demo.loaded).
  vm_compute; reflexivity.
Defined.

(** ** [_parse_columns] row by row *)

Lemma zip_with_map_map {A B C D} (f : B -> C -> D) (g : A -> B) (h : A -> C) (l : list A) :
  zip_with f (map g l) (map h l) = map (fun x => f (g x) (h x)) l.
Proof. induction l as [|x l IH]; simpl; [done|]. by rewrite IH. Qed.

Lemma bind_Return {A B} (m : result A) (f : A -> result B) (b : B) :
  m ≫= f = Return b -> exists a, m = Return a /\ f a = Return b.
Proof. destruct m as [a|e]; simpl; [eauto|discriminate]. Qed.

Lemma to_pandas_Return vs cs :
  Bridge.to_pandas vs = Return cs -> cs = map cell_of_value vs.
Proof.
  revert cs. induction vs as [|v vs IH]; simpl; intros cs H.
  - by inversion H.
  - destruct v as [[s|z|q|t]|]; try discriminate;
      destruct (Bridge.to_pandas vs) as [cs'|]; simpl in H; try discriminate;
      inversion H; subst; f_equal; by apply IH.
Qed.

Lemma getitem_Return f k cs :
  Pandas.getitem f k = Return cs -> cs = map (Pandas.pieces_get k) f.
Proof. unfold Pandas.getitem. destruct (_ <? _)%nat; [|discriminate]. by inversion 1. Qed.

Lemma get_column_Return c df vs :
  Polars.get_column c df = Return vs -> vs = map (Polars.cell c) (rows df).
Proof. unfold Polars.get_column. destruct (Polars.has_column c df); [|discriminate]. by inversion 1. Qed.

Lemma with_column_Return c vs df df' :
  Polars.with_column c vs df = Return df' ->
  rows df' = zip_with (Polars.set_cell c) vs (rows df).
Proof. unfold Polars.with_column. destruct (_ =? _)%nat; [|discriminate]. by inversion 1. Qed.

Lemma sort_Return E c df df' :
  Frame.sort E c df = Return df' -> rows df' = sort_rows E c (rows df).
Proof. unfold Frame.sort. destruct (Polars.has_column c df); [|discriminate]. by inversion 1. Qed.

Ltac bind_inv H :=
  let a := fresh "x" in let Ha := fresh "H" a in
  apply bind_Return in H as (a & Ha & H).


Lemma zip_with_map_self {A B C} (f : B -> A -> C) (g : A -> B) (l : list A) :
  zip_with f (map g l) l = map (fun x => f (g x) x) l.
Proof. induction l as [|x l IH]; simpl; [done|]. by rewrite IH. Qed.

Ltac frame_step :=
  match goal with
  | H : Polars.get_column _ _ ≫= Bridge.to_pandas = Return _ |- _ =>
      let v := fresh "v" in
      let Hv := fresh "Hv" in
      apply bind_Return in H as (v & Hv & H);
      apply get_column_Return in Hv; apply to_pandas_Return in H; subst
  | H : Polars.get_column _ _ = Return _ |- _ =>
      apply get_column_Return in H; subst
  | H : Pandas.getitem _ _ = Return _ |- _ =>
      apply getitem_Return in H; subst
  | H : Polars.with_column _ _ _ = Return _ |- _ =>
      apply with_column_Return in H
  | H : Frame.sort _ _ _ = Return _ |- _ =>
      apply sort_Return in H
  | H : _ ≫= _ = Return _ |- _ => bind_inv H
  end.

Ltac frame_rows :=
  repeat match goal with
  | H : rows ?x = _ |- _ => rewrite H in *; clear H
  | H : rows ?x = _ |- _ => rewrite H; clear H
  end.


Ltac lists_norm_in H :=
  repeat first [ rewrite map_map in H
               | rewrite zip_with_map_map in H
               | rewrite zip_with_map_self in H ].

Ltac frame_subst l :=
  repeat match goal with
  | H : rows ?x = map _ l |- _ =>
      repeat match goal with
      | H' : rows _ = _ |- _ =>
          lazymatch H' with H => fail | _ => idtac end;
          rewrite H in H'; lists_norm_in H'
      end;
      try rewrite H; clear H
  end.

Lemma parse_columns_rows E df df' :
  _parse_columns E df = Return df' ->
  rows df' = sort_rows E "datetime" (map derive_row (rows df)).
Proof.
  unfold _parse_columns, Polars.fill_null. intros H.
  repeat bind_inv H.
  repeat frame_step.
  unfold Pandas.str_split_expand, Bridge.str_values, Bridge.object_values,
    when_null_then_null in *.
  rewrite H. f_equal. clear H.
  repeat match goal with H : rows _ = _ |- _ => progress lists_norm_in H end.
  frame_subst (rows df).
  apply map_ext. intros r. reflexivity.
Qed.

Lemma cell_set_cell_eq c v (r : row) : Polars.cell c (Polars.set_cell c v r) = v.
Proof. unfold Polars.cell, Polars.set_cell. by rewrite lookup_partial_alter_eq. Qed.

Lemma cell_set_cell_ne c c' v (r : row) :
  c <> c' -> Polars.cell c' (Polars.set_cell c v r) = Polars.cell c' r.
Proof. intros H. unfold Polars.cell, Polars.set_cell. by rewrite lookup_partial_alter_ne. Qed.

Ltac cells :=
  repeat first [ rewrite cell_set_cell_eq
               | rewrite cell_set_cell_ne by discriminate ].

Lemma parse_columns_elem E df df' r :
  _parse_columns E df = Return df' -> r ∈ rows df' ->
  exists r0, r0 ∈ rows df /\ r = derive_row r0.
Proof.
  intros H Hr. rewrite (parse_columns_rows E df df' H) in Hr.
  rewrite (sort_rows_perm E) in Hr.
  apply list_elem_of_In, in_map_iff in Hr as (r0 & <- & Hr0).
  exists r0. split; [by apply list_elem_of_In|done].
Qed.

Lemma derive_row_url r0 : Polars.cell "url" (derive_row r0) = Polars.cell "url" r0.
Proof. unfold derive_row. by cells. Qed.

(** *** Splitting strings *)

Lemma append_cons a s t : String a s +:+ t = String a (s +:+ t).
Proof. reflexivity. Qed.

Lemma append_nil_r s : s +:+ EmptyString = s.
Proof. induction s as [|a s IH]; [done|]. by rewrite append_cons, IH. Qed.

Lemma split_free c s : PyStr.free_of c s = true -> PyStr.split c s = [s].
Proof.
  induction s as [|a s IH]; simpl; [done|].
  destruct (Ascii.eqb a c); simpl; [done|].
  intros H. by rewrite IH.
Qed.

Lemma split_app_sep c a t :
  PyStr.free_of c a = true ->
  PyStr.split c (a +:+ String c t) = a :: PyStr.split c t.
Proof.
  induction a as [|x a IH]; simpl.
  - by rewrite Ascii.eqb_refl.
  - destruct (Ascii.eqb x c); simpl; [done|].
    intros H. by rewrite IH.
Qed.

Lemma split_head c s :
  exists rest, PyStr.split c s = Claimed.before_first c s :: rest.
Proof.
  induction s as [|a s [rest IH]]; simpl; [by eexists|].
  destruct (Ascii.eqb a c); [by eexists|].
  rewrite IH. by eexists.
Qed.

Lemma base_path_cell (url : string) :
  Pandas.pieces_get 0
    (Pandas.split_cell "?" (Pandas.str_remove_spaces (Pandas.Str url)))
  = Pandas.Str (Claimed.base_path url).
Proof.
  simpl. unfold Claimed.base_path.
  destruct (split_head "?" (PyStr.remove_char " " url)) as [rest ->]. done.
Qed.

Lemma second_piece c a b rest :
  PyStr.free_of c a = true -> PyStr.free_of c b = true ->
  rest = EmptyString \/ (exists t, rest = String c t) ->
  PyStr.split c (a +:+ String c (b +:+ rest)) !! 1%nat = Some b.
Proof.
  intros Ha Hb Hrest. rewrite split_app_sep by done.
  destruct Hrest as [->|[t ->]].
  - by rewrite append_nil_r, split_free.
  - by rewrite split_app_sep.
Qed.

Lemma derive_row_file_type r0 url :
  Polars.cell "url" r0 = Some (DStr url) ->
  Polars.cell "file_type" (derive_row r0) =
  text (Pandas.pieces_get 1
          (Pandas.Pieces (PyStr.split "." (Claimed.base_path url)))).
Proof.
  intros H. unfold derive_row. cells. rewrite H. simpl cell_of_value.
  by rewrite base_path_cell.
Qed.

(** ** The file type *)

Lemma free_of_app c x y :
  PyStr.free_of c (x +:+ y) = PyStr.free_of c x && PyStr.free_of c y.
Proof.
  induction x as [|a x IH]; [done|].
  rewrite append_cons. simpl. rewrite IH. by destruct (Ascii.eqb a c).
Qed.

Lemma after_last_free c s :
  PyStr.free_of c s = true -> Claimed.after_last c s = s.
Proof.
  destruct s as [|a s]; simpl; [done|].
  destruct (Ascii.eqb a c); simpl; [done|]. by intros ->.
Qed.

Lemma after_last_app_free c x y :
  PyStr.free_of c y = true ->
  Claimed.after_last c (x +:+ y) = Claimed.after_last c x +:+ y.
Proof.
  intros Hy. induction x as [|a x IH].
  - by apply after_last_free.
  - rewrite append_cons. simpl. rewrite IH, free_of_app, Hy, andb_true_r.
    destruct (Ascii.eqb a c); [done|]. by destruct (PyStr.free_of c x).
Qed.

Lemma after_last_app_sep c x y :
  PyStr.free_of c y = true ->
  Claimed.after_last c (x +:+ String c y) = y.
Proof.
  intros Hy. induction x as [|a x IH].
  - simpl. rewrite Ascii.eqb_refl. by apply after_last_free.
  - rewrite append_cons. simpl. rewrite IH, free_of_app. simpl.
    rewrite Ascii.eqb_refl, andb_false_r. by destruct (Ascii.eqb a c).
Qed.

Lemma claimed_file_type_single_dot url a b :
  Claimed.base_path url = a +:+ String "." b ->
  PyStr.free_of "." b = true -> PyStr.free_of "/" b = true ->
  Claimed.file_type url = b.
Proof.
  intros Hbp Hd Hs. unfold Claimed.file_type. rewrite Hbp.
  rewrite after_last_app_free by (simpl; by rewrite Hs).
  by apply after_last_app_sep.
Qed.

Lemma derive_row_text_absent r0 url :
  Polars.cell "url" r0 = Some (DStr url) ->
  PyStr.free_of "." (Claimed.base_path url) = true ->
  Polars.cell "file_type" (derive_row r0) = Some (DStr "None").
Proof.
  intros Hu Hf. rewrite (derive_row_file_type r0 url Hu).
  by rewrite split_free.
Qed.

(** what line 258 computes: [file_type] is the second piece of the base
    path cut at its dots, the text between the first dot and the second one,
    or the end of the base path when it has one dot only, directories
    included; it is the suffix after the last dot of the file name only when
    the base path has a single dot and no slash follows it.  When the base
    path has no dot at all, [file_type] is the text [None]. *)
Lemma file_type_is_second_dot_piece
  (E : Engine) (d d' : DataFrame) (r : row) (url : string) :
  _parse_columns E d = Return d' -> r ∈ rows d' ->
  Polars.cell "url" r = Some (DStr url) ->
  (forall a b rest,
     Claimed.base_path url = a +:+ String "." (b +:+ rest) ->
     PyStr.free_of "." a = true -> PyStr.free_of "." b = true ->
     rest = EmptyString \/ (exists t, rest = String "." t) ->
     Polars.cell "file_type" r = Some (DStr b) /\
     (rest = EmptyString -> PyStr.free_of "/" b = true ->
      Claimed.file_type url = b)) /\
  (PyStr.free_of "." (Claimed.base_path url) = true ->
   Polars.cell "file_type" r = Some (DStr "None")).
Proof.
  intros Hp Hr Hu.
  destruct (parse_columns_elem E d d' r Hp Hr) as (r0 & _ & ->).
  rewrite derive_row_url in Hu. split.
  - intros a b rest Hbp Ha Hb Hrest. split.
    + rewrite (derive_row_file_type r0 url Hu), Hbp. unfold text. simpl.
      by rewrite (second_piece "." a b rest Ha Hb Hrest).
    + intros -> Hs. rewrite append_nil_r in Hbp.
      by apply (claimed_file_type_single_dot url a b).
  - by apply derive_row_text_absent.
Qed.


(** C8 (the code at the failing inputs): for the URL
    [/erddap/files/ds/data.2020.nc] [_parse_columns] returns and gives
    [file_type] as [2020], and for [/erddap/files/ds_v1.2/data.nc] as
    [2/data], where the suffix after the last dot of the file name is [nc] in
    both: the code takes the second piece of the whole base path cut at its
    dots, not the last piece of the file name. *)
Theorem file_type_is_not_last_suffix :
  (_parse_columns Reference.engine (DemoUrls.table DemoUrls.dated_file)
     = Return (DemoUrls.parsed Reference.engine DemoUrls.dated_file) /\
   Polars.cell "url"
     (DemoUrls.first_row (DemoUrls.parsed Reference.engine DemoUrls.dated_file))
     = Some (DStr DemoUrls.dated_file) /\
   Polars.cell "file_type"
     (DemoUrls.first_row (DemoUrls.parsed Reference.engine DemoUrls.dated_file))
     = Some (DStr "2020") /\
   Claimed.file_type DemoUrls.dated_file = "nc") /\
  (_parse_columns Reference.engine (DemoUrls.table DemoUrls.versioned_dir)
     = Return (DemoUrls.parsed Reference.engine DemoUrls.versioned_dir) /\
   Polars.cell "url"
     (DemoUrls.first_row (DemoUrls.parsed Reference.engine DemoUrls.versioned_dir))
     = Some (DStr DemoUrls.versioned_dir) /\
   Polars.cell "file_type"
     (DemoUrls.first_row (DemoUrls.parsed Reference.engine DemoUrls.versioned_dir))
     = Some (DStr "2/data") /\
   Claimed.file_type DemoUrls.versioned_dir = "nc").
Proof. repeat split; vm_compute; reflexivity. Qed.

(** ** The request type and the dataset id *)

Lemma derive_row_request_type r0 :
  exists t, Polars.cell "erddap_request_type" (derive_row r0) = Some (DStr t).
Proof. unfold derive_row. cells. by eexists. Qed.

Lemma derive_row_dataset_id r0 :
  exists t, Polars.cell "dataset_id" (derive_row r0) = Some (DStr t).
Proof. unfold derive_row. cells. by eexists. Qed.

(** after [_parse_columns] neither column holds a null: [astype(str)] has
    turned every missing cell into a text before polars sees it, so that the
    [is_null] test of the function never fires *)
Lemma parse_columns_never_null E d d' r :
  _parse_columns E d = Return d' -> r ∈ rows d' ->
  (exists t, Polars.cell "erddap_request_type" r = Some (DStr t)) /\
  (exists t, Polars.cell "dataset_id" r = Some (DStr t)).
Proof.
  intros Hp Hr. destruct (parse_columns_elem E d d' r Hp Hr) as (r0 & _ & ->).
  split; [apply derive_row_request_type | apply derive_row_dataset_id].
Qed.

(** C1 (the code at the failing input): for a table whose first request
    asks for [/erddap/search/index.html?page=1], whose third path piece is
    no protocol keyword, [_parse_columns] returns with the text [None] (not a
    null) as [erddap_request_type] and with the fourth piece [index] as
    [dataset_id]. *)
Theorem parse_columns_search_page_keeps_dataset_id :
  _parse_columns Reference.engine (DemoUrls.table DemoUrls.search_page)
    = Return (DemoUrls.parsed Reference.engine DemoUrls.search_page) /\
  Polars.cell "url"
    (DemoUrls.first_row (DemoUrls.parsed Reference.engine DemoUrls.search_page))
    = Some (DStr DemoUrls.search_page) /\
  Polars.cell "erddap_request_type"
    (DemoUrls.first_row (DemoUrls.parsed Reference.engine DemoUrls.search_page))
    = Some (DStr "None") /\
  Polars.cell "dataset_id"
    (DemoUrls.first_row (DemoUrls.parsed Reference.engine DemoUrls.search_page))
    = Some (DStr "index").
Proof. repeat split; vm_compute; reflexivity. Qed.

(** ** [Counter.most_common] *)

Lemma elem_of_map {A B} (f : A -> B) (l : list A) (y : B) :
  y ∈ map f l <-> exists x, y = f x /\ x ∈ l.
Proof. apply (list_elem_of_fmap f l y). Qed.

Lemma Forall_map {A B} (f : A -> B) (P : B -> Prop) (l : list A) :
  Forall P (map f l) <-> Forall (fun x => P (f x)) l.
Proof. apply (Forall_fmap f P l). Qed.

Section CounterFacts.
Context {A : Type} `{EqDecision A}.
Implicit Types (x v : A) (c : list (A * nat)) (xs : list A).

Definition occurrences x xs : nat :=
  length (List.filter (fun y => bool_decide (y = x)) xs).

Fixpoint tally v c : nat :=
  match c with
  | [] => 0
  | (y, n) :: c' => if decide (v = y) then n else tally v c'
  end.

Lemma tally_bump v x c :
  tally v (Counter.bump x c) = if decide (v = x) then S (tally v c) else tally v c.
Proof.
  induction c as [|[y n] c IH]; simpl.
  - repeat case_decide; congruence.
  - destruct (decide (x = y)) as [->|Hxy]; simpl;
      repeat case_decide; try congruence.
Qed.

Lemma keys_bump x c :
  map fst (Counter.bump x c) =
  if decide (x ∈ map fst c) then map fst c else map fst c ++ [x].
Proof.
  induction c as [|[y n] c IH].
  - rewrite decide_False by apply not_elem_of_nil. done.
  - cbn [Counter.bump map fst].
    destruct (decide (x = y)) as [->|Hxy]; cbn [map fst].
    + rewrite decide_True by left. done.
    + rewrite IH. destruct (decide (x ∈ map fst c)) as [Hin|Hin].
      * rewrite decide_True by (by right). done.
      * rewrite decide_False; [done|]. rewrite elem_of_cons. tauto.
Qed.

Lemma NoDup_keys_bump x c :
  NoDup (map fst c) -> NoDup (map fst (Counter.bump x c)).
Proof.
  intros H. rewrite keys_bump. case_decide as Hin; [done|].
  apply NoDup_app. split_and!; [done| |apply NoDup_singleton].
  intros y Hy ->%list_elem_of_singleton. done.
Qed.

Lemma tally_elem v n c :
  NoDup (map fst c) -> (v, n) ∈ c -> tally v c = n.
Proof.
  induction c as [|[y m] c IH]; simpl; intros Hnd Hin.
  - by apply elem_of_nil in Hin.
  - apply NoDup_cons in Hnd as [Hy Hnd].
    apply elem_of_cons in Hin as [Heq|Hin].
    + inversion Heq; subst. by rewrite decide_True.
    + case_decide as Hv; [|by apply IH]. subst.
      exfalso. apply Hy. apply elem_of_map. by exists (y, n).
Qed.

Lemma occurrences_snoc v x xs :
  occurrences v (xs ++ [x]) =
  if decide (v = x) then S (occurrences v xs) else occurrences v xs.
Proof.
  unfold occurrences. rewrite List.filter_app, length_app. simpl.
  case_decide as Hv.
  - subst. rewrite bool_decide_true by done. simpl. lia.
  - rewrite bool_decide_false by congruence. simpl. lia.
Qed.

Lemma count_fold xs : forall done c,
  NoDup (map fst c) -> (forall v, tally v c = occurrences v done) ->
  NoDup (map fst (foldl (fun c x => Counter.bump x c) c xs)) /\
  forall v, tally v (foldl (fun c x => Counter.bump x c) c xs)
            = occurrences v (done ++ xs).
Proof.
  induction xs as [|x xs IH]; intros done c Hnd Ht; simpl.
  - by rewrite app_nil_r.
  - replace (done ++ x :: xs) with ((done ++ [x]) ++ xs)
      by (by rewrite <- app_assoc).
    apply IH; [by apply NoDup_keys_bump|].
    intros v. rewrite tally_bump, occurrences_snoc, Ht. done.
Qed.

Lemma count_spec xs v n :
  (v, n) ∈ Counter.count xs -> n = occurrences v xs.
Proof.
  intros Hin. destruct (count_fold xs [] []) as [Hnd Ht]; [constructor|done|].
  specialize (Ht v). simpl in Ht. rewrite <- Ht. symmetry. by apply tally_elem.
Qed.

Lemma insert_desc_perm p (l : list (A * nat)) :
  Permutation (Counter.insert_desc p l) (p :: l).
Proof.
  induction l as [|q l IH]; simpl; [done|].
  destruct (snd q <=? snd p)%nat; [done|].
  rewrite IH. apply perm_swap.
Qed.

Lemma sort_desc_perm (l : list (A * nat)) : Permutation (Counter.sort_desc l) l.
Proof.
  induction l as [|p l IH]; simpl; [done|].
  rewrite insert_desc_perm. by constructor.
Qed.

Definition count_ge (p q : A * nat) : Prop := (snd q <= snd p)%nat.

Lemma insert_desc_sorted p (l : list (A * nat)) :
  StronglySorted count_ge l -> StronglySorted count_ge (Counter.insert_desc p l).
Proof.
  induction 1 as [|q l Hs IH Hall]; simpl; [repeat constructor|].
  destruct (snd q <=? snd p)%nat eqn:E.
  - apply Nat.leb_le in E. constructor; [by constructor|].
    constructor; [done|].
    eapply Forall_impl; [exact Hall|]. unfold count_ge. simpl. intros; lia.
  - apply Nat.leb_gt in E. constructor; [done|].
    rewrite insert_desc_perm. constructor; [|done]. unfold count_ge. lia.
Qed.

Lemma sort_desc_sorted (l : list (A * nat)) :
  StronglySorted count_ge (Counter.sort_desc l).
Proof.
  induction l as [|p l IH]; simpl; [constructor|]. by apply insert_desc_sorted.
Qed.

(** the keys of [most_common] stand in descending order of their number
    of occurrences *)
Lemma most_common_descending xs :
  StronglySorted (fun a b => (occurrences b xs <= occurrences a xs)%nat)
                 (map fst (Counter.most_common xs)).
Proof.
  unfold Counter.most_common.
  assert (Forall (fun p => snd p = occurrences (fst p) xs)
                 (Counter.sort_desc (Counter.count xs))) as Hall.
  { rewrite sort_desc_perm. apply Forall_forall. intros [v n] Hin.
    by apply count_spec. }
  pose proof (sort_desc_sorted (Counter.count xs)) as Hs.
  induction Hs as [|p l Hs IH Hp]; simpl; [constructor|].
  apply Forall_cons in Hall as [Hp0 Hall].
  constructor; [by apply IH|].
  apply Forall_map, Forall_forall. intros q Hq. simpl.
  rewrite Forall_forall in Hp, Hall.
  specialize (Hp q Hq). specialize (Hall q Hq). unfold count_ge in Hp.
  simpl in *. lia.
Qed.

End CounterFacts.

Lemma StronglySorted_sublist {A} (R : A -> A -> Prop) (l k : list A) :
  sublist l k -> StronglySorted R k -> StronglySorted R l.
Proof.
  induction 1 as [|x l k Hs IH|x l k Hs IH]; intros Hk; [done|..].
  - apply StronglySorted_inv in Hk as [Hk Hx]. constructor; [by apply IH|].
    apply Forall_forall. intros y Hy. rewrite Forall_forall in Hx.
    apply Hx. by eapply elem_of_sublist.
  - apply StronglySorted_inv in Hk as [Hk _]. by apply IH.
Qed.

(** ** The lookups of one enrichment run *)

Lemma frequency_occurrences d v :
  frequency d v = occurrences v (map (Polars.cell "ip") (rows d)).
Proof.
  unfold frequency, occurrences.
  induction (rows d) as [|r l IH]; simpl; [done|].
  destruct (bool_decide _); simpl; by rewrite IH.
Qed.

Lemma responses_app reply n l k :
  responses reply n (l ++ k) =
  responses reply n l ++ responses reply (n + length l) k.
Proof.
  revert n. induction l as [|x l IH]; intros n; simpl.
  - by rewrite Nat.add_0_r.
  - rewrite IH. by rewrite Nat.add_succ_r.
Qed.

Lemma length_responses reply n l : length (responses reply n l) = length l.
Proof. revert n. induction l as [|x l IH]; intros n; simpl; [done|]. by rewrite IH. Qed.

Lemma loop_spec_none reply budget ips fetched df_ip w r :
  (forall d, r = Return d -> d = df_ip) ->
  loop_spec reply budget ips fetched df_ip w r w.
Proof.
  intros Hr. exists []. rewrite app_nil_r. simpl. split_and!; try done.
  - apply sublist_nil_l.
  - lia.
Qed.

Lemma loop_spec_skip reply budget p rest fetched df_ip w r w' :
  loop_spec reply budget rest fetched df_ip w r w' ->
  loop_spec reply budget (p :: rest) fetched df_ip w r w'.
Proof.
  intros (issued & ? & ? & ? & ? & ? & ?). exists issued.
  split_and!; try done. simpl. by apply sublist_cons.
Qed.

Lemma loop_spec_stop reply budget ip count rest fetched df_ip w r :
  (fetched < budget)%Z ->
  (rate_limited (reply (length (lookups w)) ip) = true -> exists d, r = Return d) ->
  (forall d, r = Return d -> d = merged df_ip (reply (length (lookups w)) ip)) ->
  loop_spec reply budget ((ip, count) :: rest) fetched df_ip w r (sent ip w).
Proof.
  intros Hb Hrl Hret. exists [ip]. split_and!; try done.
  - simpl. apply sublist_skip, sublist_nil_l.
  - simpl length. lia.
  - intros [|i] x Hx Hx'; simpl in Hx; [|done].
    inversion Hx; subst. split; [done|]. by apply Hrl.
Qed.

Lemma loop_spec_go reply budget ip count rest fetched df_ip w r w' :
  (fetched < budget)%Z ->
  rate_limited (reply (length (lookups w)) ip) = false ->
  loop_spec reply budget rest (fetched + 1)
            (merged df_ip (reply (length (lookups w)) ip)) (sent ip w) r w' ->
  loop_spec reply budget ((ip, count) :: rest) fetched df_ip w r w'.
Proof.
  intros Hb Hnot (issued & Hl & Hf & Hsub & Hn & Hrate & Hret).
  assert (length (lookups (sent ip w)) = S (length (lookups w))) as Hlen
    by (simpl; rewrite length_app; simpl; lia).
  rewrite Hlen in Hrate, Hret.
  exists (ip :: issued). split_and!.
  - rewrite Hl. simpl. by rewrite <- app_assoc.
  - done.
  - simpl. by apply sublist_skip.
  - simpl length. lia.
  - intros [|i] x Hx Hx'; simpl in Hx.
    + inversion Hx; subst. congruence.
    + destruct (Hrate i x Hx Hx') as [Hli ?]. split; [simpl; by rewrite Hli|done].
  - intros d Hd. simpl. by apply Hret.
Qed.

Lemma fetch_new_spec reply budget ips : forall fetched df_ip w r w',
  fetch_new reply budget ips fetched df_ip w = (r, w') ->
  loop_spec reply budget ips fetched df_ip w r w'.
Proof.
  induction ips as [|[ip count] rest IH]; intros fetched df_ip w r w' H; simpl in H.
  { inversion H; subst. apply loop_spec_none. by intros d [= ->]. }
  destruct (Polars.get_column "query" df_ip) as [known|e].
  2:{ inversion H; subst. by apply loop_spec_none. }
  destruct (bool_decide (ip ∈ known)).
  { by apply loop_spec_skip, IH. }
  destruct (budget <=? fetched)%Z eqn:Hb.
  { inversion H; subst. apply loop_spec_none. by intros d [= ->]. }
  apply Z.leb_gt in Hb.
  destruct (reply (length (lookups w)) ip) as [|status json] eqn:Hreply.
  { inversion H; subst. apply loop_spec_stop; [done|by rewrite Hreply|done]. }
  destruct (status =? 429)%Z eqn:Hs.
  { inversion H; subst. apply loop_spec_stop; [done|by eexists|].
    rewrite Hreply. simpl. intros d [= <-]. destruct json; [by rewrite Hs|done]. }
  destruct json as [resp|].
  2:{ inversion H; subst. apply loop_spec_stop; [done|by rewrite Hreply; simpl; rewrite Hs|done]. }
  assert (rate_limited (reply (length (lookups w)) ip) = false) as Hnot
    by (by rewrite Hreply; simpl).
  destruct (concat_diagonal df_ip (frame_of_dict resp)) as [d0|e] eqn:Hc.
  { apply loop_spec_go; [done|done|]. rewrite Hreply. simpl. rewrite Hs, Hc.
    by apply IH. }
  destruct e;
    try (inversion H; subst; apply loop_spec_stop;
         [done|by rewrite Hnot|done]);
    (apply loop_spec_go; [done|done|]; rewrite Hreply; simpl; rewrite Hs, Hc;
     by apply IH).
Qed.

Lemma StronglySorted_weaken {A} (R R' : A -> A -> Prop) (l : list A) :
  (forall a b, R a b -> R' a b) -> StronglySorted R l -> StronglySorted R' l.
Proof.
  intros HR. induction 1 as [|x l Hs IH Hx]; constructor; [done|].
  eapply Forall_impl; [exact Hx|]. intros; by apply HR.
Qed.

Lemma get_ip_info_spec reply d path download_new budget w r w' :
  _get_ip_info reply d path download_new budget w = (r, w') ->
  exists issued,
    lookups w' = lookups w ++ issued /\
    (Z.of_nat (length issued) <= Z.max 0 budget)%Z /\
    StronglySorted (fun a b => (frequency d b <= frequency d a)%nat) issued /\
    (forall i x, responses reply (length (lookups w)) issued !! i = Some x ->
                 rate_limited x = true ->
                 length issued = S i /\ exists df_ip, r = Return df_ip) /\
    (forall df_ip, r = Return df_ip ->
       df_ip = foldl merged (cache_at_start path w)
                 (responses reply (length (lookups w)) issued) /\
       csv_files w' = <[path := df_ip]> (csv_files w)).
Proof.
  unfold _get_ip_info. intros H.
  destruct (Polars.get_column "ip" d) as [ips|e] eqn:Hips.
  2:{ inversion H; subst. exists []. rewrite app_nil_r. simpl.
      split_and!; try done; [lia|constructor]. }
  apply get_column_Return in Hips.
  fold (cache_at_start path w) in H.
  destruct download_new.
  - destruct (fetch_new _ _ _ _ _ _) as [r1 w1] eqn:Hf.
    apply fetch_new_spec in Hf as (issued & Hl & Hcsv & Hsub & Hn & Hrate & Hret).
    exists issued.
    assert (lookups w' = lookups w1 /\
            (forall df_ip, r = Return df_ip ->
               r1 = Return df_ip /\ csv_files w' = <[path:=df_ip]> (csv_files w1)) /\
            (forall df_ip, r1 = Return df_ip -> r = Return df_ip))
      as (Hw & Hr & Hr').
    { destruct r1; inversion H; subst; simpl; split_and!; try done.
      by intros ? [= ->]. }
    split_and!.
    + congruence.
    + lia.
    + eapply StronglySorted_sublist; [exact Hsub|].
      eapply StronglySorted_weaken; [|apply (most_common_descending ips)].
      intros a b. simpl. rewrite !frequency_occurrences. by subst ips.
    + intros i x Hx Hx'. destruct (Hrate i x Hx Hx') as [? [df_ip ?]].
      split; [done|]. exists df_ip. by apply Hr'.
    + intros df_ip Hd. destruct (Hr df_ip Hd) as [Hr1 ->]. split; [by apply Hret|].
      by rewrite Hcsv.
  - inversion H; subst. exists []. rewrite app_nil_r. simpl.
    split_and!; [done|lia|constructor|done|].
    by intros df_ip [= <-].
Qed.

Lemma get_ip_info_world E reply path download_new num_ips s w :
  snd (get_ip_info E reply path download_new num_ips s w) = w \/
  snd (get_ip_info E reply path download_new num_ips s w)
    = snd (_get_ip_info reply (df s) path download_new num_ips w).
Proof.
  unfold get_ip_info. destruct (Polars.has_column "country" (df s)); [by left|].
  right. destruct (_get_ip_info _ _ _ _ _ _) as [[df_ip|e] w']; simpl; [|done].
  by destruct (_ ≫= _).
Qed.

Lemma merged_rate_limited d x : rate_limited x = true -> merged d x = d.
Proof.
  destruct x as [|status [resp|]]; simpl; [done| |done]. by intros ->.
Qed.

Lemma merged_prefix d x : rows d `prefix_of` rows (merged d x).
Proof.
  destruct x as [|status [resp|]]; simpl; [done| |done].
  destruct (status =? 429)%Z; [done|].
  unfold concat_diagonal. destruct (same_types _ _); [|done].
  simpl. by apply prefix_app_r.
Qed.

Lemma foldl_merged_prefix xs : forall d, rows d `prefix_of` rows (foldl merged d xs).
Proof.
  induction xs as [|x xs IH]; intros d; simpl; [done|].
  etrans; [apply (merged_prefix d x)|apply IH].
Qed.

(** C6: in a run of [_get_ip_info], when the reply to lookup number [i] of
    the run carries status 429, that lookup is the last one sent, the call
    returns a table instead of raising, the table holds the cache the run
    started from followed by what the replies before the 429 added, and that
    table is what the cache file holds afterwards. *)
Theorem rate_limit_ends_fetching_and_keeps_entries
  (reply : service) (d : DataFrame) (ip_info_csv : string) (download_new : bool)
  (num_new_ips : Z) (w : World) (issued : list value) (i : nat) (x : response) :
  lookups (snd (_get_ip_info reply d ip_info_csv download_new num_new_ips w))
    = lookups w ++ issued ->
  responses reply (length (lookups w)) issued !! i = Some x ->
  rate_limited x = true ->
  length issued = S i /\
  exists df_ip,
    fst (_get_ip_info reply d ip_info_csv download_new num_new_ips w)
      = Return df_ip /\
    df_ip = foldl merged (cache_at_start ip_info_csv w)
              (take i (responses reply (length (lookups w)) issued)) /\
    rows (cache_at_start ip_info_csv w) `prefix_of` rows df_ip /\
    csv_files (snd (_get_ip_info reply d ip_info_csv download_new num_new_ips w))
      !! ip_info_csv = Some df_ip.
Proof.
  destruct (_get_ip_info reply d ip_info_csv download_new num_new_ips w)
    as [r w'] eqn:Hrun. simpl.
  intros Hl Hx Hrl.
  apply get_ip_info_spec in Hrun as (issued' & Hl' & _ & _ & Hrate & Hret).
  assert (issued' = issued) as -> by (by eapply app_inv_head; rewrite <- Hl, <- Hl').
  destruct (Hrate i x Hx Hrl) as [Hlen [df_ip ->]]. split; [done|].
  exists df_ip. destruct (Hret df_ip eq_refl) as [Hd Hcsv].
  assert (responses reply (length (lookups w)) issued
          = take i (responses reply (length (lookups w)) issued) ++ [x]) as Hsplit.
  { rewrite <- (take_drop i (responses _ _ _)) at 1. f_equal.
    apply list_eq. intros [|j].
    - by rewrite lookup_drop, Nat.add_0_r.
    - rewrite lookup_drop. simpl. apply lookup_ge_None.
      rewrite length_responses. lia. }
  assert (df_ip = foldl merged (cache_at_start ip_info_csv w)
                    (take i (responses reply (length (lookups w)) issued))) as Hd'.
  { rewrite Hd. rewrite Hsplit at 1. rewrite foldl_app. simpl.
    by apply merged_rate_limited. }
  split_and!; [done|done| |by rewrite Hcsv, lookup_insert_eq].
  rewrite Hd'. apply foldl_merged_prefix.
Qed.

Lemma rate_limit_ends_fetching_and_keeps_entries_witness :
  lookups (snd (_get_ip_info DemoNet.strict DemoNet.requests "ip.csv" true 60
                  DemoNet.offline))
    = lookups DemoNet.offline ++ [Some (DStr "10.0.0.1"); Some (DStr "10.0.0.2")] /\
  length [Some (DStr "10.0.0.1"); Some (DStr "10.0.0.2")] = 2%nat /\
  exists df_ip,
    fst (_get_ip_info DemoNet.strict DemoNet.requests "ip.csv" true 60
           DemoNet.offline) = Return df_ip /\
    df_ip = foldl merged (cache_at_start "ip.csv" DemoNet.offline)
              (take 1 (responses DemoNet.strict (length (lookups DemoNet.offline))
                         [Some (DStr "10.0.0.1"); Some (DStr "10.0.0.2")])) /\
    rows (cache_at_start "ip.csv" DemoNet.offline) `prefix_of` rows df_ip /\
    csv_files (snd (_get_ip_info DemoNet.strict DemoNet.requests "ip.csv" true 60
                      DemoNet.offline)) !! "ip.csv" = Some df_ip.
Proof.
  split; [vm_compute; reflexivity|].
  apply (rate_limit_ends_fetching_and_keeps_entries DemoNet.strict
           DemoNet.requests "ip.csv" true 60 DemoNet.offline
           [Some (DStr "10.0.0.1"); Some (DStr "10.0.0.2")] 1 (Http 429 None)).
  - vm_compute; reflexivity.
  - vm_compute; reflexivity.
  - reflexivity.
Defined.

(** C4: [get_ip_info] on a table that has a [country] column returns at
    once: the instance, its table included, the cache files and the list of
    lookups sent are all as before the call. *)
Theorem get_ip_info_on_enriched_table_is_a_no_op
  (E : Engine) (reply : service) (ip_info_csv : string) (download_new : bool)
  (num_ips : Z) (s : ErddapLogParser) (w : World) :
  Polars.has_column "country" (df s) = true ->
  get_ip_info E reply ip_info_csv download_new num_ips s w = (Return tt, s, w).
Proof. intros H. unfold get_ip_info. by rewrite H. Qed.

Lemma get_ip_info_on_enriched_table_is_a_no_op_witness :
  Polars.has_column "country" (df DemoNet.enriched) = true /\
  get_ip_info Reference.engine DemoNet.generous "ip.csv" true 60
    DemoNet.enriched DemoNet.offline
  = (Return tt, DemoNet.enriched, DemoNet.offline).
Proof.
  split; [reflexivity|].
  apply (get_ip_info_on_enriched_table_is_a_no_op Reference.engine
           DemoNet.generous "ip.csv" true 60 DemoNet.enriched DemoNet.offline).
  reflexivity.
Defined.


(** ** Merging batches *)

Lemma load_logs_returns E parsed s s' :
  load_logs E parsed s = (Return tt, s') ->
  exists batch combined sorted,
    parsed = Return batch /\
    Polars.concat_vertical (df s) batch = Return combined /\
    Frame.sort E "datetime" combined = Return sorted /\
    df s' = Frame.unique E sorted.
Proof.
  unfold load_logs, mbind, method_bind, m_bind, call, attr, assign,
    _update_original_total_requests. simpl. intros H.
  destruct parsed as [batch|e]; simpl in H; [|by inversion H].
  destruct (Polars.concat_vertical (df s) batch) as [combined|e] eqn:Hc;
    simpl in H; [|by inversion H].
  destruct (Frame.sort E "datetime" combined) as [sorted|e] eqn:Hs;
    simpl in H; [|by inversion H].
  inversion H; subst. by exists batch, combined, sorted.
Qed.

(** whatever order the engine picks, a merge leaves no two equal rows, and
    the rows it leaves are those of the batch and the table *)
Lemma load_logs_distinct E parsed s s' :
  load_logs E parsed s = (Return tt, s') ->
  NoDup (rows (df s')) /\
  forall r, r ∈ rows (df s') ->
    r ∈ rows (df s) \/ exists batch, parsed = Return batch /\ r ∈ rows batch.
Proof.
  intros H. apply load_logs_returns in H
    as (batch & combined & sorted & -> & Hc & Hs & ->).
  split; [apply unique_rows_NoDup|].
  intros r Hr. simpl in Hr. apply unique_rows_elem in Hr.
  apply sort_Return in Hs. rewrite Hs, (sort_rows_perm E) in Hr.
  unfold Polars.concat_vertical in Hc.
  destruct (columns (df s)).
  - inversion Hc; subst. right. by exists combined.
  - destruct (decide _); [|discriminate]. inversion Hc; subst. simpl in Hr.
    apply elem_of_app in Hr as [?|?]; [by left|right; by exists batch].
Qed.

Lemma Sorted_sortedb c l : Sorted (Polars.row_le c) l -> sortedb c l = true.
Proof.
  induction 1 as [|a l Hs IH Hhd]; [done|].
  destruct l as [|b l]; [done|]. simpl in *.
  inversion Hhd as [|? ? Hab]; subst. unfold Polars.row_le in Hab.
  by rewrite Hab, IH.
Qed.

(** C5 (the code at the failing input): with an engine whose [unique]
    returns the distinct rows in another order than it got them, loading the
    Apache batch and then the Nginx batch returns, leaves no two equal rows,
    and leaves the table out of timestamp order: the times read 7, 5, 4, 3. *)
Theorem load_logs_unique_after_sort_loses_order :
  fst (load_nginx_logs Reference.scattering_engine (Return Demo.nginx_batch)
         (snd (load_apache_logs Reference.scattering_engine
                 (Return Demo.apache_batch) init))) = Return tt /\
  NoDup (rows (df (merged_tables Reference.scattering_engine))) /\
  map (Polars.cell "datetime") (rows (df (merged_tables Reference.scattering_engine)))
    = [Some (DDatetime 7); Some (DDatetime 5); Some (DDatetime 4);
       Some (DDatetime 3)] /\
  (Sorted (Polars.row_le "datetime")
          (rows (df (merged_tables Reference.scattering_engine))) -> False).
Proof.
  split_and!.
  - vm_compute; reflexivity.
  - refine (proj1 (load_logs_distinct Reference.scattering_engine
                     (Return Demo.nginx_batch)
                     (snd (load_apache_logs Reference.scattering_engine
                             (Return Demo.apache_batch) init))
                     (merged_tables Reference.scattering_engine) _)).
    vm_compute; reflexivity.
  - vm_compute; reflexivity.
  - intros Hs. apply Sorted_sortedb in Hs. vm_compute in Hs. discriminate.
Qed.

(** ** Anonymised addresses *)

Lemma position_lookup {A} `{EqDecision A} (x : A) (l : list A) :
  x ∈ l -> l !! position x l = Some x.
Proof.
  induction l as [|y l IH]; simpl; intros Hx.
  - by apply elem_of_nil in Hx.
  - case_decide as Hxy; [by subst|]. simpl. apply IH.
    apply elem_of_cons in Hx as [?|?]; [done|done].
Qed.

Lemma position_inj {A} `{EqDecision A} (x y : A) (l : list A) :
  x ∈ l -> y ∈ l -> position x l = position y l -> x = y.
Proof.
  intros Hx Hy Heq. apply position_lookup in Hx, Hy. congruence.
Qed.

Lemma pseudonym_inj U v1 v2 :
  v1 ∈ U -> v2 ∈ U -> pseudonym U v1 = pseudonym U v2 -> v1 = v2.
Proof.
  destruct v1 as [d1|], v2 as [d2|]; simpl; intros H1 H2 Heq; try done.
  inversion Heq as [Hp]. apply Nat2Z.inj in Hp. by apply (position_inj _ _ U).
Qed.

Lemma indexed_cons k v U :
  indexed k (v :: U) =
  <["index" := DInt (Z.of_nat k)]> (Polars.set_cell "ip" v ∅) :: indexed (S k) U.
Proof.
  unfold indexed. simpl. rewrite Nat.add_0_r. f_equal.
  apply imap_ext. intros i r _. simpl. by rewrite Nat.add_succ_r.
Qed.

Lemma indexed_row_ip k v :
  Polars.cell "ip" (<["index" := DInt (Z.of_nat k)]> (Polars.set_cell "ip" v ∅)) = v.
Proof.
  unfold Polars.cell. rewrite lookup_insert_ne by done. apply cell_set_cell_eq.
Qed.

Lemma filter_indexed_absent d U : forall k,
  Some d ∉ U -> List.filter (has_ip d) (indexed k U) = [].
Proof.
  induction U as [|v U IH]; intros k Hd; [done|].
  rewrite indexed_cons. simpl. unfold has_ip at 1. rewrite indexed_row_ip.
  apply not_elem_of_cons in Hd as [Hv Hd].
  rewrite bool_decide_false by congruence. by apply IH.
Qed.

Lemma filter_indexed_present d U : forall k,
  NoDup U -> Some d ∈ U ->
  List.filter (has_ip d) (indexed k U) =
  [<["index" := DInt (Z.of_nat (k + position (Some d) U))]>
     (Polars.set_cell "ip" (Some d) ∅)].
Proof.
  induction U as [|v U IH]; intros k Hnd Hd.
  - by apply elem_of_nil in Hd.
  - apply NoDup_cons in Hnd as [Hv Hnd].
    rewrite indexed_cons. simpl. unfold has_ip at 1. rewrite indexed_row_ip.
    case_decide as Heq.
    + subst v. rewrite bool_decide_true by done.
      rewrite filter_indexed_absent by done. by rewrite Nat.add_0_r.
    + rewrite bool_decide_false by congruence.
      apply elem_of_cons in Hd as [?|Hd]; [congruence|].
      rewrite IH by done. by rewrite Nat.add_succ_r.
Qed.

Lemma ip_index_spec U d :
  NoDup U -> Some d ∈ U ->
  ip_index (with_row_index (series_frame "ip" U)) d = Return (pseudonym U (Some d)).
Proof.
  intros Hnd Hd. unfold ip_index, row_by_predicate, with_row_index, series_frame.
  simpl rows.
  change (imap _ _) with (indexed 0 U).
  change (List.filter _ (indexed 0 U)) with (List.filter (has_ip d) (indexed 0 U)).
  rewrite filter_indexed_present by done. simpl.
  unfold Polars.cell. by rewrite lookup_insert_eq.
Qed.

Lemma map_elements_pseudonym U f vs :
  (forall d, Some d ∈ vs -> f d = Return (pseudonym U (Some d))) ->
  map_elements f vs = Return (map (pseudonym U) vs).
Proof.
  induction vs as [|v vs IH]; intros Hf; simpl; [done|].
  rewrite IH by (intros d Hd; apply Hf; by right).
  destruct v as [d|]; simpl; [|done].
  rewrite Hf by left. done.
Qed.

Lemma anonymize_ip_returns E s a :
  anonymized s = Some a -> Polars.has_column "ip" a = true ->
  anonymize_ip E s =
  (Return tt,
   with_anonymized
     (mkDataFrame (columns a)
        (map (fun r => Polars.set_cell "ip"
                         (pseudonym (unique_values E (map (Polars.cell "ip") (rows a)))
                                    (Polars.cell "ip" r)) r)
             (rows a))) s).
Proof.
  intros Ha Hip.
  unfold anonymize_ip, the_anonymized, mbind, method_bind, m_bind, attr, call,
    assign, m_ret. simpl. rewrite Ha. simpl.
  unfold Polars.get_column. rewrite Hip. simpl.
  rewrite (map_elements_pseudonym
             (unique_values E (map (Polars.cell "ip") (rows a)))).
  2:{ intros d Hd. apply ip_index_spec; [apply unique_values_NoDup|].
      by apply unique_values_elem. }
  unfold Polars.with_column, Polars.height. rewrite !length_map, Nat.eqb_refl, Hip.
  by rewrite map_map, zip_with_map_self.
Qed.

(** C7: [anonymize_ip] returns for every table with an [ip] column, keeps
    the number of rows, and replaces the addresses by a function that is
    injective on the addresses present: two rows get the same replacement
    exactly when they held the same address, and the replacement of an
    address is an integer. *)
Theorem anonymize_ip_is_injective
  (E : Engine) (s : ErddapLogParser) (a : DataFrame) :
  anonymized s = Some a -> Polars.has_column "ip" a = true ->
  exists a',
    anonymize_ip E s = (Return tt, with_anonymized a' s) /\
    length (rows a') = length (rows a) /\
    forall i j ri rj ri' rj',
      rows a !! i = Some ri -> rows a !! j = Some rj ->
      rows a' !! i = Some ri' -> rows a' !! j = Some rj' ->
      (Polars.cell "ip" ri' = Polars.cell "ip" rj' <->
       Polars.cell "ip" ri = Polars.cell "ip" rj) /\
      (forall d, Polars.cell "ip" ri = Some d ->
                 exists n, Polars.cell "ip" ri' = Some (DInt n)).
Proof.
  intros Ha Hip. eexists. split; [by apply anonymize_ip_returns|].
  simpl. split; [by rewrite length_map|].
  set (U := unique_values E (map (Polars.cell "ip") (rows a))).
  assert (forall r, r ∈ rows a -> Polars.cell "ip" r ∈ U) as HU.
  { intros r Hr. apply unique_values_elem, elem_of_map. by exists r. }
  intros i j ri rj ri' rj' Hi Hj Hi' Hj'.
  assert (forall k (r r' : row),
            rows a !! k = Some r ->
            map (fun r => Polars.set_cell "ip"
                            (pseudonym U (Polars.cell "ip" r)) r) (rows a) !! k
              = Some r' ->
            Polars.cell "ip" r' = pseudonym U (Polars.cell "ip" r)) as Hrow.
  { intros k r r' Hk Hk'.
    change (map ?f ?l) with (f <$> l) in Hk'.
    rewrite list_lookup_fmap, Hk in Hk'. inversion Hk'; subst.
    apply cell_set_cell_eq. }
  rewrite (Hrow i ri ri' Hi Hi'), (Hrow j rj rj' Hj Hj'). split.
  - split; [|by intros ->].
    apply pseudonym_inj; apply HU; by eapply list_elem_of_lookup_2.
  - intros d ->. simpl. by eexists.
Qed.

Lemma anonymize_ip_is_injective_witness :
  (anonymized exported = Some DemoNet.requests /\
   Polars.has_column "ip" DemoNet.requests = true) /\
  exists a',
    anonymize_ip Reference.scattering_engine exported
      = (Return tt, with_anonymized a' exported) /\
    length (rows a') = length (rows DemoNet.requests) /\
    forall i j ri rj ri' rj',
      rows DemoNet.requests !! i = Some ri ->
      rows DemoNet.requests !! j = Some rj ->
      rows a' !! i = Some ri' -> rows a' !! j = Some rj' ->
      (Polars.cell "ip" ri' = Polars.cell "ip" rj' <->
       Polars.cell "ip" ri = Polars.cell "ip" rj) /\
      (forall d, Polars.cell "ip" ri = Some d ->
                 exists n, Polars.cell "ip" ri' = Some (DInt n)).
Proof.
  split; [split; reflexivity|].
  apply (anonymize_ip_is_injective Reference.scattering_engine exported
           DemoNet.requests); reflexivity.
Defined.

(** ** Email fragments in URLs *)




Lemma through_amp_cons a s :
  through_amp (String a s) =
  if Ascii.eqb a "&" then Some 1%nat else S <$> through_amp s.
Proof. reflexivity. Qed.




Lemma length_append x y : String.length (x +:+ y) = (String.length x + String.length y)%nat.
Proof. induction x as [|a x IH]; [done|]. rewrite append_cons. simpl. by rewrite IH. Qed.





Lemma through_amp_inv s : forall m,
  through_amp s = Some m ->
  exists v rest, s = v +:+ String "&" rest /\ PyStr.free_of "&" v = true /\
                 m = S (String.length v).
Proof.
  induction s as [|a s IH]; intros m; [done|]. rewrite through_amp_cons.
  destruct (Ascii.eqb a "&") eqn:E.
  - apply Ascii.eqb_eq in E as ->. intros [= <-]. by exists EmptyString, s.
  - destruct (through_amp s) as [k|]; [|done]. simpl. intros [= <-].
    destruct (IH k eq_refl) as (v & rest & -> & Hv & ->).
    exists (String a v), rest. split_and!; [done| |done]. simpl. by rewrite E, Hv.
Qed.

Lemma through_amp_bound s m : through_amp s = Some m -> (m <= String.length s)%nat.
Proof.
  intros (v & rest & -> & _ & ->)%through_amp_inv.
  rewrite length_append. simpl. lia.
Qed.

















Example strip_email_last_parameter :
  strip_email "/erddap/tabledap/ds.csv?time&email=me@uni.no"
  = "/erddap/tabledap/ds.csv?time&email=me@uni.no".
Proof. reflexivity. Qed.

Example strip_email_two_fragments :
  strip_email "/erddap/tabledap/ds.csv?email=a@b.no&time&email=c@d.no&depth"
  = "/erddap/tabledap/ds.csv?time&depth".
Proof. reflexivity. Qed.

Lemma as_strings_length vs us :
  Polars.as_strings vs = Return us -> length us = length vs.
Proof.
  revert us. induction vs as [|v vs IH]; intros us; simpl.
  - by intros [= <-].
  - destruct v as [[s|z|q|t]|]; try done;
      destruct (Polars.as_strings vs) as [us'|]; try done; simpl;
      intros [= <-]; simpl; by rewrite (IH us').
Qed.

(** [anonymize_query] applies [strip_email] to every URL of the table *)
Lemma anonymize_query_returns s a urls :
  anonymized s = Some a ->
  Polars.get_column "url" a ≫= Polars.as_strings = Return urls ->
  anonymize_query s =
  (Return tt,
   with_anonymized
     (mkDataFrame (columns a)
        (zip_with (Polars.set_cell "url")
           (map (fun u => DStr <$> (strip_email <$> u)) urls) (rows a))) s).
Proof.
  intros Ha Hu.
  unfold anonymize_query, the_anonymized, mbind, method_bind, m_bind, attr, call,
    assign, m_ret.
  rewrite Ha. unfold mbind in Hu. rewrite Hu.
  change (result_bind _ _ Polars.as_strings (Polars.get_column "url" a))
    with (Polars.get_column "url" a ≫= Polars.as_strings) in Hu.
  apply bind_Return in Hu as (vs & Hvs & Hus).
  pose proof (get_column_Return _ _ _ Hvs) as ->.
  apply as_strings_length in Hus. rewrite length_map in Hus.
  unfold Polars.with_column, Polars.height. rewrite length_map, Hus, Nat.eqb_refl.
  unfold Polars.get_column in Hvs.
  destruct (Polars.has_column "url" a); [done|discriminate].
Qed.

(** * Further properties *)

(** ** Reading Apache logs *)

Lemma split_pieces_free c s p : p ∈ PyStr.split c s -> PyStr.free_of c p = true.
Proof.
  revert p. induction s as [|a s IH]; simpl; intros p Hp.
  - by apply list_elem_of_singleton in Hp as ->.
  - destruct (Ascii.eqb a c) eqn:E.
    + apply elem_of_cons in Hp as [->|Hp]; [done|by apply IH].
    + destruct (PyStr.split c s) as [|q qs] eqn:Hs.
      * apply list_elem_of_singleton in Hp as ->. simpl. by rewrite E.
      * apply elem_of_cons in Hp as [->|Hp].
        -- simpl. rewrite E. simpl. apply IH. by left.
        -- apply IH. by right.
Qed.

Lemma this_url_free line u :
  this_url line = Return u -> PyStr.free_of " " u = true.
Proof.
  destruct line as [line|]; simpl; [|done].
  destruct (PyStr.split " " line !! 1%nat) as [p|] eqn:Hp.
  - intros [= <-]. eapply split_pieces_free, list_elem_of_lookup_2, Hp.
  - by intros [= <-].
Qed.

Lemma apache_rows_spec entries rows :
  apache_rows entries = Return rows ->
  length rows = length entries /\
  forall r, r ∈ rows ->
    exists e u, e ∈ entries /\ PyStr.free_of " " u = true /\
      Polars.cell "url" r = Some (DStr u) /\
      Polars.cell "ip" r = Some (DStr (remote_host e)) /\
      Polars.cell "datetime" r = Some (DDatetime (request_time e)).
Proof.
  revert rows. induction entries as [|e entries IH]; simpl; intros rows H.
  - inversion H; subst. split; [done|]. intros r Hr. by apply elem_of_nil in Hr.
  - apply bind_Return in H as (u & Hu & H).
    apply bind_Return in H as (rest & Hrest & H). inversion H; subst.
    destruct (IH rest Hrest) as [Hlen Hall]. split; [simpl; by rewrite Hlen|].
    intros r Hr. apply elem_of_cons in Hr as [->|Hr].
    + exists e, u. split_and!; [by left|by eapply this_url_free| | |];
        unfold apache_row; cells; unfold Polars.cell;
        by simplify_map_eq.
    + destruct (Hall r Hr) as (e' & u' & ? & ? & ? & ? & ?).
      exists e', u'. split_and!; try done. by right.
Qed.

(** X1: when [_load_apache_logs] returns, the frame has one row per log
    entry, and every row holds the entry's host and time and a URL that is a
    text without a space. *)
Theorem load_apache_logs_rows (files : list (list apache_entry)) (d : DataFrame) :
  _load_apache_logs files = Return d ->
  columns d = apache_columns /\
  Polars.height d = length (concat files) /\
  forall r, r ∈ rows d ->
    exists e u, e ∈ concat files /\ PyStr.free_of " " u = true /\
      Polars.cell "url" r = Some (DStr u) /\
      Polars.cell "ip" r = Some (DStr (remote_host e)) /\
      Polars.cell "datetime" r = Some (DDatetime (request_time e)).
Proof.
  unfold _load_apache_logs. destruct files as [|f files]; [done|].
  intros H. apply bind_Return in H as (rows & Hrows & H).
  destruct rows as [|r0 rows]; [done|]. inversion H; subst. simpl.
  destruct (apache_rows_spec _ _ Hrows) as [Hlen Hall]. by split_and!.
Qed.

Definition sample_entry : apache_entry :=
  mkApacheEntry "10.0.0.1" 1700000000 (Some "GET /erddap/index.html HTTP/1.1")
                (Some "curl/8.0") (Some 200%Z) None None.

Definition broken_entry : apache_entry :=
  mkApacheEntry "10.0.0.7" 1700000050 (Some "HELP") None (Some 400%Z)
                None None.

Definition sample_frame : DataFrame :=
  match _load_apache_logs [[sample_entry]; [broken_entry]] with
  | Return d => d
  | Raise _ => Polars.empty_frame
  end.

Lemma load_apache_logs_rows_witness :
  _load_apache_logs [[sample_entry]; [broken_entry]] = Return sample_frame /\
  Polars.height sample_frame = 2%nat.
Proof.
  split; [vm_compute; reflexivity|].
  refine (proj1 (proj2 (load_apache_logs_rows [[sample_entry]; [broken_entry]]
                          sample_frame _))).
  vm_compute; reflexivity.
Defined.

(** X2: the URL of an entry is the second token of its request line: for a
    line made of a method, a space, a URL without spaces and then nothing or
    a space and more, the entry gets that URL; a line without any space gets
    the empty URL instead of an error. *)
Theorem this_url_is_second_token :
  (forall method url rest,
     PyStr.free_of " " method = true -> PyStr.free_of " " url = true ->
     rest = EmptyString \/ (exists t, rest = String " " t) ->
     this_url (Some (method +:+ String " " (url +:+ rest))) = Return url) /\
  (forall line,
     PyStr.free_of " " line = true -> this_url (Some line) = Return EmptyString).
Proof.
  split.
  - intros m u rest Hm Hu Hrest. unfold this_url.
    by rewrite (second_piece " " m u rest Hm Hu Hrest).
  - intros line Hl. unfold this_url. by rewrite split_free.
Qed.

Lemma this_url_is_second_token_witness :
  (PyStr.free_of " " "GET" = true /\
   PyStr.free_of " " "/erddap/index.html" = true) /\
  this_url (Some ("GET" +:+ String " " ("/erddap/index.html" +:+ " HTTP/1.1")))
    = Return "/erddap/index.html".
Proof.
  split; [split; reflexivity|].
  refine (proj1 this_url_is_second_token "GET" "/erddap/index.html" " HTTP/1.1"
            _ _ _); [reflexivity|reflexivity|].
  right. by eexists.
Defined.

(** ** Loading batches *)

Lemma load_logs_rows E batch s s' :
  load_logs E (Return batch) s = (Return tt, s') ->
  columns (df s') = (if decide (columns (df s) = []) then columns batch
                     else columns (df s)) /\
  Polars.has_column "datetime" (df s') = true /\
  forall r, r ∈ rows (df s') <->
            (columns (df s) <> [] /\ r ∈ rows (df s)) \/ r ∈ rows batch.
Proof.
  intros H. apply load_logs_returns in H
    as (batch' & combined & sorted & [= <-] & Hc & Hs & ->).
  pose proof (sort_Return _ _ _ _ Hs) as Hrows.
  unfold Frame.sort in Hs.
  destruct (Polars.has_column "datetime" combined) eqn:Hdt; [|done].
  inversion Hs; subst sorted. simpl. clear Hs Hrows.
  unfold Polars.concat_vertical in Hc.
  destruct (columns (df s)) as [|c0 cs] eqn:Hcols.
  - inversion Hc; subst combined. rewrite decide_True by done.
    split_and!; [done|done|].
    intros r. rewrite unique_rows_elem, (sort_rows_perm E). naive_solver.
  - destruct (decide (c0 :: cs = columns batch)) as [Heq|]; [|done].
    inversion Hc; subst combined. simpl in *.
    try rewrite decide_False by done.
    split_and!; [done|done|].
    intros r. rewrite unique_rows_elem, (sort_rows_perm E), elem_of_app.
    naive_solver.
Qed.



(** X4: loading the same batch a second time returns and changes nothing
    but the order: the table holds the same rows as after the first load. *)
Theorem load_logs_twice_same_rows
  (E : Engine) (batch : DataFrame) (s s1 : ErddapLogParser) :
  load_logs E (Return batch) s = (Return tt, s1) ->
  exists s2,
    load_logs E (Return batch) s1 = (Return tt, s2) /\
    Permutation (rows (df s2)) (rows (df s1)).
Proof.
  intros H1. pose proof (load_logs_rows E batch s s1 H1) as (Hcols & Hdt & Hr).
  pose proof (load_logs_returns E _ s s1 H1) as (b & combined & sorted & [= <-] & Hc & Hs & Hdf).
  assert (columns (df s1) = columns combined) as Hcols1.
  { rewrite Hdf. simpl. unfold Frame.sort in Hs.
    destruct (Polars.has_column "datetime" combined); [|done]. by inversion Hs. }
  assert (columns combined = columns batch \/ columns (df s) = []) as Hcb.
  { unfold Polars.concat_vertical in Hc. destruct (columns (df s)); [by right|].
    case_decide; [|done]. inversion Hc; subst. simpl. left. congruence. }
  assert (columns (df s1) = columns batch) as Hsame.
  { rewrite Hcols1. destruct Hcb as [?|Hnil]; [done|].
    unfold Polars.concat_vertical in Hc. rewrite Hnil in Hc. by inversion Hc. }
  assert (columns (df s1) <> []) as Hne.
  { intros Hnil. unfold Polars.has_column in Hdt. rewrite Hnil in Hdt.
    by apply bool_decide_eq_true, elem_of_nil in Hdt. }
  destruct (load_logs E (Return batch) s1) as [r2 s2] eqn:H2.
  assert (r2 = Return tt) as ->.
  { revert H2. unfold load_logs, mbind, method_bind, m_bind, call, attr, assign,
      _update_original_total_requests. simpl.
    unfold Polars.concat_vertical. destruct (columns (df s1)) eqn:Hc1; [done|].
    rewrite decide_True by done. simpl.
    unfold Frame.sort. simpl. unfold Polars.has_column in *. simpl.
    rewrite <- Hc1, Hdt. simpl. by intros [= <- _]. }
  exists s2. split; [done|].
  pose proof (load_logs_rows E batch s1 s2 H2) as (_ & _ & Hr2).
  apply NoDup_Permutation.
  - apply load_logs_returns in H2 as (? & ? & ? & _ & _ & _ & Hdf2).
    rewrite Hdf2. apply unique_rows_NoDup.
  - rewrite Hdf. apply unique_rows_NoDup.
  - intros r. rewrite Hr2. split; [|tauto].
    intros [[_ ?]|Hb]; [done|]. apply Hr. by right.
Qed.

Lemma load_logs_twice_same_rows_witness :
  load_logs Reference.engine (Return Demo.apache_batch) init
    = (Return tt, Demo.loaded) /\
  exists s2,
    load_logs Reference.engine (Return Demo.apache_batch) Demo.loaded
      = (Return tt, s2) /\
    Permutation (rows (df s2)) (rows (df Demo.loaded)).
Proof.
  split; [vm_compute; reflexivity|].
  apply (load_logs_twice_same_rows Reference.engine Demo.apache_batch init
           Demo.loaded).
  vm_compute; reflexivity.
Defined.

(** X5: a load that raises, because no file matched, because the batch has
    other columns than the table or because there is no [datetime] column,
    leaves the instance exactly as it was. *)
Theorem load_logs_failure_changes_nothing
  (E : Engine) (parsed : result DataFrame) (s : ErddapLogParser) (e : exn) :
  fst (load_logs E parsed s) = Raise e -> snd (load_logs E parsed s) = s.
Proof.
  unfold load_logs, mbind, method_bind, m_bind, call, attr, assign,
    _update_original_total_requests. simpl.
  destruct parsed as [batch|e0]; simpl; [|done].
  destruct (Polars.concat_vertical (df s) batch) as [combined|e1]; simpl; [|done].
  destruct (Frame.sort E "datetime" combined) as [sorted|e2]; simpl; [|done].
  discriminate.
Qed.

Lemma load_logs_failure_changes_nothing_witness :
  fst (load_logs Reference.engine (Raise ValueError) Demo.loaded) = Raise ValueError /\
  snd (load_logs Reference.engine (Raise ValueError) Demo.loaded) = Demo.loaded.
Proof.
  split; [reflexivity|].
  apply (load_logs_failure_changes_nothing Reference.engine (Raise ValueError)
           Demo.loaded ValueError).
  reflexivity.
Defined.

(** ** Subsetting and undoing *)

Lemma every_nth_sublist n k l : sublist (Polars.every_nth n k l) l.
Proof.
  revert k. induction l as [|r l IH]; intros k; simpl; [done|].
  destruct k; [apply sublist_skip|apply sublist_cons]; apply IH.
Qed.

Lemma every_nth_covers n k l :
  1 <= n -> length l <= k + n * length (Polars.every_nth n k l).
Proof.
  intros Hn. revert k. induction l as [|r l IH]; intros k; simpl; [lia|].
  destruct k as [|k]; simpl.
  - specialize (IH (pred n)). nia.
  - specialize (IH k). lia.
Qed.

(** X6: asked for between one row and as many as the table has,
    [subset_df] returns; the table it leaves is the old one thinned out, in
    the old order; it has at least the number of rows asked for, not at
    most; and it is the new checkpoint. *)
Theorem subset_df_keeps_at_least_rows (nrows : Z) (s : ErddapLogParser) :
  (0 < nrows <= Z.of_nat (Polars.height (df s)))%Z ->
  exists s',
    subset_df nrows s = (Return tt, s') /\
    columns (df s') = columns (df s) /\
    sublist (rows (df s')) (rows (df s)) /\
    (nrows <= Z.of_nat (Polars.height (df s')))%Z /\
    checkpointed s'.
Proof.
  intros [Hpos Hle].
  unfold subset_df, mbind, method_bind, m_bind, attr, call, assign, raise, pass,
    m_ret, _update_original_total_requests. simpl.
  destruct (nrows =? 0)%Z eqn:Hz; [lia|]. simpl.
  unfold Polars.gather_every.
  set (stride := Z.quot (Z.of_nat (Polars.height (df s))) nrows).
  assert (1 <= stride)%Z as Hstride.
  { unfold stride. rewrite Z.quot_div_nonneg by lia.
    apply Z.div_le_lower_bound; lia. }
  destruct (0 <? stride)%Z eqn:Hs; [|lia]. simpl.
  eexists. split; [reflexivity|]. simpl.
  split_and!; [done|apply every_nth_sublist| |done].
  unfold Polars.height in *. simpl.
  pose proof (every_nth_covers (Z.to_nat stride) 0 (rows (df s))) as Hcov.
  assert (stride * nrows <= Z.of_nat (length (rows (df s))))%Z as Hmul.
  { unfold stride. rewrite Z.quot_div_nonneg by lia.
    rewrite Z.mul_comm. apply Z.mul_div_le. lia. }
  nia.
Qed.

Lemma subset_df_keeps_at_least_rows_witness :
  (0 < 2 <= Z.of_nat (Polars.height (df Demo.loaded)))%Z /\
  exists s',
    subset_df 2 Demo.loaded = (Return tt, s') /\
    columns (df s') = columns (df Demo.loaded) /\
    sublist (rows (df s')) (rows (df Demo.loaded)) /\
    (2 <= Z.of_nat (Polars.height (df s')))%Z /\
    checkpointed s'.
Proof.
  split; [vm_compute; split; [reflexivity|discriminate]|].
  apply (subset_df_keeps_at_least_rows 2 Demo.loaded).
  vm_compute; split; [reflexivity|discriminate].
Defined.

(** X7: asked for no row, for a negative number of rows or for more rows
    than the table has, [subset_df] raises and leaves the instance as it
    was: a table is never subset to more than it holds. *)
Theorem subset_df_out_of_range_raises (nrows : Z) (s : ErddapLogParser) :
  (nrows <= 0 \/ Z.of_nat (Polars.height (df s)) < nrows)%Z ->
  exists e, subset_df nrows s = (Raise e, s).
Proof.
  intros Hout.
  unfold subset_df, mbind, method_bind, m_bind, attr, call, assign, raise, pass,
    m_ret, _update_original_total_requests. simpl.
  destruct (nrows =? 0)%Z eqn:Hz; simpl; [by eexists|].
  unfold Polars.gather_every.
  set (stride := Z.quot (Z.of_nat (Polars.height (df s))) nrows).
  assert (stride <= 0)%Z as Hstride.
  { unfold stride. destruct Hout as [Hneg|Hbig].
    - assert (nrows < 0)%Z as Hn by lia.
      rewrite <- (Z.opp_involutive nrows), Z.quot_opp_r by lia.
      rewrite Z.quot_div_nonneg by lia.
      pose proof (Z.div_pos (Z.of_nat (Polars.height (df s))) (- nrows)). lia.
    - rewrite Z.quot_small; lia. }
  destruct (0 <? stride)%Z eqn:Hs; [lia|]. simpl. by eexists.
Qed.

Lemma subset_df_out_of_range_raises_witness :
  (1000 <= 0 \/ Z.of_nat (Polars.height (df Demo.loaded)) < 1000)%Z /\
  exists e, subset_df 1000 Demo.loaded = (Raise e, Demo.loaded).
Proof.
  split; [right; vm_compute; reflexivity|].
  apply (subset_df_out_of_range_raises 1000 Demo.loaded).
  right; vm_compute; reflexivity.
Defined.

(** X8: [undo_filter] returns only when a checkpoint exists, that is after
    a load or a subset; once it has returned, the table is the checkpoint,
    and calling it again returns and changes nothing. *)
Theorem undo_filter_is_idempotent (s s1 : ErddapLogParser) :
  undo_filter s = (Return tt, s1) ->
  unfiltered_df s = Some (df s1) /\
  checkpointed s1 /\
  undo_filter s1 = (Return tt, s1).
Proof.
  intros H. destruct (unfiltered_df s) as [d|] eqn:Hu.
  - rewrite (undo_filter_checkpointed s d Hu) in H. inversion H; subst s1.
    split_and!; [done|done|].
    by rewrite (undo_filter_checkpointed _ d).
  - unfold undo_filter, mbind, method_bind, m_bind, attr in H. simpl in H.
    rewrite Hu in H. by inversion H.
Qed.

Lemma undo_filter_is_idempotent_witness :
  undo_filter (run_filters Demo.no_bots [Spam; NonErddap] Demo.loaded)
    = (Return tt,
       snd (undo_filter (run_filters Demo.no_bots [Spam; NonErddap] Demo.loaded))) /\
  undo_filter
    (snd (undo_filter (run_filters Demo.no_bots [Spam; NonErddap] Demo.loaded)))
    = (Return tt,
       snd (undo_filter (run_filters Demo.no_bots [Spam; NonErddap] Demo.loaded))).
Proof.
  split; [vm_compute; reflexivity|].
  refine (proj2 (proj2 (undo_filter_is_idempotent
                   (run_filters Demo.no_bots [Spam; NonErddap] Demo.loaded)
                   _ _))).
  vm_compute; reflexivity.
Defined.

(** ** What a filter does to the table *)

Section Steps.
Variable R : DataFrame -> DataFrame -> Prop.
Hypothesis R_refl : forall d, R d d.
Hypothesis R_trans : forall a b c, R a b -> R b c -> R a c.

(** whatever the method does, returning or raising, the table it leaves is
    related to the one it found *)
Definition steps {A} (m : method A) : Prop :=
  forall s, R (df s) (df (snd (m s))).

Lemma steps_frame {A} (m : method A) :
  (forall s, df (snd (m s)) = df s) -> steps m.
Proof. intros H s. rewrite H. apply R_refl. Qed.

Lemma steps_bind {A B} (m : method A) (f : A -> method B) :
  steps m -> (forall a, steps (f a)) -> steps (m ≫= f).
Proof.
  intros Hm Hf s. unfold mbind, method_bind, m_bind.
  specialize (Hm s). destruct (m s) as [[a|e] s']; simpl in *; [|done].
  eapply R_trans; [exact Hm|apply Hf].
Qed.

Lemma steps_for_each {A} (xs : list A) (body : A -> method unit) :
  (forall x, steps (body x)) -> steps (for_each xs body).
Proof.
  intros Hb. induction xs as [|x xs IH]; simpl.
  - by apply steps_frame.
  - apply steps_bind; [apply Hb|]. by intros _.
Qed.

Lemma steps_if {A} (b : bool) (m1 m2 : method A) :
  steps m1 -> steps m2 -> steps (if b then m1 else m2).
Proof. by destruct b. Qed.

Hypothesis R_filter : forall mask d, R d (Polars.df_filter mask d).

Lemma steps_filter_df mask : steps (filter_df mask).
Proof.
  intros s. unfold filter_df, mbind, method_bind, m_bind, attr, call, assign.
  simpl. destruct (mask (df s)); simpl; [apply R_filter|apply R_refl].
Qed.

Lemma steps_print_filter_stats (call_wrap : method unit) :
  steps call_wrap -> steps (_print_filter_stats call_wrap).
Proof.
  intros H. unfold _print_filter_stats.
  repeat first [ apply steps_bind; [|intros ?] | apply steps_if
               | exact H | by apply steps_frame ].
Qed.

End Steps.

Ltac steps_intro :=
  try assumption;
  lazymatch goal with
  | |- forall _, _ => intros ?
  | |- _ => idtac
  end.

Ltac steps_tac :=
  repeat first
    [ apply steps_filter_df; assumption
    | apply steps_for_each; steps_intro
    | apply steps_if
    | apply steps_bind; steps_intro
    | apply steps_print_filter_stats; steps_intro
    | by apply steps_frame ].

(** the same columns, and rows taken from the old ones in their order *)
Definition thinned (d d' : DataFrame) : Prop :=
  columns d' = columns d /\ sublist (rows d') (rows d).

(** the same columns, and no more rows *)
Definition shrunk (d d' : DataFrame) : Prop :=
  columns d' = columns d /\ Polars.height d' <= Polars.height d.

Lemma keep_rows_sublist mask rs : sublist (Polars.keep_rows mask rs) rs.
Proof.
  revert rs. induction mask as [|m mask IH]; intros [|r rs]; simpl;
    try apply sublist_nil_l.
  destruct (default false m); [apply sublist_skip|apply sublist_cons]; apply IH.
Qed.

Lemma thinned_refl d : thinned d d.
Proof. by split. Qed.

Lemma thinned_trans a b c : thinned a b -> thinned b c -> thinned a c.
Proof. intros [? ?] [? ?]. split; [congruence|by etrans]. Qed.

Lemma thinned_filter mask d : thinned d (Polars.df_filter mask d).
Proof. split; [done|apply keep_rows_sublist]. Qed.

Lemma thinned_shrunk d d' : thinned d d' -> shrunk d d'.
Proof. intros [? Hs]. split; [done|]. by apply sublist_length. Qed.

Lemma shrunk_refl d : shrunk d d.
Proof. by split. Qed.

Lemma shrunk_trans a b c : shrunk a b -> shrunk b c -> shrunk a c.
Proof. intros [? ?] [? ?]. split; [congruence|lia]. Qed.

Lemma shrunk_filter mask d : shrunk d (Polars.df_filter mask d).
Proof. apply thinned_shrunk, thinned_filter. Qed.

Lemma shrunk_fill_null c v d d' :
  Polars.fill_null c v d = Return d' -> shrunk d d'.
Proof.
  unfold Polars.fill_null, Polars.get_column, Polars.with_column.
  destruct (Polars.has_column c d) eqn:Hc; simpl; [|done].
  destruct (_ =? _)%nat; [|done]. intros [= <-]. split; simpl; [done|].
  unfold Polars.height. simpl. rewrite length_zip_with. lia.
Qed.

Lemma thins_run_filter is_bot f :
  f <> Organisations -> steps thinned (run_filter is_bot f).
Proof.
  pose proof thinned_refl. pose proof thinned_trans. pose proof thinned_filter.
  intros Hf. destruct f; [|done| | | | |]; simpl;
    unfold filter_non_erddap, filter_user_agents, filter_locales, filter_spam,
      filter_files, filter_common_strings,
      filter_locales_body, filter_spam_body, filter_common_strings_body;
    steps_tac.
Qed.

Lemma shrinks_organisations : steps shrunk filter_organisations.
Proof.
  pose proof shrunk_refl as Hr. pose proof shrunk_trans as Ht.
  pose proof shrunk_filter as Hf.
  unfold filter_organisations.
  apply steps_print_filter_stats; steps_intro.
  unfold filter_organisations_body.
  set (tail := (for_each _ _ ≫= _)).
  assert (steps shrunk tail) as Htail by (subst tail; steps_tac).
  clearbody tail. intros s.
  unfold mbind, method_bind, m_bind, attr, call, assign, pass, raise, m_ret.
  simpl. destruct (Polars.has_column "org" (df s)); simpl; [|done].
  destruct (Polars.fill_null "org" _ (df s)) as [d1|] eqn:H1; simpl; [|done].
  apply shrunk_fill_null in H1.
  destruct (Polars.fill_null "isp" _ d1) as [d2|] eqn:H2; simpl; [|done].
  apply shrunk_fill_null in H2.
  eapply Ht; [exact H1|]. eapply Ht; [exact H2|].
  apply (Htail (with_df d2 (with_df d1 s))).
Qed.

(** X9: no filter call, whichever of the seven and whether it returns or
    raises, adds a row or changes the columns; six of them leave rows of the
    old table in their old order, and [filter_organisations], which fills
    the nulls of [org] and [isp], leaves no more rows than it found. *)
Theorem filters_never_add_rows
  (is_bot : string -> bool) (f : filter_call) (s : ErddapLogParser) :
  columns (df (snd (run_filter is_bot f s))) = columns (df s) /\
  Polars.height (df (snd (run_filter is_bot f s))) <= Polars.height (df s) /\
  (f = Organisations \/
   sublist (rows (df (snd (run_filter is_bot f s)))) (rows (df s))).
Proof.
  assert (f = Organisations \/ f <> Organisations) as [->|Hf]
    by (destruct f; auto).
  - destruct (shrinks_organisations s) as [Hc Hh]. simpl. auto.
  - destruct (thins_run_filter is_bot f Hf s) as [Hc Hs].
    split_and!; [done|by apply sublist_length|by right].
Qed.

(** ** What the URL filters keep *)

Definition text_of (v : value) : option string :=
  match v with
  | Some (DStr s) => Some s
  | _ => None
  end.

(** the URL of a row when it is text *)
Definition url_text (r : row) : option string := text_of (Polars.cell "url" r).

(** the URL of the row is text in which the pattern is not found *)
Definition lacks (p : string) (r : row) : bool :=
  match url_text r with
  | Some u => negb (Regex.search (Regex.compile p) u)
  | None => false
  end.

Definition lacks_all (ps : list string) (r : row) : bool :=
  forallb (fun p => lacks p r) ps.

(** the patterns of the three filters that drop by URL pattern *)
Definition url_patterns (f : filter_call) : list string :=
  match f with
  | Locales => default_locales
  | Files => ["/files"]
  | CommonStrings => default_strings
  | _ => []
  end.

(** the atoms accept the text [p] itself: a literal its own character, a
    dot any character but a line feed *)
Fixpoint accepts (atoms : list Regex.atom) (p : string) : bool :=
  match atoms, p with
  | [], EmptyString => true
  | Regex.Lit c :: atoms', String x p' => Ascii.eqb x c && accepts atoms' p'
  | Regex.AnyChar :: atoms', String x p' =>
      negb (Regex.is_newline x) && accepts atoms' p'
  | _, _ => false
  end.

(** a pattern without flag that, read as a regular expression, is found
    wherever it stands as text *)
Definition plain (p : string) : bool :=
  negb (Regex.ignore_case (Regex.compile p)) &&
  accepts (Regex.atoms (Regex.compile p)) p.

Lemma as_strings_Return vs ss :
  Polars.as_strings vs = Return ss ->
  ss = map text_of vs /\
  Forall (fun v => v = None \/ exists s, v = Some (DStr s)) vs.
Proof.
  revert ss. induction vs as [|v vs IH]; simpl; intros ss H.
  - by inversion H.
  - destruct v as [[s|z|q|t]|]; try discriminate;
      destruct (Polars.as_strings vs) as [ss'|]; simpl in H; try discriminate;
      inversion H; subst; destruct (IH _ eq_refl) as [-> Hall];
      (split; [done|constructor; [eauto|done]]).
Qed.

Lemma keep_rows_map (f : row -> option bool) rs :
  Polars.keep_rows (map f rs) rs = List.filter (fun r => default false (f r)) rs.
Proof.
  induction rs as [|r rs IH]; simpl; [done|].
  rewrite IH. by destruct (default false (f r)).
Qed.

Lemma filter_filter {A} (f g : A -> bool) (l : list A) :
  List.filter g (List.filter f l) = List.filter (fun x => f x && g x) l.
Proof.
  induction l as [|x l IH]; simpl; [done|].
  destruct (f x); simpl; [|done]. destruct (g x); by rewrite IH.
Qed.

Lemma filter_ext_in {A} (f g : A -> bool) (l : list A) :
  (forall x, x ∈ l -> f x = g x) -> List.filter f l = List.filter g l.
Proof.
  intros H. apply List.filter_ext_in. intros x Hx. apply H.
  by apply list_elem_of_In.
Qed.

Lemma filter_true {A} (l : list A) : List.filter (fun _ => true) l = l.
Proof. induction l as [|x l IH]; simpl; [done|]. by rewrite IH. Qed.

(** a column of text and nulls *)
Definition texts (c : string) (d : DataFrame) : Prop :=
  Polars.has_column c d = true /\
  Forall (fun r => Polars.cell c r = None \/ exists s, Polars.cell c r = Some (DStr s))
         (rows d).

Lemma str_lacks_Return p d mask :
  str_lacks p "url" d = Return mask ->
  texts "url" d /\
  Polars.keep_rows mask (rows d) = List.filter (lacks p) (rows d).
Proof.
  unfold str_lacks, str_contains. intros H.
  destruct (Polars.get_column "url" d) as [vs|] eqn:Hg; simpl in H; [|done].
  pose proof Hg as Hcol. unfold Polars.get_column in Hcol.
  destruct (Polars.has_column "url" d) eqn:Hc; [|done].
  apply get_column_Return in Hg as ->.
  destruct (Polars.as_strings _) as [ss|] eqn:Hs; simpl in H; [|done].
  apply as_strings_Return in Hs as [-> Hall]. inversion H; subst mask.
  split; [split; [done|by apply Forall_map in Hall]|].
  unfold Polars.mask_not. rewrite !map_map, keep_rows_map.
  apply filter_ext_in. intros r _. unfold lacks, url_text.
  by destruct (text_of (Polars.cell "url" r)).
Qed.

Lemma filter_df_Return mask s s' :
  filter_df mask s = (Return tt, s') ->
  exists m, mask (df s) = Return m /\ s' = with_df (Polars.df_filter m (df s)) s.
Proof.
  unfold filter_df, mbind, method_bind, m_bind, attr, call, assign. simpl.
  destruct (mask (df s)) as [m|]; simpl; [|done]. intros [= <-]. by exists m.
Qed.

Lemma bind_method_Return {A B} (m : method A) (f : A -> method B) s b s' :
  (m ≫= f) s = (Return b, s') ->
  exists a s1, m s = (Return a, s1) /\ f a s1 = (Return b, s').
Proof.
  unfold mbind, method_bind, m_bind. destruct (m s) as [[a|e] s1]; [|done].
  intros H. by exists a, s1.
Qed.

Lemma print_filter_stats_Return (call_wrap : method unit) s s' :
  _print_filter_stats call_wrap s = (Return tt, s') ->
  call_wrap s = (Return tt, s').
Proof.
  unfold _print_filter_stats. intros H.
  apply bind_method_Return in H as (d & s1 & [= <- <-] & H).
  apply bind_method_Return in H as ([] & s1 & Hb & H).
  rewrite Hb. f_equal.
  apply bind_method_Return in H as (v & s2 & [= <- <-] & H).
  destruct (verbose s1); [|by inversion H].
  apply bind_method_Return in H as (o & s2 & [= <- <-] & H).
  destruct (_ =? _)%nat; by inversion H.
Qed.

Lemma frame_eta d : mkDataFrame (columns d) (rows d) = d.
Proof. by destruct d. Qed.

Lemma for_each_lacks ps : forall s s',
  for_each ps (fun p => filter_df (str_lacks p "url")) s = (Return tt, s') ->
  s' = with_df (mkDataFrame (columns (df s))
                  (List.filter (lacks_all ps) (rows (df s)))) s /\
  (ps <> [] -> texts "url" (df s)).
Proof.
  induction ps as [|p ps IH]; intros s s' H; simpl in H.
  - inversion H; subst. unfold lacks_all. simpl.
    rewrite filter_true, frame_eta. by destruct s'.
  - apply bind_method_Return in H as ([] & s1 & H1 & H).
    apply filter_df_Return in H1 as (m & Hm & ->).
    apply str_lacks_Return in Hm as [Htext Hm].
    apply IH in H as [-> _]. split; [|done].
    simpl. rewrite Hm, filter_filter. done.
Qed.

Lemma url_filter_Return is_bot f s s' :
  f ∈ [Locales; Files; CommonStrings] ->
  run_filter is_bot f s = (Return tt, s') ->
  texts "url" (df s) /\
  df s' = mkDataFrame (columns (df s))
            (List.filter (lacks_all (url_patterns f)) (rows (df s))).
Proof.
  intros Hf H.
  assert (exists name s1,
    for_each (url_patterns f) (fun p => filter_df (str_lacks p "url")) s
      = (Return tt, s1) /\ s' = with_filter_name name s1) as (name & s1 & Hl & ->).
  { repeat (apply elem_of_cons in Hf as [->|Hf]); [| | |by apply elem_of_nil in Hf];
      simpl in H; apply print_filter_stats_Return in H.
    - unfold filter_locales_body in H.
      apply bind_method_Return in H as ([] & s1 & H1 & [= <-]). eauto.
    - apply bind_method_Return in H as ([] & s1 & H1 & [= <-]).
      exists "files", s1. split; [|done]. simpl.
      unfold mbind, method_bind, m_bind. by rewrite H1.
    - unfold filter_common_strings_body in H.
      apply bind_method_Return in H as ([] & s1 & H1 & [= <-]). eauto. }
  apply for_each_lacks in Hl as [-> Ht]. split; [|done].
  apply Ht. repeat (apply elem_of_cons in Hf as [->|Hf]); try done.
  by apply elem_of_nil in Hf.
Qed.

(** X10: when [filter_locales], [filter_files] or [filter_common_strings]
    returns, the table holds, in their old order, exactly the rows whose URL
    is text in which none of the filter's patterns is found, read as regular
    expressions; the passes of the loop amount to one pass, and a row whose
    URL is null is dropped although no pattern is found in it. *)
Theorem url_filters_keep_rows_matching_no_pattern
  (is_bot : string -> bool) (f : filter_call) (s s' : ErddapLogParser) :
  f ∈ [Locales; Files; CommonStrings] ->
  run_filter is_bot f s = (Return tt, s') ->
  columns (df s') = columns (df s) /\
  rows (df s') = List.filter (lacks_all (url_patterns f)) (rows (df s)) /\
  forall r, r ∈ rows (df s) -> Polars.cell "url" r = None -> r ∉ rows (df s').
Proof.
  intros Hf H. destruct (url_filter_Return is_bot f s s' Hf H) as [_ ->].
  split_and!; [done|done|]. simpl. intros r _ Hnull Hin.
  apply list_elem_of_In, List.filter_In in Hin as [_ Hin].
  assert (lacks_all (url_patterns f) r = false) as Hno; [|congruence].
  unfold lacks_all.
  repeat (apply elem_of_cons in Hf as [->|Hf]); [| | |by apply elem_of_nil in Hf];
    simpl; unfold lacks, url_text; by rewrite Hnull.
Qed.

Lemma url_filters_keep_rows_matching_no_pattern_witness :
  (Files ∈ [Locales; Files; CommonStrings] /\
   run_filter Demo.no_bots Files Demo.loaded
     = (Return tt, snd (run_filter Demo.no_bots Files Demo.loaded))) /\
  rows (df (snd (run_filter Demo.no_bots Files Demo.loaded)))
    = List.filter (lacks_all (url_patterns Files)) (rows (df Demo.loaded)).
Proof.
  split; [split; [apply list_elem_of_In; simpl; tauto|vm_compute; reflexivity]|].
  refine (proj1 (proj2 (url_filters_keep_rows_matching_no_pattern
                          Demo.no_bots Files Demo.loaded _ _ _))).
  - apply list_elem_of_In; simpl; tauto.
  - vm_compute; reflexivity.
Defined.

Lemma accepts_prefix atoms : forall p u,
  accepts atoms p = true -> String.prefix p u = true ->
  is_Some (Regex.match_len false atoms u).
Proof.
  induction atoms as [|a atoms IH]; intros p u Ha Hp.
  - by eexists.
  - destruct a as [c| |]; destruct p as [|x p]; simpl in Ha; try done;
      apply andb_prop in Ha as [Hx Ha];
      (destruct u as [|y u]; [done|]); simpl in Hp;
      destruct (ascii_dec x y) as [<-|]; try done; simpl.
    + unfold Regex.char_eqb. rewrite Hx.
      destruct (IH p u Ha Hp) as [n ->]. by eexists.
    + apply negb_true_iff in Hx. rewrite Hx.
      destruct (IH p u Ha Hp) as [n ->]. by eexists.
Qed.

Lemma contains_search p u :
  plain p = true -> PyStr.contains p u = true ->
  Regex.search (Regex.compile p) u = true.
Proof.
  unfold plain. intros [Hci Ha]%andb_prop. apply negb_true_iff in Hci.
  induction u as [|y u IH]; cbn [PyStr.contains Regex.search]; intros Hc.
  - rewrite orb_false_r in Hc. unfold Regex.match_at. rewrite Hci.
    by destruct (accepts_prefix _ _ _ Ha Hc) as [n ->].
  - unfold Regex.match_at. rewrite Hci.
    apply orb_prop in Hc as [Hc|Hc].
    + by destruct (accepts_prefix _ _ _ Ha Hc) as [n ->].
    + destruct (Regex.match_len _ _ _); [done|]. by apply IH.
Qed.

Lemma prefix_app a b : forall u,
  String.prefix (a +:+ b) u = true -> String.prefix a u = true.
Proof.
  induction a as [|x a IH]; intros u H; [by destruct u|].
  rewrite append_cons in H. destruct u as [|y u]; [done|].
  cbn [String.prefix] in *. destruct (ascii_dec x y); [by apply IH|done].
Qed.

Lemma contains_app a b u :
  PyStr.contains (a +:+ b) u = true -> PyStr.contains a u = true.
Proof.
  induction u as [|y u IH]; cbn [PyStr.contains]; intros H;
    apply orb_prop in H as [H|H]; try done.
  - by rewrite (prefix_app a b _ H).
  - by rewrite (prefix_app a b _ H).
  - rewrite (IH H). apply orb_true_r.
Qed.

(** X11: after [filter_locales], [filter_files] or [filter_common_strings]
    has returned, every row left comes from the old table and has a text URL
    that contains none of the filter's strings; since [.js] is one of the
    common strings, no request for a [.json] file is left. *)
Theorem url_filters_leave_no_listed_string
  (is_bot : string -> bool) (f : filter_call) (s s' : ErddapLogParser) :
  f ∈ [Locales; Files; CommonStrings] ->
  run_filter is_bot f s = (Return tt, s') ->
  forall r, r ∈ rows (df s') ->
    r ∈ rows (df s) /\
    exists u, Polars.cell "url" r = Some (DStr u) /\
      (forall p, p ∈ url_patterns f -> PyStr.contains p u = false) /\
      (f = CommonStrings -> PyStr.contains ".json" u = false).
Proof.
  intros Hf H r Hr. destruct (url_filter_Return is_bot f s s' Hf H) as [_ Hdf].
  rewrite Hdf in Hr. simpl in Hr.
  apply list_elem_of_In, List.filter_In in Hr as [Hin Hl].
  split; [by apply list_elem_of_In|].
  assert (forallb plain (url_patterns f) = true) as Hplain.
  { repeat (apply elem_of_cons in Hf as [->|Hf]); try (vm_compute; reflexivity).
    by apply elem_of_nil in Hf. }
  unfold lacks_all in Hl. rewrite forallb_forall in Hl, Hplain.
  assert (exists u, Polars.cell "url" r = Some (DStr u)) as [u Hu].
  { assert (exists p, p ∈ url_patterns f) as [p Hp].
    { repeat (apply elem_of_cons in Hf as [->|Hf]);
        try (eexists; apply list_elem_of_here). by apply elem_of_nil in Hf. }
    apply list_elem_of_In, Hl in Hp. unfold lacks, url_text, text_of in Hp.
    destruct (Polars.cell "url" r) as [[u| | |]|]; try done. by exists u. }
  assert (forall p, p ∈ url_patterns f -> PyStr.contains p u = false) as Hnone.
  { intros p Hp. apply list_elem_of_In in Hp.
    specialize (Hl p Hp). specialize (Hplain p Hp).
    unfold lacks, url_text in Hl. rewrite Hu in Hl. simpl in Hl.
    apply negb_true_iff in Hl.
    destruct (PyStr.contains p u) eqn:Hc; [|done].
    by rewrite (contains_search p u Hplain Hc) in Hl. }
  exists u. split_and!; [done|done|]. intros ->.
  assert (PyStr.contains ".js" u = false) as Hjs.
  { apply Hnone. apply list_elem_of_In. simpl. tauto. }
  destruct (PyStr.contains ".json" u) eqn:Hjson; [|done].
  change ".json" with (".js" +:+ "on") in Hjson.
  apply contains_app in Hjson. congruence.
Qed.

Lemma url_filters_leave_no_listed_string_witness :
  (CommonStrings ∈ [Locales; Files; CommonStrings] /\
   run_filter Demo.no_bots CommonStrings Demo.loaded
     = (Return tt, snd (run_filter Demo.no_bots CommonStrings Demo.loaded))) /\
  Forall (fun r => r ∈ rows (df Demo.loaded))
    (rows (df (snd (run_filter Demo.no_bots CommonStrings Demo.loaded)))).
Proof.
  split; [split; [apply list_elem_of_In; simpl; tauto|vm_compute; reflexivity]|].
  apply Forall_forall. intros r Hr.
  refine (proj1 (url_filters_leave_no_listed_string
                   Demo.no_bots CommonStrings Demo.loaded _ _ _ r Hr)).
  - apply list_elem_of_In; simpl; tauto.
  - vm_compute; reflexivity.
Defined.

(** ** The dot of a pattern, and [filter_non_erddap] *)

Lemma search_app re pre : forall t,
  is_Some (Regex.match_at re t) -> Regex.search re (pre +:+ t) = true.
Proof.
  induction pre as [|x pre IH]; intros t Ht.
  - change (EmptyString +:+ t) with t. destruct t; simpl; by destruct Ht as [n ->].
  - rewrite append_cons. cbn [Regex.search].
    destruct (Regex.match_at re (String x (pre +:+ t))); [done|]. by apply IH.
Qed.

(** X12: the patterns of [filter_common_strings] are regular expressions,
    so the dot of [.js] stands for any character but a line feed: a row
    whose URL has [js] after any such character is dropped, dot or not. *)
Theorem common_strings_dot_matches_any_character
  (is_bot : string -> bool) (s s' : ErddapLogParser) (r : row)
  (pre post : string) (c : ascii) :
  run_filter is_bot CommonStrings s = (Return tt, s') ->
  Polars.cell "url" r = Some (DStr (pre +:+ String c ("js" +:+ post))) ->
  Regex.is_newline c = false ->
  r ∉ rows (df s').
Proof.
  intros H Hu Hc Hin.
  destruct (url_filter_Return is_bot CommonStrings s s') as [_ Hdf];
    [apply list_elem_of_In; simpl; tauto|done|].
  rewrite Hdf in Hin. simpl in Hin.
  apply list_elem_of_In, List.filter_In in Hin as [_ Hl].
  unfold lacks_all in Hl. rewrite forallb_forall in Hl.
  specialize (Hl ".js"). unfold lacks, url_text in Hl. rewrite Hu in Hl.
  simpl in Hl. rewrite search_app in Hl; [by discriminate Hl; tauto|].
  unfold Regex.match_at. simpl. rewrite Hc. by eexists.
Qed.

Definition not_a_script : row := Demo.request "10.0.0.7" 9 "/erddap/info/ajs/index.html".

Lemma common_strings_dot_matches_any_character_witness :
  (run_filter Demo.no_bots CommonStrings (with_df (mkDataFrame Demo.log_columns [not_a_script]) init)
     = (Return tt, with_filter_name "common strings"
                     (with_df (mkDataFrame Demo.log_columns []) init)) /\
   Polars.cell "url" not_a_script
     = Some (DStr ("/erddap/info/" +:+ String "a" ("js" +:+ "/index.html"))) /\
   Regex.is_newline "a" = false) /\
  not_a_script ∉ rows (df (with_filter_name "common strings"
                             (with_df (mkDataFrame Demo.log_columns []) init))).
Proof.
  split; [split_and!; vm_compute; reflexivity|].
  refine (common_strings_dot_matches_any_character Demo.no_bots
            (with_df (mkDataFrame Demo.log_columns [not_a_script]) init) _
            not_a_script "/erddap/info/" "/index.html" "a" _ _ _);
    vm_compute; reflexivity.
Defined.

Fixpoint literal (atoms : list Regex.atom) : bool :=
  match atoms with
  | [] => true
  | Regex.Lit _ :: atoms' => literal atoms'
  | _ => false
  end.

Lemma literal_prefix atoms : forall p u,
  literal atoms = true -> accepts atoms p = true ->
  is_Some (Regex.match_len false atoms u) -> String.prefix p u = true.
Proof.
  induction atoms as [|a atoms IH]; intros p u Hl Ha Hm.
  - destruct p; [by destruct u|done].
  - destruct a as [c| |]; try done. destruct p as [|x p]; [done|].
    simpl in Ha. apply andb_prop in Ha as [Hx Ha].
    apply Ascii.eqb_eq in Hx as ->.
    destruct u as [|y u]; simpl in Hm; [by destruct Hm|].
    unfold Regex.char_eqb in Hm. cbn [String.prefix].
    destruct (Ascii.eqb_spec y c) as [->|]; [|by destruct Hm].
    destruct (ascii_dec c c); [|done].
    apply (IH p u Hl Ha). destruct (Regex.match_len false atoms u); [by eexists|].
    by destruct Hm.
Qed.

Lemma search_literal p u :
  plain p = true -> literal (Regex.atoms (Regex.compile p)) = true ->
  Regex.search (Regex.compile p) u = PyStr.contains p u.
Proof.
  intros Hp Hl. destruct (PyStr.contains p u) eqn:Hc; [by apply contains_search|].
  apply andb_prop in Hp as [Hci Ha]. apply negb_true_iff in Hci.
  induction u as [|y u IH]; cbn [PyStr.contains Regex.search] in *;
    apply orb_false_iff in Hc as [Hpre Hc]; unfold Regex.match_at; rewrite Hci;
    destruct (Regex.match_len _ _ _) eqn:Hm; try done.
  - rewrite (literal_prefix _ p EmptyString Hl Ha) in Hpre; [done|].
    rewrite Hm. by eexists.
  - rewrite (literal_prefix _ p (String y u) Hl Ha) in Hpre; [done|].
    rewrite Hm. by eexists.
  - by apply IH.
Qed.

(** the URL of the row is text that contains [p] *)
Definition url_has (p : string) (r : row) : bool :=
  match url_text r with
  | Some u => PyStr.contains p u
  | None => false
  end.

(** X13: when [filter_non_erddap] returns, the table holds, in their old
    order, exactly the rows whose URL is text containing [erddap] in lower
    case; rows with a null URL are dropped. *)
Theorem filter_non_erddap_keeps_erddap_urls (s s' : ErddapLogParser) :
  filter_non_erddap s = (Return tt, s') ->
  columns (df s') = columns (df s) /\
  rows (df s') = List.filter (url_has "erddap") (rows (df s)) /\
  filter_name s' = Some "non erddap".
Proof.
  intros H. apply print_filter_stats_Return in H.
  apply bind_method_Return in H as ([] & s1 & [= <-] & H).
  apply filter_df_Return in H as (m & Hm & ->). simpl.
  split_and!; [done| |done].
  unfold str_contains in Hm.
  change (df (with_filter_name "non erddap" s)) with (df s) in Hm.
  destruct (Polars.get_column "url" (df s)) as [vs|] eqn:Hg; simpl in Hm;
    [|discriminate].
  apply get_column_Return in Hg as ->.
  destruct (Polars.as_strings _) as [ss|] eqn:Hs; simpl in Hm; [|discriminate].
  apply as_strings_Return in Hs as [-> _]. inversion Hm; subst m.
  rewrite !map_map, keep_rows_map. apply filter_ext_in. intros r _.
  unfold url_has, url_text. destruct (text_of (Polars.cell "url" r)) as [u|]; [|done].
  simpl. by apply search_literal.
Qed.

Lemma filter_non_erddap_keeps_erddap_urls_witness :
  filter_non_erddap Demo.loaded = (Return tt, snd (filter_non_erddap Demo.loaded)) /\
  rows (df (snd (filter_non_erddap Demo.loaded)))
    = List.filter (url_has "erddap") (rows (df Demo.loaded)).
Proof.
  split; [vm_compute; reflexivity|].
  refine (proj1 (proj2 (filter_non_erddap_keeps_erddap_urls Demo.loaded _ _))).
  vm_compute; reflexivity.
Defined.

(** ** [filter_spam] *)

Lemma keys_count_fold {A} `{EqDecision A} (xs : list A) : forall c x,
  x ∈ map fst (foldl (fun c x => Counter.bump x c) c xs) <->
  x ∈ map fst c \/ x ∈ xs.
Proof.
  induction xs as [|y xs IH]; intros c x; simpl.
  - rewrite elem_of_nil. tauto.
  - rewrite IH, keys_bump, elem_of_cons. case_decide as Hy.
    + split; [tauto|]. intros [?|[->|?]]; auto.
    + rewrite elem_of_app, list_elem_of_singleton. tauto.
Qed.

Lemma keys_most_common {A} `{EqDecision A} (xs : list A) (x : A) :
  x ∈ map fst (Counter.most_common xs) <-> x ∈ xs.
Proof.
  unfold Counter.most_common. rewrite sort_desc_perm.
  unfold Counter.count. rewrite keys_count_fold. simpl.
  rewrite elem_of_nil. tauto.
Qed.

(** the URL of the row is text that contains none of the phrases *)
Definition url_free_of (phrases : list string) (r : row) : bool :=
  match url_text r with
  | Some u => forallb (fun phrase => negb (PyStr.contains phrase u)) phrases
  | None => false
  end.

Lemma page_hits_Return phrases page hits :
  phrases <> [] -> page_hits phrases page = Return hits ->
  exists p, page = Some (DStr p) /\
    forall x, x ∈ hits <->
      x = p /\ existsb (fun phrase => PyStr.contains phrase p) phrases = true.
Proof.
  intros Hne H.
  assert (exists p, page = Some (DStr p) /\
            hits = flat_map (fun phrase =>
                     if PyStr.contains phrase p then [p] else []) phrases)
    as (p & -> & ->).
  { unfold page_hits in H. destruct phrases as [|ph phrases]; [done|].
    destruct page as [[p| | |]|]; try discriminate. exists p.
    split; [done|]. congruence. }
  exists p. split; [done|]. intros x.
  rewrite list_elem_of_In, in_flat_map, existsb_exists. split.
  - intros (phrase & Hin & Hx). destruct (PyStr.contains phrase p) eqn:Hc.
    + destruct Hx as [<-|[]]. eauto.
    + destruct Hx.
  - intros (-> & phrase & Hin & Hc). exists phrase. split; [done|].
    rewrite Hc. by left.
Qed.

Lemma bad_pages_Return phrases pages : forall bad,
  phrases <> [] -> bad_pages phrases pages = Return bad ->
  Forall (fun k => exists p, k = Some (DStr p)) (map fst pages) /\
  forall x, x ∈ bad <->
    Some (DStr x) ∈ map fst pages /\
    existsb (fun phrase => PyStr.contains phrase x) phrases = true.
Proof.
  induction pages as [|[page n] pages IH]; intros bad Hne H; simpl in H.
  - inversion H; subst. split; [constructor|]. intros x. simpl.
    rewrite !elem_of_nil. tauto.
  - destruct (page_hits phrases page) as [hits|] eqn:Hh; simpl in H;
      [|discriminate].
    destruct (bad_pages phrases pages) as [rest|] eqn:Hr; simpl in H;
      [|discriminate].
    inversion H; subst bad.
    apply page_hits_Return in Hh as (p & -> & Hhits); [|done].
    destruct (IH rest Hne eq_refl) as [Hall Hrest].
    split; [constructor; eauto|]. intros x. simpl.
    rewrite elem_of_app, elem_of_cons, Hhits, Hrest. split.
    + intros [[-> ?]|[? ?]]; auto.
    + intros [[[= ->]|?] ?]; auto.
Qed.

(** X14: when [filter_spam] returns, every URL of the table it found was
    text, and the table holds, in their old order, exactly the rows whose
    URL contains none of the nine spam phrases; the phrases are looked for
    as plain text, not as patterns. *)
Theorem filter_spam_keeps_urls_free_of_phrases (s s' : ErddapLogParser) :
  filter_spam s = (Return tt, s') ->
  Forall (fun r => exists u, Polars.cell "url" r = Some (DStr u)) (rows (df s)) /\
  columns (df s') = columns (df s) /\
  rows (df s') = List.filter (url_free_of default_spam_strings) (rows (df s)).
Proof.
  intros H. apply print_filter_stats_Return in H.
  unfold filter_spam_body in H.
  apply bind_method_Return in H as (d & s1 & [= <- <-] & H).
  apply bind_method_Return in H as (urls & s1 & [= Hg <-] & H).
  apply bind_method_Return in H as (bad & s1 & [= Hb <-] & H).
  apply bind_method_Return in H as ([] & s1 & H & [= <-]).
  apply filter_df_Return in H as (m & Hm & ->). simpl.
  apply get_column_Return in Hg as Hurls.
  apply bad_pages_Return in Hb as [Hall Hbad]; [|done].
  assert (Forall (fun r => exists u, Polars.cell "url" r = Some (DStr u))
                 (rows (df s))) as Htext.
  { apply Forall_forall. intros r Hr. rewrite Forall_forall in Hall.
    destruct (Hall (Polars.cell "url" r)) as [p Hp]; [|by exists p].
    apply keys_most_common. subst urls. apply elem_of_map. by exists r. }
  split_and!; [done|done|].
  unfold not_is_in in Hm. rewrite Hg in Hm. simpl in Hm.
  destruct (Polars.as_strings urls) as [ss|] eqn:Hs; simpl in Hm; [|discriminate].
  apply as_strings_Return in Hs as [-> _]. inversion Hm; subst m.
  unfold Polars.mask_not. subst urls. rewrite !map_map, keep_rows_map.
  apply filter_ext_in. intros r Hr. rewrite Forall_forall in Htext.
  destruct (Htext r Hr) as [u Hu]. unfold url_free_of, url_text.
  rewrite Hu. cbn [text_of].
  destruct (forallb _ default_spam_strings) eqn:Hf; cbn [text_of option_map];
    simpl.
  - rewrite bool_decide_false; [done|]. intros [_ He]%Hbad.
    apply existsb_exists in He as (phrase & Hin & Hc).
    rewrite forallb_forall in Hf. specialize (Hf phrase Hin).
    by rewrite Hc in Hf.
  - rewrite bool_decide_true; [done|]. apply Hbad. split.
    + apply keys_most_common, elem_of_map. exists r. by rewrite Hu.
    + apply not_true_iff_false in Hf. apply not_false_iff_true.
      intros He. apply Hf, forallb_forall. intros phrase Hin.
      destruct (PyStr.contains phrase u) eqn:Hc; [|done].
      exfalso. apply not_true_iff_false in He. apply He, existsb_exists. eauto.
Qed.

Lemma filter_spam_keeps_urls_free_of_phrases_witness :
  filter_spam (merged_tables Reference.engine)
    = (Return tt, snd (filter_spam (merged_tables Reference.engine))) /\
  rows (df (snd (filter_spam (merged_tables Reference.engine))))
    = List.filter (url_free_of default_spam_strings)
        (rows (df (merged_tables Reference.engine))).
Proof.
  split; [vm_compute; reflexivity|].
  refine (proj2 (proj2 (filter_spam_keeps_urls_free_of_phrases
                          (merged_tables Reference.engine) _ _))).
  vm_compute; reflexivity.
Defined.

(** ** Filters and [verbose] *)

(** [parser.verbose = v] *)
Definition with_verbose (v : bool) (s : ErddapLogParser) : ErddapLogParser :=
  mkParser (df s) (ip s) (df_xml s) v (original_total_requests s)
           (filter_name s) (unfiltered_df s) (location s) (anonymized s).

(** the method neither reads nor writes [verbose] *)
Definition silent {A} (m : method A) : Prop :=
  forall v s, m (with_verbose v s) = (fst (m s), with_verbose v (snd (m s))).

Lemma silent_attr {A} (f : ErddapLogParser -> A) :
  (forall v s, f (with_verbose v s) = f s) -> silent (attr f).
Proof. intros H v s. unfold attr. simpl. by rewrite H. Qed.

Lemma silent_assign (g : ErddapLogParser -> ErddapLogParser) :
  (forall v s, g (with_verbose v s) = with_verbose v (g s)) -> silent (assign g).
Proof. intros H v s. unfold assign. simpl. by rewrite H. Qed.

Lemma silent_raise {A} (e : exn) : silent (@raise A e).
Proof. by intros v s. Qed.

Lemma silent_call {A} (r : result A) : silent (call r).
Proof. by intros v s. Qed.

Lemma silent_pass : silent pass.
Proof. by intros v s. Qed.

Lemma silent_bind {A B} (m : method A) (f : A -> method B) :
  silent m -> (forall a, silent (f a)) -> silent (m ≫= f).
Proof.
  intros Hm Hf v s. unfold mbind, method_bind, m_bind. rewrite Hm.
  destruct (m s) as [[a|e] s1]; simpl; [apply Hf|done].
Qed.

Lemma silent_if {A} (b : bool) (m1 m2 : method A) :
  silent m1 -> silent m2 -> silent (if b then m1 else m2).
Proof. by destruct b. Qed.

Lemma silent_for_each {A} (xs : list A) (body : A -> method unit) :
  (forall x, silent (body x)) -> silent (for_each xs body).
Proof.
  intros Hb. induction xs as [|x xs IH]; simpl; [apply silent_pass|].
  apply silent_bind; [apply Hb|]. by intros _.
Qed.

Ltac silent_tac :=
  repeat first
    [ apply silent_for_each; intros ?
    | apply silent_if
    | apply silent_raise
    | apply silent_call
    | apply silent_pass
    | apply silent_attr; by intros ? ?
    | apply silent_assign; by intros ? ?
    | apply silent_bind; [|intros ?] ].

(** what [_print_filter_stats] wraps *)
Definition filter_body (is_bot : string -> bool) (f : filter_call) : method unit :=
  match f with
  | NonErddap =>
      assign (with_filter_name "non erddap");;
      filter_df (str_contains "erddap" "url")
  | Organisations => filter_organisations_body default_organisations
  | UserAgents =>
      filter_df (fun d =>
        vs ← Polars.get_column "user-agent" d ≫= Polars.as_strings;
        Return (Polars.mask_not (map (option_map is_bot) vs)));;
      assign (with_filter_name "user agents")
  | Locales => filter_locales_body default_locales
  | Spam => filter_spam_body default_spam_strings
  | Files =>
      filter_df (str_lacks "/files" "url");;
      assign (with_filter_name "files")
  | CommonStrings => filter_common_strings_body default_strings
  end.

Lemma run_filter_body is_bot f :
  run_filter is_bot f = _print_filter_stats (filter_body is_bot f).
Proof. by destruct f. Qed.

Lemma silent_filter_body is_bot f : silent (filter_body is_bot f).
Proof.
  destruct f; simpl;
    unfold filter_organisations_body, filter_locales_body, filter_spam_body,
      filter_common_strings_body, filter_df;
    silent_tac.
Qed.

Lemma print_filter_stats_run (call_wrap : method unit) s :
  snd (_print_filter_stats call_wrap s) = snd (call_wrap s) /\
  (verbose (snd (call_wrap s)) = false ->
   fst (_print_filter_stats call_wrap s) = fst (call_wrap s)) /\
  (verbose (snd (call_wrap s)) = true ->
   original_total_requests (snd (call_wrap s)) = 0 ->
   exists e, fst (_print_filter_stats call_wrap s) = Raise e).
Proof.
  unfold _print_filter_stats, mbind, method_bind, m_bind, attr, raise, pass, m_ret.
  simpl. destruct (call_wrap s) as [[[]|e] s1]; simpl.
  - destruct (verbose s1); simpl.
    + destruct (original_total_requests s1); simpl;
        split_and!; try done; by eexists.
    + split_and!; done.
  - split_and!; try done. by eexists.
Qed.

(** X15: a filter called with [verbose] on while [original_total_requests]
    is zero never returns: the report divides by that count.  The table has
    been filtered all the same; it is the one a silent call leaves. *)
Theorem verbose_filter_with_zero_total_raises
  (is_bot : string -> bool) (f : filter_call) (s : ErddapLogParser) :
  verbose s = true -> original_total_requests s = 0 ->
  (exists e, fst (run_filter is_bot f s) = Raise e) /\
  df (snd (run_filter is_bot f s))
    = df (snd (run_filter is_bot f (with_verbose false s))) /\
  filter_name (snd (run_filter is_bot f s))
    = filter_name (snd (run_filter is_bot f (with_verbose false s))).
Proof.
  intros Hv Ho. rewrite run_filter_body.
  destruct (print_filter_stats_run (filter_body is_bot f) s) as (Hs & _ & Hr).
  destruct (print_filter_stats_run (filter_body is_bot f) (with_verbose false s))
    as (Hs' & _ & _).
  rewrite Hs, Hs', (silent_filter_body is_bot f false s). simpl.
  split_and!; [|done|done].
  pose proof (keeps_run_filter is_bot f s) as Hk. rewrite run_filter_body in Hk.
  rewrite Hs in Hk. unfold kept in Hk.
  apply Hr; [|inversion Hk; congruence].
  inversion Hk. congruence.
Qed.

Lemma verbose_filter_with_zero_total_raises_witness :
  (verbose (with_verbose true (with_df Demo.apache_batch init)) = true /\
   original_total_requests (with_verbose true (with_df Demo.apache_batch init)) = 0) /\
  exists e, fst (run_filter Demo.no_bots Spam
                   (with_verbose true (with_df Demo.apache_batch init))) = Raise e.
Proof.
  split; [split; reflexivity|].
  refine (proj1 (verbose_filter_with_zero_total_raises Demo.no_bots Spam
                   (with_verbose true (with_df Demo.apache_batch init)) _ _));
    reflexivity.
Defined.

(** ** More on enrichment runs *)

Lemma cached_merged d x v : v ∈ cached d -> v ∈ cached (merged d x).
Proof.
  unfold cached. intros Hv. destruct (merged_prefix d x) as [k ->].
  rewrite map_app, elem_of_app. by left.
Qed.

Lemma fetch_new_fresh reply budget ips : forall fetched df_ip w r w',
  fetch_new reply budget ips fetched df_ip w = (r, w') ->
  exists issued,
    lookups w' = lookups w ++ issued /\
    csv_files w' = csv_files w /\
    sublist issued (map fst ips) /\
    Forall (fun v => v ∉ cached df_ip) issued.
Proof.
  induction ips as [|[ip count] rest IH]; intros fetched df_ip w r w' H; simpl in H.
  { inversion H; subst. exists []. by rewrite app_nil_r. }
  assert (forall w0, w' = w0 -> w0 = w ->
            exists issued, lookups w' = lookups w ++ issued /\
              csv_files w' = csv_files w /\
              sublist issued (map fst ((ip, count) :: rest)) /\
              Forall (fun v => v ∉ cached df_ip) issued) as Hnone.
  { intros w0 -> ->. exists []. rewrite app_nil_r.
    split_and!; [done|done|apply sublist_nil_l|constructor]. }
  destruct (Polars.get_column "query" df_ip) as [known|e] eqn:Hq.
  2:{ inversion H; subst. by eapply Hnone. }
  apply get_column_Return in Hq. fold (cached df_ip) in Hq. subst known.
  destruct (bool_decide (ip ∈ cached df_ip)) eqn:Hin.
  { apply IH in H as (issued & ? & ? & ? & ?). exists issued.
    split_and!; try done. simpl. by apply sublist_cons. }
  apply bool_decide_eq_false in Hin.
  destruct (budget <=? fetched)%Z.
  { inversion H; subst. by eapply Hnone. }
  assert (forall w0, w' = w0 -> w0 = sent ip w ->
            exists issued, lookups w' = lookups w ++ issued /\
              csv_files w' = csv_files w /\
              sublist issued (map fst ((ip, count) :: rest)) /\
              Forall (fun v => v ∉ cached df_ip) issued) as Hone.
  { intros w0 -> ->. exists [ip]. split_and!; [done|done| |by constructor].
    simpl. apply sublist_skip, sublist_nil_l. }
  assert (forall d fetched',
            (forall v, v ∈ cached df_ip -> v ∈ cached d) ->
            fetch_new reply budget rest fetched' d (sent ip w) = (r, w') ->
            exists issued, lookups w' = lookups w ++ issued /\
              csv_files w' = csv_files w /\
              sublist issued (map fst ((ip, count) :: rest)) /\
              Forall (fun v => v ∉ cached df_ip) issued) as Hgo.
  { intros d fetched' Hd Hf. apply IH in Hf as (issued & Hl & Hc & Hs & Hfr).
    exists (ip :: issued). split_and!.
    - rewrite Hl. simpl. by rewrite <- app_assoc.
    - done.
    - simpl. by apply sublist_skip.
    - constructor; [done|]. eapply Forall_impl; [exact Hfr|].
      intros v Hv Hv'. by apply Hv, Hd. }
  destruct (reply (length (lookups w)) ip) as [|status json] eqn:Hreply.
  { inversion H; subst. by eapply Hone. }
  destruct (status =? 429)%Z eqn:Hs.
  { inversion H; subst. by eapply Hone. }
  destruct json as [resp|].
  2:{ inversion H; subst. by eapply Hone. }
  pose proof (cached_merged df_ip (Http status (Some resp))) as Hm.
  simpl in Hm. rewrite Hs in Hm.
  destruct (concat_diagonal df_ip (frame_of_dict resp)) as [d0|e] eqn:Hc.
  { eapply Hgo; [|exact H]. intros v Hv. by apply Hm. }
  destruct e; try (inversion H; subst; by eapply Hone);
    (eapply Hgo; [|exact H]; done).
Qed.

Lemma NoDup_keys_most_common {A} `{EqDecision A} (xs : list A) :
  NoDup (map fst (Counter.most_common xs)).
Proof.
  unfold Counter.most_common. rewrite sort_desc_perm.
  by destruct (count_fold xs [] []) as [Hnd _]; [constructor|done|].
Qed.

Lemma sublist_NoDup {A} (l k : list A) : sublist l k -> NoDup k -> NoDup l.
Proof.
  induction 1 as [|x l k Hs IH|x l k Hs IH]; intros Hk; [done|..].
  - apply NoDup_cons in Hk as [Hx Hk]. apply NoDup_cons. split; [|by apply IH].
    intros Hin. apply Hx. eapply elem_of_sublist; [exact Hin|]. done.
  - apply NoDup_cons in Hk as [_ Hk]. by apply IH.
Qed.

(** X16: whatever the service answers, one run of [_get_ip_info] looks up
    only addresses of the table, none of them twice, and none that the
    cache it started from already holds. *)
Theorem lookups_are_new_addresses_of_the_table
  (reply : service) (d : DataFrame) (ip_info_csv : string) (download_new : bool)
  (num_new_ips : Z) (w : World) :
  exists issued,
    lookups (snd (_get_ip_info reply d ip_info_csv download_new num_new_ips w))
      = lookups w ++ issued /\
    NoDup issued /\
    forall v, v ∈ issued ->
      v ∈ map (Polars.cell "ip") (rows d) /\
      v ∉ cached (cache_at_start ip_info_csv w).
Proof.
  unfold _get_ip_info.
  assert (exists issued : list value, lookups w = lookups w ++ issued /\
            NoDup issued /\
            forall v, v ∈ issued ->
              v ∈ map (Polars.cell "ip") (rows d) /\
              v ∉ cached (cache_at_start ip_info_csv w)) as Hnone.
  { exists []. rewrite app_nil_r. split_and!; [done|constructor|].
    by intros v Hv%elem_of_nil. }
  destruct (Polars.get_column "ip" d) as [ips|e] eqn:Hips; [|done].
  apply get_column_Return in Hips.
  fold (cache_at_start ip_info_csv w).
  destruct download_new; [|done].
  destruct (fetch_new _ _ _ _ _ _) as [r1 w1] eqn:Hf.
  apply fetch_new_fresh in Hf as (issued & Hl & _ & Hsub & Hfresh).
  exists issued. split_and!.
  - by destruct r1.
  - eapply sublist_NoDup; [exact Hsub|apply NoDup_keys_most_common].
  - intros v Hv. split.
    + rewrite <- Hips. apply keys_most_common.
      eapply elem_of_sublist; [exact Hv|done].
    + rewrite Forall_forall in Hfresh. by apply Hfresh.
Qed.

(** X17: a run of [_get_ip_info] that raises writes no file: the cache
    file, if there is one, is as before the run, and the answers to the
    lookups already sent in the run are lost. *)
Theorem failed_enrichment_writes_no_cache
  (reply : service) (d : DataFrame) (ip_info_csv : string) (download_new : bool)
  (num_new_ips : Z) (w : World) (e : exn) :
  fst (_get_ip_info reply d ip_info_csv download_new num_new_ips w) = Raise e ->
  csv_files (snd (_get_ip_info reply d ip_info_csv download_new num_new_ips w))
    = csv_files w.
Proof.
  unfold _get_ip_info.
  destruct (Polars.get_column "ip" d) as [ips|e0]; [|done].
  destruct download_new; [|done].
  destruct (fetch_new _ _ _ _ _ _) as [r1 w1] eqn:Hf.
  apply fetch_new_fresh in Hf as (issued & _ & Hcsv & _).
  by destruct r1.
Qed.

(** a service that answers the first lookup and is then out of reach *)
Definition flaky : service :=
  fun n ip => if (n =? 0)%nat then Http 200 (Some (DemoNet.answer ip))
              else ConnectionFailed.

Lemma failed_enrichment_writes_no_cache_witness :
  fst (_get_ip_info flaky DemoNet.requests "ip.csv" true 60 DemoNet.offline)
    = Raise RequestException /\
  length (lookups (snd (_get_ip_info flaky DemoNet.requests "ip.csv" true 60
                          DemoNet.offline))) = 2 /\
  csv_files (snd (_get_ip_info flaky DemoNet.requests "ip.csv" true 60
                    DemoNet.offline))
    = csv_files DemoNet.offline.
Proof.
  split; [vm_compute; reflexivity|]. split; [vm_compute; reflexivity|].
  refine (failed_enrichment_writes_no_cache flaky DemoNet.requests "ip.csv" true 60
            DemoNet.offline RequestException _).
  vm_compute; reflexivity.
Defined.

Lemma merged_columns d x c : c ∈ columns d -> c ∈ columns (merged d x).
Proof.
  intros Hc. destruct x as [|status [resp|]]; simpl; [done| |done].
  destruct (status =? 429)%Z; [done|].
  unfold concat_diagonal. destruct (same_types _ _); [|done].
  simpl. rewrite elem_of_app. by left.
Qed.

Lemma foldl_merged_columns xs c : forall d,
  c ∈ columns d -> c ∈ columns (foldl merged d xs).
Proof.
  induction xs as [|x xs IH]; intros d Hc; simpl; [done|].
  by apply IH, merged_columns.
Qed.

Lemma length_flat_map_ge {A B} (f : A -> list B) (l : list A) :
  (forall x, 1 <= length (f x)) -> length l <= length (flat_map f l).
Proof.
  intros Hf. induction l as [|x l IH]; simpl; [done|].
  rewrite length_app. specialize (Hf x). lia.
Qed.

Lemma join_left_Return left right l r d :
  Frame.join_left left right l r = Return d ->
  Polars.height left <= Polars.height d /\
  (forall c, c ∈ columns left -> c ∈ columns d) /\
  (forall c, c ∈ columns right -> c <> r -> c ∉ columns left -> c ∈ columns d).
Proof.
  unfold Frame.join_left.
  destruct (negb (Polars.has_column l left)); [done|].
  destruct (negb (Polars.has_column r right)); [done|].
  intros [= <-]. simpl. split_and!.
  - unfold Polars.height. simpl. apply length_flat_map_ge. intros lr.
    destruct (Polars.cell l lr); [|simpl; lia].
    destruct (List.filter _ (rows right)); simpl; lia.
  - intros c Hc. rewrite elem_of_app. by left.
  - intros c Hc Hne Hnot. rewrite elem_of_app. right.
    apply elem_of_map. exists c. split.
    + unfold Frame.joined_name, Polars.has_column.
      by rewrite bool_decide_false.
    + apply list_elem_of_In, List.filter_In. split; [by apply list_elem_of_In|].
      apply negb_true_iff, String.eqb_neq. done.
Qed.

(** X18: when [get_ip_info] returns it has dropped no request: the table
    has at least as many rows as before and is in timestamp order; and if
    the cache it started from has a [country] column, as the one made without
    a cache file has, the table now has that column, so that a further call,
    whatever its arguments, does nothing. *)
Theorem get_ip_info_keeps_requests_and_settles
  (E : Engine) (reply : service) (ip_info_csv : string) (download_new : bool)
  (num_ips : Z) (s s' : ErddapLogParser) (w w' : World) :
  get_ip_info E reply ip_info_csv download_new num_ips s w = (Return tt, s', w') ->
  Polars.height (df s) <= Polars.height (df s') /\
  (Polars.has_column "country" (df s) = false ->
     Sorted (Polars.row_le "datetime") (rows (df s')) /\
     csv_files w' !! ip_info_csv = Some (ip s')) /\
  (Polars.has_column "country" (cache_at_start ip_info_csv w) = true ->
     forall reply' path' download' num',
       get_ip_info E reply' path' download' num' s' w' = (Return tt, s', w')).
Proof.
  unfold get_ip_info at 1.
  destruct (Polars.has_column "country" (df s)) eqn:Hcountry.
  { intros [= <- <-]. split_and!; [done|done|].
    intros _ reply' path' download' num'. unfold get_ip_info. by rewrite Hcountry. }
  destruct (_get_ip_info _ _ _ _ _ _) as [[df_ip|e] w1] eqn:Hrun; [|done].
  simpl.
  destruct (Frame.join_left (df s) df_ip "ip" "query") as [joined|] eqn:Hj;
    simpl; [|done].
  destruct (Frame.sort E "datetime" joined) as [sorted|] eqn:Hs; simpl; [|done].
  intros [= <- <-]. simpl.
  pose proof (sort_Return _ _ _ _ Hs) as Hrows.
  apply join_left_Return in Hj as (Hh & Hleft & Hright).
  assert (columns sorted = columns joined) as Hcols.
  { unfold Frame.sort in Hs.
    destruct (Polars.has_column "datetime" joined); [|discriminate].
    by inversion Hs. }
  apply get_ip_info_spec in Hrun as (issued & _ & _ & _ & _ & Hret).
  destruct (Hret df_ip eq_refl) as [Hdf Hcsv].
  split_and!.
  - unfold Polars.height in *. rewrite Hrows, (sort_rows_perm E). done.
  - intros _. split; [rewrite Hrows; apply sort_rows_sorted|].
    rewrite Hcsv. apply lookup_insert_eq.
  - intros Hcache reply' path' download' num'. unfold get_ip_info. simpl.
    assert (Polars.has_column "country" sorted = true) as ->; [|done].
    unfold Polars.has_column in *. apply bool_decide_eq_true.
    rewrite Hcols. apply Hright; [|done|].
    + rewrite Hdf. apply foldl_merged_columns. by apply bool_decide_eq_true in Hcache.
    + by apply bool_decide_eq_false in Hcountry.
Qed.

Lemma get_ip_info_keeps_requests_and_settles_witness :
  get_ip_info Reference.engine DemoNet.strict "ip.csv" true 60
    (with_df DemoNet.requests init) DemoNet.offline
  = (Return tt,
     snd (fst (get_ip_info Reference.engine DemoNet.strict "ip.csv" true 60
                 (with_df DemoNet.requests init) DemoNet.offline)),
     snd (get_ip_info Reference.engine DemoNet.strict "ip.csv" true 60
            (with_df DemoNet.requests init) DemoNet.offline)) /\
  Polars.height (df (with_df DemoNet.requests init))
    <= Polars.height
         (df (snd (fst (get_ip_info Reference.engine DemoNet.strict "ip.csv" true 60
                          (with_df DemoNet.requests init) DemoNet.offline)))).
Proof.
  split; [vm_compute; reflexivity|].
  refine (proj1 (get_ip_info_keeps_requests_and_settles Reference.engine
                   DemoNet.strict "ip.csv" true 60
                   (with_df DemoNet.requests init) _ DemoNet.offline _ _)).
  vm_compute; reflexivity.
Defined.

(** ** The order of the lookups *)

Lemma cached_foldl_merged xs : forall d v,
  v ∈ cached d -> v ∈ cached (foldl merged d xs).
Proof.
  induction xs as [|x xs IH]; intros d v Hv; simpl; [done|].
  by apply IH, cached_merged.
Qed.

Lemma last_cons_Some {A} (x y : A) (l : list A) :
  last l = Some y -> last (x :: l) = Some y.
Proof. destruct l; [done|]. by intros. Qed.

Lemma fetch_new_without_query reply budget ips fetched df_ip w :
  Polars.has_column "query" df_ip = false ->
  snd (fetch_new reply budget ips fetched df_ip w) = w.
Proof.
  intros Hq. destruct ips as [|[ip count] rest]; simpl; [done|].
  unfold Polars.get_column. by rewrite Hq.
Qed.

(** every lookup of the loop goes to the first address of [ip_counts], among
    those the loop has not passed yet, that the cache table as it then
    stands does not hold; and the loop goes on until the addresses or the
    budget run out or a reply halts it *)
Lemma fetch_new_order reply budget ips : forall fetched df_ip w r w',
  fetch_new reply budget ips fetched df_ip w = (r, w') ->
  Polars.has_column "query" df_ip = true ->
  exists issued,
    lookups w' = lookups w ++ issued /\
    (forall i v, issued !! i = Some v ->
       exists l1 l2, map fst ips = l1 ++ v :: l2 /\
         v ∉ cached (foldl merged df_ip
                       (take i (responses reply (length (lookups w)) issued))) /\
         forall x, x ∈ l1 ->
           x ∈ take i issued \/
           x ∈ cached (foldl merged df_ip
                         (take i (responses reply (length (lookups w)) issued)))) /\
    ((forall x, x ∈ map fst ips ->
        x ∈ issued \/
        x ∈ cached (foldl merged df_ip
                      (responses reply (length (lookups w)) issued))) \/
     (budget <= fetched + Z.of_nat (length issued))%Z \/
     (exists x, last (responses reply (length (lookups w)) issued) = Some x /\
                halts x = true)).
Proof.
  induction ips as [|[ip count] rest IH]; intros fetched df_ip w r w' H Hq;
    simpl in H.
  { inversion H; subst. exists []. rewrite app_nil_r. split_and!; [done|done|].
    left. by intros x Hx%elem_of_nil. }
  unfold Polars.get_column in H. rewrite Hq in H. fold (cached df_ip) in H.
  destruct (bool_decide (ip ∈ cached df_ip)) eqn:Hin.
  { apply bool_decide_eq_true in Hin.
    apply IH in H as (issued & Hl & HA & HB); [|done].
    exists issued. split_and!; [done| |].
    - intros i v Hi. destruct (HA i v Hi) as (l1 & l2 & Heq & Hv & Hl1).
      exists (ip :: l1), l2. simpl. rewrite Heq. split_and!; [done|done|].
      intros x [->|Hx]%elem_of_cons; [|by apply Hl1].
      right. by apply cached_foldl_merged.
    - destruct HB as [Hall|[Hb|Hlast]]; [left|by right; left|by right; right].
      simpl. intros x [->|Hx]%elem_of_cons; [|by apply Hall].
      right. by apply cached_foldl_merged. }
  apply bool_decide_eq_false in Hin.
  destruct (budget <=? fetched)%Z eqn:Hb.
  { inversion H; subst. exists []. rewrite app_nil_r. split_and!; [done|done|].
    right; left. apply Z.leb_le in Hb. simpl. lia. }
  assert (halts (reply (length (lookups w)) ip) = true -> w' = sent ip w ->
          exists issued,
            lookups w' = lookups w ++ issued /\
            (forall i v, issued !! i = Some v ->
               exists l1 l2, map fst ((ip, count) :: rest) = l1 ++ v :: l2 /\
                 v ∉ cached (foldl merged df_ip
                        (take i (responses reply (length (lookups w)) issued))) /\
                 forall x, x ∈ l1 ->
                   x ∈ take i issued \/
                   x ∈ cached (foldl merged df_ip
                        (take i (responses reply (length (lookups w)) issued)))) /\
            ((forall x, x ∈ map fst ((ip, count) :: rest) ->
                x ∈ issued \/
                x ∈ cached (foldl merged df_ip
                              (responses reply (length (lookups w)) issued))) \/
             (budget <= fetched + Z.of_nat (length issued))%Z \/
             (exists x, last (responses reply (length (lookups w)) issued) = Some x /\
                        halts x = true))) as Hone.
  { intros Hhalt ->. exists [ip]. split_and!; [done| |].
    - intros [|i] v Hi; [|done]. inversion Hi; subst v.
      exists [], (map fst rest). split_and!; [done|done|].
      by intros x Hx%elem_of_nil.
    - right; right. by eexists. }
  assert (forall d,
            d = merged df_ip (reply (length (lookups w)) ip) ->
            fetch_new reply budget rest (fetched + 1) d (sent ip w) = (r, w') ->
            exists issued,
              lookups w' = lookups w ++ issued /\
              (forall i v, issued !! i = Some v ->
                 exists l1 l2, map fst ((ip, count) :: rest) = l1 ++ v :: l2 /\
                   v ∉ cached (foldl merged df_ip
                          (take i (responses reply (length (lookups w)) issued))) /\
                   forall x, x ∈ l1 ->
                     x ∈ take i issued \/
                     x ∈ cached (foldl merged df_ip
                          (take i (responses reply (length (lookups w)) issued)))) /\
              ((forall x, x ∈ map fst ((ip, count) :: rest) ->
                  x ∈ issued \/
                  x ∈ cached (foldl merged df_ip
                                (responses reply (length (lookups w)) issued))) \/
               (budget <= fetched + Z.of_nat (length issued))%Z \/
               (exists x, last (responses reply (length (lookups w)) issued) = Some x /\
                          halts x = true))) as Hgo.
  { intros d Hd Hf.
    assert (Polars.has_column "query" d = true) as Hq'.
    { subst d. unfold Polars.has_column in *. apply bool_decide_eq_true.
      apply merged_columns. by apply bool_decide_eq_true in Hq. }
    apply IH in Hf as (issued & Hl & HA & HB); [|done].
    assert (length (lookups (sent ip w)) = S (length (lookups w))) as Hlen
      by (simpl; rewrite length_app; simpl; lia).
    rewrite Hlen in HA, HB.
    exists (ip :: issued). split_and!.
    - rewrite Hl. simpl. by rewrite <- app_assoc.
    - intros [|i] v Hi.
      + inversion Hi; subst v. exists [], (map fst rest).
        split_and!; [done|done|]. by intros x Hx%elem_of_nil.
      + simpl in Hi. destruct (HA i v Hi) as (l1 & l2 & Heq & Hv & Hl1).
        exists (ip :: l1), l2. simpl. rewrite Heq, <- Hd.
        split_and!; [done|done|].
        intros x [->|Hx]%elem_of_cons; [left; by left|].
        destruct (Hl1 x Hx) as [?|?]; [left; by right|by right].
    - destruct HB as [Hall|[Hb'|(x & Hlast & Hx)]].
      + left. simpl. rewrite <- Hd.
        intros x [->|Hx]%elem_of_cons; [left; by left|].
        destruct (Hall x Hx) as [?|?]; [left; by right|by right].
      + right; left. simpl length. lia.
      + right; right. exists x. split; [|done]. simpl.
        by apply last_cons_Some. }
  destruct (reply (length (lookups w)) ip) as [|status json] eqn:Hreply.
  { inversion H; subst. by apply Hone. }
  destruct (status =? 429)%Z eqn:Hs.
  { inversion H; subst. apply Hone; [|done]. simpl. by rewrite Hs. }
  destruct json as [resp|].
  2:{ inversion H; subst. apply Hone; [|done]. simpl. rewrite Hs. done. }
  simpl in Hgo. rewrite Hs in Hgo.
  destruct (concat_diagonal df_ip (frame_of_dict resp)) as [d0|e] eqn:Hc.
  { by apply (Hgo d0). }
  assert (e = SchemaError) as ->.
  { unfold concat_diagonal in Hc. destruct (same_types _ _); congruence. }
  by apply (Hgo df_ip).
Qed.

Lemma get_ip_info_order reply d path download_new budget w :
  exists issued,
    lookups (snd (_get_ip_info reply d path download_new budget w))
      = lookups w ++ issued /\
    sublist issued (map fst (Counter.most_common (addresses d))) /\
    (forall i v, issued !! i = Some v ->
       exists l1 l2, map fst (Counter.most_common (addresses d)) = l1 ++ v :: l2 /\
         v ∉ cached (cache_before reply path w issued i) /\
         forall x, x ∈ l1 ->
           x ∈ take i issued \/ x ∈ cached (cache_before reply path w issued i)) /\
    (download_new = true -> Polars.has_column "ip" d = true ->
     Polars.has_column "query" (cache_at_start path w) = true ->
       (forall x, x ∈ map fst (Counter.most_common (addresses d)) ->
          x ∈ issued \/
          x ∈ cached (cache_before reply path w issued (length issued))) \/
       (budget <= Z.of_nat (length issued))%Z \/
       (exists x, last (responses reply (length (lookups w)) issued) = Some x /\
                  halts x = true)).
Proof.
  assert (exists issued : list value,
            lookups w = lookups w ++ issued /\
            sublist issued (map fst (Counter.most_common (addresses d))) /\
            (forall i v, issued !! i = Some v ->
               exists l1 l2,
                 map fst (Counter.most_common (addresses d)) = l1 ++ v :: l2 /\
                 v ∉ cached (cache_before reply path w issued i) /\
                 forall x, x ∈ l1 ->
                   x ∈ take i issued \/
                   x ∈ cached (cache_before reply path w issued i))) as Hnone.
  { exists []. rewrite app_nil_r. split_and!; [done|apply sublist_nil_l|done]. }
  unfold _get_ip_info. unfold Polars.get_column.
  destruct (Polars.has_column "ip" d) eqn:Hip.
  2:{ destruct Hnone as (issued & ? & ? & ?). exists issued. simpl.
      split_and!; try done. }
  fold (addresses d). fold (cache_at_start path w).
  destruct download_new.
  2:{ destruct Hnone as (issued & ? & ? & ?). exists issued. simpl.
      split_and!; try done. }
  destruct (fetch_new reply budget (Counter.most_common (addresses d)) 0
              (cache_at_start path w) w) as [r1 w1] eqn:Hf.
  assert (lookups (snd (let '(r, w0) := (r1, w1) in
                        match r with
                        | Return df_ip =>
                            (Return df_ip,
                             mkWorld (<[path:=df_ip]> (csv_files w0)) (lookups w0))
                        | Raise e => (Raise e, w0)
                        end)) = lookups w1) as -> by (by destruct r1).
  destruct (Polars.has_column "query" (cache_at_start path w)) eqn:Hq.
  - destruct (fetch_new_fresh _ _ _ _ _ _ _ _ Hf) as (issued' & Hl' & _ & Hsub & _).
    apply fetch_new_order in Hf as (issued & Hl & HA & HB); [|done].
    assert (issued' = issued) as -> by (rewrite Hl in Hl'; by apply app_inv_head in Hl').
    exists issued. unfold cache_before.
    split_and!; [done|done|done|]. intros _ _ _.
    rewrite firstn_all2 by (by rewrite length_responses).
    destruct HB as [?|[?|?]]; [by left|right; left; lia|by right; right].
  - pose proof (fetch_new_without_query reply budget
                  (Counter.most_common (addresses d)) 0 _ w Hq) as Hw.
    rewrite Hf in Hw. simpl in Hw. subst w1.
    destruct Hnone as (issued & ? & ? & ?). exists issued.
    split_and!; try done.
Qed.

Lemma get_ip_info_world_run E reply path download_new num_ips s w :
  Polars.has_column "country" (df s) = false ->
  snd (get_ip_info E reply path download_new num_ips s w)
    = snd (_get_ip_info reply (df s) path download_new num_ips w).
Proof.
  intros Hc. unfold get_ip_info. rewrite Hc.
  destruct (_get_ip_info _ _ _ _ _ _) as [[df_ip|e] w']; simpl; [|done].
  by destruct (_ ≫= _).
Qed.

(** C2: whatever the table, the cache and the service, one call of
    [get_ip_info] with a budget [num_ips] (a count, so not negative) sends at
    most [num_ips] lookups.  The addresses of the table, each taken once and
    ranked by descending number of requests, are tried in that order: every
    lookup goes to the first address of the ranking, among those not yet
    passed, that the cache as it then stands does not hold, so that no lookup
    goes to a cached address and none is skipped for a less frequent one.
    On a table that is not enriched yet the lookups go on until every
    address of the table is looked up or cached, or the budget is used up, or
    a reply halts the run. *)
Theorem enrichment_lookups_within_budget
  (E : Engine) (reply : service) (ip_info_csv : string) (download_new : bool)
  (num_ips : Z) (s : ErddapLogParser) (w : World) :
  (0 <= num_ips)%Z ->
  exists ranking issued,
    (NoDup ranking /\
     (forall v, v ∈ ranking <-> v ∈ addresses (df s)) /\
     StronglySorted (fun a b => (frequency (df s) b <= frequency (df s) a)%nat)
                    ranking) /\
    lookups (snd (get_ip_info E reply ip_info_csv download_new num_ips s w))
      = lookups w ++ issued /\
    (Z.of_nat (length issued) <= num_ips)%Z /\
    StronglySorted (fun a b => (frequency (df s) b <= frequency (df s) a)%nat)
                   issued /\
    sublist issued ranking /\
    (forall i v, issued !! i = Some v ->
       exists l1 l2, ranking = l1 ++ v :: l2 /\
         v ∉ cached (cache_before reply ip_info_csv w issued i) /\
         forall x, x ∈ l1 ->
           x ∈ take i issued \/
           x ∈ cached (cache_before reply ip_info_csv w issued i)) /\
    (Polars.has_column "country" (df s) = false -> download_new = true ->
     Polars.has_column "ip" (df s) = true ->
     Polars.has_column "query" (cache_at_start ip_info_csv w) = true ->
       (forall x, x ∈ ranking ->
          x ∈ issued \/
          x ∈ cached (cache_before reply ip_info_csv w issued (length issued))) \/
       (num_ips <= Z.of_nat (length issued))%Z \/
       (exists x, last (responses reply (length (lookups w)) issued) = Some x /\
                  halts x = true)).
Proof.
  intros Hb.
  exists (map fst (Counter.most_common (addresses (df s)))).
  assert (NoDup (map fst (Counter.most_common (addresses (df s)))) /\
          (forall v, v ∈ map fst (Counter.most_common (addresses (df s)))
                     <-> v ∈ addresses (df s)) /\
          StronglySorted
            (fun a b => (frequency (df s) b <= frequency (df s) a)%nat)
            (map fst (Counter.most_common (addresses (df s))))) as Hrank.
  { split_and!; [apply NoDup_keys_most_common|apply keys_most_common|].
    eapply StronglySorted_weaken; [|apply (most_common_descending (addresses (df s)))].
    intros a b. simpl. by rewrite !frequency_occurrences. }
  destruct (Polars.has_column "country" (df s)) eqn:Hcountry.
  - exists []. unfold get_ip_info. rewrite Hcountry. simpl. rewrite app_nil_r.
    split; [exact Hrank|].
    split_and!; [done|lia|constructor|apply sublist_nil_l|done|done].
  - rewrite (get_ip_info_world_run E reply ip_info_csv download_new num_ips s w Hcountry).
    destruct (get_ip_info_order reply (df s) ip_info_csv download_new num_ips w)
      as (issued & Hl & Hsub & HA & HB).
    destruct (_get_ip_info reply (df s) ip_info_csv download_new num_ips w)
      as [r w'] eqn:Hrun.
    apply get_ip_info_spec in Hrun as (issued' & Hl' & Hn & Hs & _).
    simpl in Hl.
    assert (issued' = issued) as -> by (rewrite Hl in Hl'; by apply app_inv_head in Hl').
    exists issued. simpl. split; [exact Hrank|].
    split_and!; [done|lia|done|done|done|]. intros _. exact HB.
Qed.

Lemma enrichment_lookups_within_budget_witness :
  (0 <= 2)%Z /\
  exists ranking issued,
    (NoDup ranking /\
     (forall v, v ∈ ranking <-> v ∈ addresses (df (with_df DemoNet.requests init))) /\
     StronglySorted
       (fun a b => (frequency (df (with_df DemoNet.requests init)) b
                    <= frequency (df (with_df DemoNet.requests init)) a)%nat)
       ranking) /\
    lookups (snd (get_ip_info Reference.engine DemoNet.generous "ip.csv" true 2
                    (with_df DemoNet.requests init) DemoNet.offline))
      = lookups DemoNet.offline ++ issued /\
    (Z.of_nat (length issued) <= 2)%Z /\
    StronglySorted
      (fun a b => (frequency (df (with_df DemoNet.requests init)) b
                   <= frequency (df (with_df DemoNet.requests init)) a)%nat)
      issued /\
    sublist issued ranking /\
    (forall i v, issued !! i = Some v ->
       exists l1 l2, ranking = l1 ++ v :: l2 /\
         v ∉ cached (cache_before DemoNet.generous "ip.csv" DemoNet.offline issued i) /\
         forall x, x ∈ l1 ->
           x ∈ take i issued \/
           x ∈ cached (cache_before DemoNet.generous "ip.csv" DemoNet.offline issued i)) /\
    (Polars.has_column "country" (df (with_df DemoNet.requests init)) = false ->
     true = true ->
     Polars.has_column "ip" (df (with_df DemoNet.requests init)) = true ->
     Polars.has_column "query" (cache_at_start "ip.csv" DemoNet.offline) = true ->
       (forall x, x ∈ ranking ->
          x ∈ issued \/
          x ∈ cached (cache_before DemoNet.generous "ip.csv" DemoNet.offline issued
                        (length issued))) \/
       (2 <= Z.of_nat (length issued))%Z \/
       (exists x, last (responses DemoNet.generous (length (lookups DemoNet.offline))
                          issued) = Some x /\
                  halts x = true)).
Proof.
  split; [lia|].
  apply (enrichment_lookups_within_budget Reference.engine DemoNet.generous
           "ip.csv" true 2 (with_df DemoNet.requests init) DemoNet.offline).
  lia.
Defined.

(** ** When [_parse_columns] returns *)

Lemma getitem_width f k cs : Pandas.getitem f k = Return cs -> k < Pandas.width f.
Proof.
  unfold Pandas.getitem. destruct (k <? Pandas.width f)%nat eqn:E; [|discriminate].
  intros _. by apply Nat.ltb_lt.
Qed.

Lemma width_lt f k :
  k < Pandas.width f -> exists p, p ∈ f /\ k < Pandas.pieces_len p.
Proof.
  induction f as [|p f IH]; simpl; [lia|]. intros Hk.
  destruct (Nat.max_spec (Pandas.pieces_len p) (Pandas.width f)) as [[_ Hm]|[_ Hm]];
    rewrite Hm in Hk.
  - destruct (IH Hk) as (q & Hq & Hlen). exists q. split; [by right|done].
  - exists p. split; [by left|done].
Qed.

Lemma with_column_keeps c k vs d d' :
  Polars.with_column c vs d = Return d' -> c <> k ->
  map (Polars.cell k) (rows d') = map (Polars.cell k) (rows d).
Proof.
  unfold Polars.with_column. destruct (length vs =? Polars.height d)%nat eqn:E;
    [|discriminate].
  apply Nat.eqb_eq in E. intros [= <-] Hne. simpl.
  unfold Polars.height in E. revert vs E.
  induction (rows d) as [|r rs IH]; intros [|v vs] E; simpl in *; try done.
  rewrite cell_set_cell_ne by done. f_equal. apply IH. lia.
Qed.

Lemma free_of_remove_char c x s :
  PyStr.free_of c s = true -> PyStr.free_of c (PyStr.remove_char x s) = true.
Proof.
  induction s as [|a s IH]; simpl; [done|].
  intros [Ha Hs]%andb_prop. destruct (Ascii.eqb a x); simpl; [by apply IH|].
  by rewrite Ha, IH.
Qed.

Ltac keep_column k :=
  repeat match goal with
  | H : Polars.with_column ?c _ ?d = Return ?d' |- _ =>
      lazymatch goal with
      | _ : map (Polars.cell k) (rows d') = map (Polars.cell k) (rows d) |- _ => fail
      | _ => pose proof (with_column_keeps c k _ d d' H ltac:(discriminate))
      end
  end.

Ltac back_to_source H :=
  repeat match goal with
  | E : map (Polars.cell _) (rows _) = map (Polars.cell _) (rows _) |- _ =>
      rewrite E in H
  end.

(** X19: [_parse_columns] selects the second piece of the URLs split at
    the question mark and the third piece of the addresses split at the dot,
    so it returns only for a table in which some URL has a query string and
    some address has three dot-separated pieces; on an empty table, or on one
    whose URLs are all free of question marks, it raises. *)
Theorem parse_columns_needs_a_query_string
  (E : Engine) (d d' : DataFrame) :
  _parse_columns E d = Return d' ->
  (exists r u, r ∈ rows d /\ Polars.cell "url" r = Some (DStr u) /\
               PyStr.free_of "?" u = false) /\
  (exists r a, r ∈ rows d /\ Polars.cell "ip" r = Some (DStr a) /\
               2 < length (PyStr.split "." a)).
Proof.
  unfold _parse_columns, Polars.fill_null. intros H.
  repeat bind_inv H.
  pose proof (getitem_width _ _ _ Hx12) as Hq.
  pose proof (getitem_width _ _ _ Hx24) as Hip.
  apply bind_Return in Hx as (country & _ & Hx).
  apply bind_Return in Hx0 as (urls & Hurls & Hx0).
  apply bind_Return in Hx21 as (ips & Hips & Hx21).
  apply get_column_Return in Hurls, Hips.
  apply to_pandas_Return in Hx0, Hx21. subst.
  keep_column "url". keep_column "ip".
  back_to_source Hq. back_to_source Hip.
  unfold Pandas.str_split_expand in Hq, Hip.
  apply width_lt in Hq as (p & Hp & Hlen).
  apply width_lt in Hip as (q & Hq & Hlen').
  repeat (apply elem_of_map in Hp as (? & -> & Hp)).
  repeat (apply elem_of_map in Hq as (? & -> & Hq)).
  split.
  - match type of Hp with ?r ∈ _ => exists r end.
    match type of Hp with ?r ∈ _ =>
      destruct (Polars.cell "url" r) as [[u| | |]|] eqn:Hu; simpl in Hlen; try lia
    end.
    exists u. split_and!; [done|done|].
    destruct (PyStr.free_of "?" u) eqn:Hfree; [|done].
    rewrite split_free in Hlen by (by apply free_of_remove_char).
    simpl in Hlen. lia.
  - match type of Hq with ?r ∈ _ => exists r end.
    match type of Hq with ?r ∈ _ =>
      destruct (Polars.cell "ip" r) as [[a| | |]|] eqn:Ha; simpl in Hlen'; try lia
    end.
    by exists a.
Qed.

Lemma parse_columns_needs_a_query_string_witness :
  _parse_columns Reference.engine (DemoUrls.table DemoUrls.search_page)
    = Return (DemoUrls.parsed Reference.engine DemoUrls.search_page) /\
  exists r u, r ∈ rows (DemoUrls.table DemoUrls.search_page) /\
    Polars.cell "url" r = Some (DStr u) /\ PyStr.free_of "?" u = false.
Proof.
  split; [vm_compute; reflexivity|].
  refine (proj1 (parse_columns_needs_a_query_string Reference.engine
                   (DemoUrls.table DemoUrls.search_page) _ _)).
  vm_compute; reflexivity.
Defined.

Lemma derive_row_keeps c r0 :
  c ∈ ["ip"; "datetime"; "url"; "user-agent"] ->
  Polars.cell c (derive_row r0) = Polars.cell c r0.
Proof.
  intros Hc. repeat (apply elem_of_cons in Hc as [->|Hc]);
    [..|by apply elem_of_nil in Hc]; unfold derive_row; by cells.
Qed.

Lemma first_piece c s :
  Pandas.pieces_get 0 (Pandas.split_cell c (Pandas.Str s))
  = Pandas.Str (Claimed.before_first c s).
Proof. simpl. by destruct (split_head c s) as [rest ->]. Qed.

(** X20: when [_parse_columns] returns, the table has as many rows as
    before, in timestamp order; every row is an old row with columns added:
    address, timestamp, URL and user agent are as they were, a null country
    reads [unknown], and [user_agent_base] is the user agent up to its first
    space and then up to its first slash. *)
Theorem parse_columns_adds_columns_to_every_row
  (E : Engine) (d d' : DataFrame) :
  _parse_columns E d = Return d' ->
  Polars.height d' = Polars.height d /\
  Sorted (Polars.row_le "datetime") (rows d') /\
  forall r', r' ∈ rows d' ->
    exists r, r ∈ rows d /\
      (forall c, c ∈ ["ip"; "datetime"; "url"; "user-agent"] ->
                 Polars.cell c r' = Polars.cell c r) /\
      Polars.cell "country" r'
        = Some (default (DStr "unknown") (Polars.cell "country" r)) /\
      (forall ua, Polars.cell "user-agent" r = Some (DStr ua) ->
         Polars.cell "user_agent_base" r'
           = Some (DStr (Claimed.before_first "/" (Claimed.before_first " " ua)))).
Proof.
  intros H. pose proof (parse_columns_rows E d d' H) as Hrows.
  split_and!.
  - unfold Polars.height. rewrite Hrows, (sort_rows_perm E). apply length_map.
  - rewrite Hrows. apply sort_rows_sorted.
  - intros r' Hr'. destruct (parse_columns_elem E d d' r' H Hr') as (r & Hr & ->).
    exists r. split_and!; [done|intros c Hc; by apply derive_row_keeps| |].
    + unfold derive_row. by cells.
    + intros ua Hua. unfold derive_row. cells. rewrite Hua.
      simpl cell_of_value. by rewrite !first_piece.
Qed.

Lemma parse_columns_adds_columns_to_every_row_witness :
  _parse_columns Reference.engine (DemoUrls.table DemoUrls.dated_file)
    = Return (DemoUrls.parsed Reference.engine DemoUrls.dated_file) /\
  Polars.height (DemoUrls.parsed Reference.engine DemoUrls.dated_file)
    = Polars.height (DemoUrls.table DemoUrls.dated_file).
Proof.
  split; [vm_compute; reflexivity|].
  refine (proj1 (parse_columns_adds_columns_to_every_row Reference.engine
                   (DemoUrls.table DemoUrls.dated_file) _ _)).
  vm_compute; reflexivity.
Defined.



(** ** The tables made for sharing *)

(** the columns the anonymized table may hold in the end *)
Definition released_columns : list string :=
  ["ip"; "datetime"; "status-code"; "bytes-sent"; "erddap_request_type";
   "dataset_type"; "dataset_id"; "file_type"; "url";
   "BrowserFamily"; "DeviceFamily"; "OS"].

(** no row of the table holds a datum under another name than [cols] *)
Definition holds_only (cols : list string) (d : DataFrame) : Prop :=
  forall r c, r ∈ rows d -> is_Some (Polars.cell c r) -> c ∈ cols.

Lemma the_anonymized_Return s a s1 :
  the_anonymized s = (Return a, s1) -> anonymized s = Some a /\ s1 = s.
Proof.
  unfold the_anonymized, mbind, method_bind, m_bind, attr, m_ret, raise. simpl.
  destruct (anonymized s); [|done]. by intros [= -> ->].
Qed.

Lemma update_anonymized_Return (g : DataFrame -> result DataFrame) {B}
  (k : unit -> method B) s b s' :
  (a ← the_anonymized; a ← call (g a); assign (with_anonymized a) ≫= k) s
    = (Return b, s') ->
  exists a a', anonymized s = Some a /\ g a = Return a' /\
               k tt (with_anonymized a' s) = (Return b, s').
Proof.
  intros H.
  apply bind_method_Return in H as (a & s1 & [Ha ->]%the_anonymized_Return & H).
  apply bind_method_Return in H as (a' & s1 & [= Hg <-] & H).
  apply bind_method_Return in H as ([] & s1 & [= <-] & H).
  by exists a, a'.
Qed.

Lemma elem_of_zip_with_set c vs (rs : list row) r' :
  r' ∈ zip_with (Polars.set_cell c) vs rs ->
  exists v r, r ∈ rs /\ r' = Polars.set_cell c v r.
Proof.
  revert vs. induction rs as [|r rs IH]; intros [|v vs] H; simpl in H;
    try (by apply elem_of_nil in H).
  apply elem_of_cons in H as [->|H]; [exists v, r; split; [by left|done]|].
  destruct (IH vs H) as (v' & r0 & Hr0 & ->). exists v', r0. split; [by right|done].
Qed.

Lemma with_column_holds c vs d d' cols :
  Polars.with_column c vs d = Return d' -> c ∈ cols ->
  holds_only cols d ->
  holds_only cols d' /\ Polars.height d' = Polars.height d /\
  (forall k, k ∉ columns d -> k <> c -> k ∉ columns d').
Proof.
  intros H Hc Hd. pose proof (with_column_Return _ _ _ _ H) as Hrows.
  unfold Polars.with_column in H.
  destruct (length vs =? Polars.height d)%nat eqn:E; [|discriminate].
  apply Nat.eqb_eq in E. inversion H; subst d'. clear H. simpl in *.
  split_and!.
  - intros r' k Hr' Hk. simpl in Hr'.
    apply elem_of_zip_with_set in Hr' as (v & r & Hr & ->).
    destruct (decide (c = k)) as [<-|Hne]; [done|].
    rewrite cell_set_cell_ne in Hk by done. by eapply Hd.
  - unfold Polars.height in *. simpl. rewrite length_zip_with. lia.
  - intros k Hk Hne. destruct (Polars.has_column c d); [done|].
    rewrite elem_of_app, list_elem_of_singleton. tauto.
Qed.

Lemma add_family_holds f c d d' cols :
  add_family f c d = Return d' -> c ∈ cols -> holds_only cols d ->
  holds_only cols d' /\ Polars.height d' = Polars.height d /\
  (forall k, k ∉ columns d -> k <> c -> k ∉ columns d').
Proof.
  unfold add_family. intros H.
  apply bind_Return in H as (uas & _ & H). intros Hc Hd.
  by eapply with_column_holds.
Qed.

Lemma drop_column_holds c d d' cols :
  drop_column c d = Return d' -> holds_only (c :: cols) d ->
  holds_only cols d' /\ Polars.height d' = Polars.height d /\
  c ∉ columns d' /\ (forall k, k ∉ columns d -> k ∉ columns d').
Proof.
  unfold drop_column. destruct (Polars.has_column c d); [|discriminate].
  intros [= <-] Hd. simpl. split_and!.
  - intros r' k Hr' Hk. simpl in Hr'.
    apply elem_of_map in Hr' as (r & -> & Hr).
    unfold Polars.cell in Hk. destruct (decide (c = k)) as [<-|Hne].
    + rewrite lookup_delete_eq in Hk. by destruct Hk.
    + rewrite lookup_delete_ne in Hk by done.
      specialize (Hd r k Hr Hk). apply elem_of_cons in Hd as [?|?]; [congruence|done].
  - unfold Polars.height. simpl. apply length_map.
  - intros Hin%list_elem_of_In%List.filter_In. destruct Hin as [_ Hin].
    by rewrite String.eqb_refl in Hin.
  - intros k Hk Hin%list_elem_of_In%List.filter_In. destruct Hin as [Hin _].
    by apply Hk, list_elem_of_In.
Qed.

Lemma select_holds (pick : string -> bool) d cols :
  (forall c, pick c = true -> c ∈ cols) ->
  holds_only cols (select pick d) /\
  Polars.height (select pick d) = Polars.height d /\
  (forall c, c ∈ columns (select pick d) -> pick c = true).
Proof.
  intros Hp. unfold select. split_and!.
  - intros r' k Hr' Hk. simpl in Hr'. apply elem_of_map in Hr' as (r & -> & Hr).
    unfold Polars.cell, project in Hk. destruct Hk as [x Hx].
    apply map_lookup_filter_Some in Hx as [_ Hx]. simpl in Hx.
    apply Hp. apply list_elem_of_In, List.filter_In in Hx. tauto.
  - unfold Polars.height. simpl. apply length_map.
  - simpl. intros c Hc%list_elem_of_In%List.filter_In. tauto.
Qed.

Lemma position_lt {A} `{EqDecision A} (x : A) (l : list A) :
  x ∈ l -> position x l < length l.
Proof. intros Hx. apply position_lookup in Hx. by eapply lookup_lt_Some. Qed.

Lemma anonymize_ip_Return E s s' :
  anonymize_ip E s = (Return tt, s') ->
  exists a, anonymized s = Some a /\ Polars.has_column "ip" a = true.
Proof.
  unfold anonymize_ip. intros H.
  apply bind_method_Return in H as (a & s1 & [Ha ->]%the_anonymized_Return & H).
  apply bind_method_Return in H as (ips & s1 & [= Hg <-] & H).
  exists a. split; [done|]. unfold Polars.get_column in Hg.
  by destruct (Polars.has_column "ip" a).
Qed.

Lemma anonymize_query_Return s s' :
  anonymize_query s = (Return tt, s') ->
  exists a urls, anonymized s = Some a /\
    Polars.get_column "url" a ≫= Polars.as_strings = Return urls.
Proof.
  unfold anonymize_query. intros H.
  apply bind_method_Return in H as (a & s1 & [Ha ->]%the_anonymized_Return & H).
  apply bind_method_Return in H as (urls & s1 & [= Hg <-] & H).
  by exists a, urls.
Qed.

Lemma anonymize_requests_Return
  (E : Engine) (parse : string -> families) (s s' : ErddapLogParser) :
  anonymize_requests E parse s = (Return tt, s') ->
  (df s' = df s /\ ip s' = ip s /\ df_xml s' = df_xml s /\
   unfiltered_df s' = unfiltered_df s) /\
  exists a, anonymized s' = Some a /\
    Polars.height a = Polars.height (df s) /\
    (forall c, c ∈ columns a -> c ∈ released_columns) /\
    holds_only released_columns a /\
    forall r, r ∈ rows a ->
      Polars.cell "ip" r = None \/
      exists n, Polars.cell "ip" r = Some (DInt n) /\
                (0 <= n < Z.of_nat (Polars.height (df s)))%Z.
Proof.
  unfold anonymize_requests. intros H.
  apply bind_method_Return in H as ([] & s1 & Hloc & H).
  assert (exists l, s1 = with_location l s) as [l ->].
  { unfold aggregate_location in Hloc.
    apply bind_method_Return in Hloc as (d & s0 & [= <- <-] & Hloc).
    apply bind_method_Return in Hloc as (l & s0 & [= _ <-] & [= <-]). by exists l. }
  apply bind_method_Return in H as (d & s0 & [= <- <-] & H).
  apply bind_method_Return in H as ([] & s0 & [= <-] & H).
  apply bind_method_Return in H as ([] & s3 & Hua & H).
  apply bind_method_Return in H as ([] & s4 & Hip & Hq).
  cbn [df with_location] in Hua.
  set (a0 := select (fun c => bool_decide (c ∈ shareable_columns)) (df s)) in *.
  destruct (select_holds (fun c => bool_decide (c ∈ shareable_columns)) (df s)
              ("BrowserFamily" :: "DeviceFamily" :: "OS" :: shareable_columns))
    as (Hh0 & Hn0 & Hc0).
  { intros c Hc%bool_decide_eq_true. by do 3 right. }
  fold a0 in Hh0, Hn0, Hc0.
  (* the user agents *)
  unfold anonymize_user_agent in Hua.
  apply update_anonymized_Return in Hua as (a & a1 & [= <-] & H1 & Hua).
  apply update_anonymized_Return in Hua as (a & a2 & [= <-] & H2 & Hua).
  apply update_anonymized_Return in Hua as (a & a3' & [= <-] & H3 & Hua).
  apply bind_method_Return in Hua
    as (a & s0 & [[= <-] ->]%the_anonymized_Return & Hua).
  apply bind_method_Return in Hua as (a3 & s0 & [= Hd <-] & [= <-]).
  apply (add_family_holds _ _ _ _
           ("BrowserFamily" :: "DeviceFamily" :: "OS" :: shareable_columns))
    in H1 as (Hh1 & Hn1 & Hc1);
    [|apply list_elem_of_In; simpl; tauto|exact Hh0].
  apply (add_family_holds _ _ _ _
           ("BrowserFamily" :: "DeviceFamily" :: "OS" :: shareable_columns))
    in H2 as (Hh2 & Hn2 & Hc2);
    [|apply list_elem_of_In; simpl; tauto|exact Hh1].
  apply (add_family_holds _ _ _ _
           ("BrowserFamily" :: "DeviceFamily" :: "OS" :: shareable_columns))
    in H3 as (Hh3 & Hn3 & Hc3);
    [|apply list_elem_of_In; simpl; tauto|exact Hh2].
  assert (holds_only ("user-agent" :: released_columns) a3') as Hh3'.
  { intros r c Hr Hc. specialize (Hh3 r c Hr Hc).
    apply list_elem_of_In in Hh3. apply list_elem_of_In. simpl in *. tauto. }
  apply drop_column_holds with (cols := released_columns) in Hd
    as (Hh & Hn & Hua & Hcd); [|exact Hh3'].
  (* the addresses *)
  destruct (anonymize_ip_Return _ _ _ Hip) as (a & Ha & Hhas).
  simpl in Ha. injection Ha as <-.
  match type of Hip with
  | anonymize_ip E ?st = _ =>
      rewrite (anonymize_ip_returns E st a3 eq_refl Hhas) in Hip
  end.
  inversion Hip; subst s4. clear Hip.
  (* the queries *)
  destruct (anonymize_query_Return _ _ Hq) as (a & urls & Ha & Hurls).
  simpl in Ha. injection Ha as <-.
  match type of Hq with
  | anonymize_query ?st = _ =>
      rewrite (anonymize_query_returns st _ urls eq_refl Hurls) in Hq
  end.
  inversion Hq; subst s'. clear Hq. simpl.
  split; [done|]. eexists. split; [reflexivity|].
  apply bind_Return in Hurls as (vs & Hvs & Hurls).
  apply get_column_Return in Hvs. apply as_strings_length in Hurls.
  subst vs. simpl in Hurls. rewrite !length_map in Hurls.
  set (U := unique_values E (map (Polars.cell "ip") (rows a3))) in *.
  assert (forall r, r ∈ rows a3 -> Polars.cell "ip" r ∈ U) as HU.
  { intros r Hr. apply unique_values_elem, elem_of_map. by exists r. }
  assert (length U <= Polars.height (df s)) as HlenU.
  { rewrite <- Hn0, <- Hn1, <- Hn2, <- Hn3, <- Hn. unfold Polars.height.
    trans (length (map (Polars.cell "ip") (rows a3)));
      [|by rewrite length_map].
    apply submseteq_length, NoDup_submseteq; [apply unique_values_NoDup|].
    intros v Hv. unfold U in Hv. by apply unique_values_elem in Hv. }
  split_and!.
  - unfold Polars.height in *. simpl. rewrite length_zip_with, !length_map.
    lia.
  - simpl. intros c Hc. destruct (decide (c ∈ released_columns)) as [|Hno]; [done|].
    exfalso. destruct (decide (c = "user-agent")) as [->|Hnua]; [done|].
    assert (forall k, k ∈ released_columns -> c <> k) as Hne
      by (intros k Hk ->; done).
    revert Hc. apply Hcd.
    apply Hc3; [|apply Hne, list_elem_of_In; simpl; tauto].
    apply Hc2; [|apply Hne, list_elem_of_In; simpl; tauto].
    apply Hc1; [|apply Hne, list_elem_of_In; simpl; tauto].
    intros Hin%Hc0%bool_decide_eq_true. apply Hno.
    apply list_elem_of_In in Hin. apply list_elem_of_In. simpl in *.
    destruct Hin as [<-|[<-|[<-|[<-|[<-|[<-|[<-|[<-|[<-|[<-|[]]]]]]]]]]]; tauto.
  - intros r5 c Hr5 Hc. simpl in Hr5.
    apply elem_of_zip_with_set in Hr5 as (v & r4 & Hr4 & ->).
    apply elem_of_map in Hr4 as (r3 & -> & Hr3).
    destruct (decide ("url" = c)) as [<-|Hne1]; [apply list_elem_of_In; simpl; tauto|].
    rewrite cell_set_cell_ne in Hc by done.
    destruct (decide ("ip" = c)) as [<-|Hne2]; [apply list_elem_of_In; simpl; tauto|].
    rewrite cell_set_cell_ne in Hc by done. by eapply Hh.
  - intros r5 Hr5. simpl in Hr5.
    apply elem_of_zip_with_set in Hr5 as (v & r4 & Hr4 & ->).
    apply elem_of_map in Hr4 as (r3 & -> & Hr3).
    rewrite cell_set_cell_ne by done. rewrite cell_set_cell_eq.
    specialize (HU r3 Hr3). destruct (Polars.cell "ip" r3) as [x|]; [|by left].
    right. simpl. eexists. split; [done|].
    apply position_lt in HU. lia.
Qed.

(** X22: when [anonymize_requests] returns it has changed neither the
    request table nor the checkpoint; the anonymized table has a row per
    request, no [user-agent] column and no column of the enrichment, its rows
    hold nothing under any other name than the released ones, and its [ip]
    column holds small integers instead of addresses. *)
Theorem anonymize_requests_releases_no_address
  (E : Engine) (parse : string -> families) (s s' : ErddapLogParser) :
  anonymize_requests E parse s = (Return tt, s') ->
  (df s' = df s /\ ip s' = ip s /\ df_xml s' = df_xml s /\
   unfiltered_df s' = unfiltered_df s) /\
  exists a, anonymized s' = Some a /\
    Polars.height a = Polars.height (df s) /\
    (forall c, c ∈ columns a -> c ∈ released_columns) /\
    holds_only released_columns a /\
    forall r, r ∈ rows a ->
      Polars.cell "ip" r = None \/
      exists n, Polars.cell "ip" r = Some (DInt n) /\
                (0 <= n < Z.of_nat (Polars.height (df s)))%Z.
Proof. apply anonymize_requests_Return. Qed.

(** every user agent read as the same browser, for the examples *)
Definition sample_parse : string -> families :=
  fun _ => mkFamilies "Firefox" "Other" "Linux".

(** the sample requests after enrichment by a service that answers *)
Definition enriched_requests : ErddapLogParser :=
  snd (fst (get_ip_info Reference.engine DemoNet.generous "ip.csv" true 60
              (with_df DemoNet.requests init) DemoNet.offline)).

Lemma anonymize_requests_releases_no_address_witness :
  anonymize_requests Reference.engine sample_parse enriched_requests
    = (Return tt,
       snd (anonymize_requests Reference.engine sample_parse enriched_requests)) /\
  df (snd (anonymize_requests Reference.engine sample_parse enriched_requests))
    = df enriched_requests.
Proof.
  split; [vm_compute; reflexivity|].
  refine (proj1 (proj1 (anonymize_requests_releases_no_address Reference.engine
                          sample_parse enriched_requests _ _))).
  vm_compute; reflexivity.
Defined.

(** ** Requests by place, and the export *)

(** the requests a location table accounts for: the sum of its [len] column *)
Definition requests_counted (l : DataFrame) : nat :=
  sum_list_with
    (fun r => match Polars.cell "len" r with
              | Some (DInt n) => Z.to_nat n
              | _ => 0
              end) (rows l).

Lemma group_size_cons (x : row) l k :
  group_size (x :: l) k = (if bool_decide (x = k) then 1 else 0) + group_size l k.
Proof. unfold group_size. simpl. by destruct (bool_decide (x = k)). Qed.

Lemma sum_indicator (x : row) (U : list row) :
  NoDup U -> x ∈ U ->
  sum_list_with (fun k => if bool_decide (x = k) then 1 else 0) U = 1.
Proof.
  induction 1 as [|k U Hk Hnd IH]; intros Hx; [by apply elem_of_nil in Hx|].
  simpl. case_bool_decide as Heq.
  - subst k. assert (sum_list_with (fun k => if bool_decide (x = k) then 1 else 0) U = 0)
      as ->; [|done].
    clear IH Hx Hnd. induction U as [|y U IH]; [done|]. simpl.
    apply not_elem_of_cons in Hk as [Hne Hk].
    rewrite bool_decide_false by done. by apply IH.
  - apply elem_of_cons in Hx as [?|Hx]; [done|]. by rewrite IH.
Qed.

Lemma sum_group_sizes (U l : list row) :
  NoDup U -> (forall x, x ∈ l -> x ∈ U) ->
  sum_list_with (group_size l) U = length l.
Proof.
  intros Hnd. induction l as [|x l IH]; intros Hin.
  - clear. induction U as [|k U IHU]; [reflexivity|]. simpl. by rewrite IHU.
  - assert (sum_list_with (group_size (x :: l)) U =
            sum_list_with (fun k => if bool_decide (x = k) then 1 else 0) U
            + sum_list_with (group_size l) U) as ->.
    { clear. induction U as [|k U IHU]; [reflexivity|]. simpl.
      rewrite group_size_cons, IHU. lia. }
    rewrite (sum_indicator x U Hnd) by (apply Hin; by left).
    rewrite IH by (intros y Hy; apply Hin; by right). done.
Qed.

Lemma group_size_pos (l : list row) k : k ∈ l -> 1 <= group_size l k.
Proof.
  induction l as [|x l IH]; intros Hk; [by apply elem_of_nil in Hk|].
  rewrite group_size_cons. apply elem_of_cons in Hk as [->|Hk].
  - rewrite bool_decide_true by done. lia.
  - specialize (IH Hk). lia.
Qed.

Lemma group_by_len_Return E keys d l :
  group_by_len E keys d = Return l ->
  columns l = keys ++ ["len"] /\
  (forall c, c ∈ keys -> c ∈ columns d) /\
  requests_counted l = Polars.height d /\
  Polars.height l <= Polars.height d /\
  forall r, r ∈ rows l ->
    exists n, Polars.cell "len" r = Some (DInt n) /\ (1 <= n)%Z.
Proof.
  unfold group_by_len. destruct (missing_column keys d) as [c|] eqn:Hm; [done|].
  intros [= <-]. simpl. split_and!.
  - done.
  - intros c Hc. unfold missing_column in Hm.
    destruct (decide (c ∈ columns d)) as [|Hno]; [done|]. exfalso.
    assert (c ∈ List.filter (fun c => negb (Polars.has_column c d)) keys) as Hin.
    { apply list_elem_of_In, List.filter_In. split; [by apply list_elem_of_In|].
      unfold Polars.has_column. by rewrite bool_decide_false. }
    destruct (List.filter _ keys); [by apply elem_of_nil in Hin|done].
  - unfold requests_counted, Polars.height. simpl.
    set (keyed := map (project keys) (rows d)).
    rewrite <- (length_map (project keys) (rows d)). fold keyed.
    rewrite <- (sum_group_sizes (unique_rows E keyed) keyed);
      [|apply unique_rows_NoDup|intros x Hx; by apply unique_rows_elem].
    induction (unique_rows E keyed) as [|k U IH]; [done|]. simpl.
    unfold Polars.cell at 1. rewrite lookup_insert_eq, Nat2Z.id. by rewrite IH.
  - unfold Polars.height. simpl. rewrite length_map.
    rewrite <- (length_map (project keys) (rows d)).
    apply submseteq_length, NoDup_submseteq; [apply unique_rows_NoDup|].
    intros x Hx. by apply unique_rows_elem in Hx.
  - intros r Hr. apply elem_of_map in Hr as (k & -> & Hk).
    apply unique_rows_elem in Hk. apply group_size_pos in Hk.
    eexists. unfold Polars.cell. rewrite lookup_insert_eq. split; [done|lia].
Qed.

Lemma aggregate_location_Return E s s' :
  aggregate_location E s = (Return tt, s') ->
  exists l, group_by_len E location_keys (df s) = Return l /\
            s' = with_location l s.
Proof.
  unfold aggregate_location. intros H.
  apply bind_method_Return in H as (d & s0 & [= <- <-] & H).
  apply bind_method_Return in H as (l & s0 & [= Hl <-] & [= <-]). by exists l.
Qed.

(** X23: when [aggregate_location] returns, which takes the columns
    [countryCode], [regionName] and [city] that enrichment adds, the location
    table accounts for every request once: its counts are at least one each
    and add up to the number of rows of the request table, which is left as
    it was. *)
Theorem aggregate_location_counts_every_request
  (E : Engine) (s s' : ErddapLogParser) :
  aggregate_location E s = (Return tt, s') ->
  df s' = df s /\
  (forall c, c ∈ location_keys -> c ∈ columns (df s)) /\
  exists l, location s' = Some l /\
    columns l = location_keys ++ ["len"] /\
    requests_counted l = Polars.height (df s) /\
    Polars.height l <= Polars.height (df s) /\
    forall r, r ∈ rows l ->
      exists n, Polars.cell "len" r = Some (DInt n) /\ (1 <= n)%Z.
Proof.
  intros H. apply aggregate_location_Return in H as (l & Hl & ->).
  apply group_by_len_Return in Hl as (Hc & Hk & Hsum & Hh & Hpos).
  split_and!; [done|done|]. by exists l.
Qed.

Lemma aggregate_location_counts_every_request_witness :
  aggregate_location Reference.engine enriched_requests
    = (Return tt, snd (aggregate_location Reference.engine enriched_requests)) /\
  df (snd (aggregate_location Reference.engine enriched_requests))
    = df enriched_requests.
Proof.
  split; [vm_compute; reflexivity|].
  refine (proj1 (aggregate_location_counts_every_request Reference.engine
                   enriched_requests _ _)).
  vm_compute; reflexivity.
Defined.

